(** * Sensor visualizer: telemetry ingestion core

    A shallow embedding of [sensor_visualizer.py]: the multi-format line
    parser ([SerialWorker._parse_line_multi]), the rate-limited dispatch
    inside [SerialWorker.start], the clean-up path ([SerialWorker.stop],
    [SerialWorker._cleanup]) and the scrolling buffers of
    [TimeSeriesTab.addSample]; further the read loop of [SerialWorker.start],
    the stored samples of the widgets behind [MainWindow._onSample] and the
    helper [clamp].

    Conventions.
    - Python exceptions are values of [exn]; code that can raise lives in
      the error monad [Exc], and [try_except] is [try: ... except Exception:].
    - Python [float] is kept abstract: a carrier [F] with the operations the
      source uses.  [float_of_str] is the builtin [float(str)], [None]
      standing for [ValueError].  [PF_float_of_str] and the primitive
      binary64 operations instantiate them for concrete lines.
    - Text is a [string] whose characters are read as the code points
      U+0000 to U+00FF. *)

From Stdlib Require Import ZArith QArith String Ascii List Lia.
From Stdlib Require Import Floats.PrimFloat Numbers.Cyclic.Int63.Uint63.
From Stdlib Require Import Floats.SpecFloat Floats.FloatOps Floats.FloatAxioms.
From stdpp Require Import base option list gmap strings.

Set Default Proof Using "Type".

(** ** Exceptions *)

Inductive exn : Type :=
| ValueError
| IndexError
| ZeroDivisionError
| SerialException.

Inductive Exc (A : Type) : Type :=
| Ok (a : A)
| Raise (e : exn).
Arguments Ok {A} a.
Arguments Raise {A} e.

#[global] Instance Exc_ret : MRet Exc := fun A a => Ok a.
#[global] Instance Exc_bind : MBind Exc := fun A B f m =>
  match m with
  | Ok a => f a
  | Raise e => Raise e
  end.

(** [try: body except Exception: handler] *)
Definition try_except {A} (body : Exc A) (handler : exn → Exc A) : Exc A :=
  match body with
  | Ok a => Ok a
  | Raise e => handler e
  end.

(** [l[i]] for [0 <= i < len(l)]; Python raises [IndexError] otherwise. *)
Definition py_getitem {A} (l : list A) (i : nat) : Exc A :=
  match l !! i with
  | Some a => Ok a
  | None => Raise IndexError
  end.

(** [l[i] = v] for [0 <= i < len(l)]; [IndexError] otherwise. *)
Definition py_setitem {A} (l : list A) (i : nat) (v : A) : Exc (list A) :=
  if decide (i < length l) then Ok (<[i := v]> l) else Raise IndexError.

(** [a % b] on non-negative integers; [ZeroDivisionError] when [b = 0]. *)
Definition py_mod (a b : nat) : Exc nat :=
  if decide (b = 0) then Raise ZeroDivisionError else Ok (a mod b).

(** [np.roll(a, k)]: the element at position [i] moves to [(i + k) mod n]. *)
Definition np_roll {A} (a : list A) (k : Z) : list A :=
  rotate (Z.to_nat ((- k) mod Z.of_nat (length a))) a.

(** ** Text: the [str] and [re] operations the parser uses *)

Definition code (c : ascii) : N := N_of_ascii c.

(** [str.isspace], which is also the class [\s] of [re] on [str] patterns:
    U+0009..U+000D, U+001C..U+0020, U+0085 and U+00A0. *)
Definition isspace (c : ascii) : bool :=
  let n := code c in
  ((9 <=? n) && (n <=? 13) || (28 <=? n) && (n <=? 32) || (n =? 133) || (n =? 160))%N.

(** The class [\d]: below U+0100 only the ten ASCII digits are decimal
    digits. *)
Definition isdigit (c : ascii) : bool :=
  let n := code c in ((48 <=? n) && (n <=? 57))%N.

(** [str.lower] on one character: [A-Z] and the upper-case letters
    U+00C0..U+00DE (without the multiplication sign U+00D7) move up by 32. *)
Definition lower_char (c : ascii) : ascii :=
  let n := code c in
  if ((65 <=? n) && (n <=? 90) || (192 <=? n) && (n <=? 222) && negb (n =? 215))%N
  then ascii_of_N (n + 32) else c.

Fixpoint lower (s : string) : string :=
  match s with
  | EmptyString => EmptyString
  | String c s' => String (lower_char c) (lower s')
  end.

Fixpoint lstrip (s : string) : string :=
  match s with
  | EmptyString => EmptyString
  | String c s' => if isspace c then lstrip s' else s
  end.

Fixpoint rstrip (s : string) : string :=
  match s with
  | EmptyString => EmptyString
  | String c s' =>
      match rstrip s' with
      | EmptyString => if isspace c then EmptyString else String c EmptyString
      | r => String c r
      end
  end.

(** [s.strip()] *)
Definition strip (s : string) : string := rstrip (lstrip s).

(** [s.startswith(p)] *)
Definition startswith (s p : string) : bool := String.prefix p s.

(** [needle in s] *)
Fixpoint contains (needle s : string) : bool :=
  String.prefix needle s ||
  match s with
  | EmptyString => false
  | String _ s' => contains needle s'
  end.

(** [s.endswith(',')] *)
Fixpoint endswith_comma (s : string) : bool :=
  match s with
  | EmptyString => false
  | String c EmptyString => Ascii.eqb c ","
  | String _ s' => endswith_comma s'
  end.

(** [s[:-1]] *)
Fixpoint drop_last (s : string) : string :=
  match s with
  | EmptyString => EmptyString
  | String _ EmptyString => EmptyString
  | String c s' => String c (drop_last s')
  end.

(** Splitting at every character of a class: [s.split(',')] and
    [re.split(r'[;|]', s)].  The result is never empty. *)
Fixpoint split_on (sep : ascii → bool) (s : string) : list string :=
  match s with
  | EmptyString => [EmptyString]
  | String c s' =>
      if sep c then EmptyString :: split_on sep s'
      else match split_on sep s' with
           | w :: ws => String c w :: ws
           | [] => [String c EmptyString]
           end
  end.

Definition is_comma (c : ascii) : bool := Ascii.eqb c ",".
Definition is_semicolon_or_bar (c : ascii) : bool := Ascii.eqb c ";" || Ascii.eqb c "|".

Definition is_empty (s : string) : bool :=
  match s with EmptyString => true | _ => false end.

(** [[p.strip() for p in s.split(',') if p.strip()]] *)
Definition comma_parts (s : string) : list string :=
  filter (λ p, is_empty p = false) (strip <$> split_on is_comma s).

(** *** The pattern of the labeled format

    Blanks, the word sensor in any case, blanks, a group of one or more
    digits, blanks, a colon, blanks, and a group holding the rest of the
    text; matched with [re.match] and [re.IGNORECASE]. *)

(** A literal of the pattern, matched case-insensitively at the start. *)
Fixpoint match_ci (lit s : string) : option string :=
  match lit, s with
  | EmptyString, _ => Some s
  | String a lit', String c s' =>
      if Ascii.eqb (lower_char c) a then match_ci lit' s' else None
  | String _ _, EmptyString => None
  end.

(** The longest run of digits at the start, and what follows it. *)
Fixpoint span_digits (s : string) : string * string :=
  match s with
  | String c s' =>
      if isdigit c then let '(d, r) := span_digits s' in (String c d, r)
      else (EmptyString, s)
  | EmptyString => (EmptyString, EmptyString)
  end.

Definition is_newline (c : ascii) : bool := (code c =? 10)%N.

Fixpoint has_newline (s : string) : bool :=
  match s with
  | EmptyString => false
  | String c s' => is_newline c || has_newline s'
  end.

(** The last group and the end anchor: the dot does not match a line feed,
    and the anchor matches at the end of the text or just before a line
    feed that ends it. *)
Definition match_tail (s : string) : option string :=
  if has_newline s then
    let body := drop_last s in
    if negb (has_newline body) && String.eqb s (body ++ String (ascii_of_N 10) EmptyString)
    then Some body else None
  else Some s.

(** [re.match(pattern, seg, re.IGNORECASE)]: the two groups of a match.
    The classes that follow one another in the pattern are disjoint, so the
    greedy choice of every repetition is the only one that can succeed. *)
Definition re_match_sensor (seg : string) : option (string * string) :=
  match match_ci "sensor" (lstrip seg) with
  | None => None
  | Some s1 =>
      let '(digits, s2) := span_digits (lstrip s1) in
      if is_empty digits then None
      else match lstrip s2 with
           | String c s3 =>
               if Ascii.eqb c ":" then
                 match match_tail (lstrip s3) with
                 | Some payload => Some (digits, payload)
                 | None => None
                 end
               else None
           | EmptyString => None
           end
  end.

(** [int(s)] on the text the digit group captures: a non-empty run of
    decimal digits.  The interpreter refuses text of more than
    [sys.int_info.default_max_str_digits] digits, leading zeros counted,
    with [ValueError]; the limit is the default of CPython 3.11 and later
    (and of the security releases of 3.7 to 3.10), which
    [sys.set_int_max_str_digits] can move.  Other text is [ValueError]
    here. *)
Definition int_max_str_digits : Z := 4300.

Fixpoint digits_value (acc : Z) (s : string) : option Z :=
  match s with
  | EmptyString => Some acc
  | String c s' =>
      if isdigit c then digits_value (10 * acc + Z.of_N (code c - 48)) s'
      else None
  end.

Definition py_int (s : string) : Exc Z :=
  if is_empty s then Raise ValueError
  else match digits_value 0 s with
       | Some n =>
           if (Z.of_nat (String.length s) <=? int_max_str_digits)%Z then Ok n
           else Raise ValueError
       | None => Raise ValueError
       end.

(** ** The serial device *)

(** A [serial.Serial] object as the worker sees it: the port it was opened
    on, and whether its [close()] is going to raise. *)
Record Serial : Type := mkSerial {
  ser_port : string;
  ser_close_raises : bool
}.

(** The outside world: the ports [close()] has been called on, in order. *)
Record World : Type := mkWorld {
  close_log : list string
}.

(** Code that acts on the world and may raise; what it did before raising
    stays done. *)
Definition IO (A : Type) : Type := World → World * Exc A.

Definition io_ret {A} (a : A) : IO A := λ w, (w, Ok a).

Definition io_bind {A B} (m : IO A) (k : A → IO B) : IO B :=
  λ w, match m w with
       | (w', Ok a) => k a w'
       | (w', Raise e) => (w', Raise e)
       end.

(** [try: body except Exception: handler] for code that acts on the world. *)
Definition io_try {A} (body : IO A) (handler : exn → IO A) : IO A :=
  λ w, match body w with
       | (w', Ok a) => (w', Ok a)
       | (w', Raise e) => handler e w'
       end.

(** [port.close()] *)
Definition serial_close (port : Serial) : IO unit :=
  λ w, (mkWorld (close_log w ++ [ser_port port]),
        if ser_close_raises port then Raise SerialException else Ok ()).

(** ** Samples and the time-series tab *)

Inductive Axis : Type := AxX | AxY | AxZ.

Section Model.
Context (F : Type) (f0 : F) (fadd fmul : F → F → F) (fsqrt : F → F).
Context (float_of_str : string → option F).

Record SensorSample : Type := mkSample {
  x_mm : F;
  y_mm : F;
  force_g : F;
  z_mm : F
}.

(** One entry of [self._buffers]: the dict with keys ['x'], ['y'], ['z']. *)
Record AxisBuffers : Type := mkBuffers {
  buf_x : list F;
  buf_y : list F;
  buf_z : list F
}.

(** One entry of [self._plots]: the data last handed to the three curves
    by [setData(self._x_axis, plot)]. *)
Record PlotCurves : Type := mkCurves {
  curve_axis : list nat;
  curve_x : list F;
  curve_y : list F;
  curve_z : list F
}.

Record TimeSeriesTab : Type := mkTab {
  _window : nat;
  _buffers : list AxisBuffers;
  _index : nat;
  _x_axis : list nat;
  _plots : list PlotCurves
}.

Definition TimeSeriesTab_init : TimeSeriesTab :=
  let window := 800 in
  {| _window := window;
     _buffers := replicate 5 (mkBuffers (replicate window f0)
                                        (replicate window f0)
                                        (replicate window f0));
     _index := 0;
     _x_axis := seq 0 window;
     _plots := replicate 5 (mkCurves [] [] [] []) |}.

Definition addSample (self : TimeSeriesTab) (finger_index : Z)
    (sample : SensorSample) : Exc TimeSeriesTab :=
  if negb ((0 <=? finger_index)%Z && (finger_index <? 5)%Z) then Ok self
  else
    let fi := Z.to_nat finger_index in
    buf ← py_getitem (_buffers self) fi;
    idx ← py_mod (_index self) (_window self);
    bx ← py_setitem (buf_x buf) idx (x_mm sample);
    by_ ← py_setitem (buf_y buf) idx (y_mm sample);
    bz ← py_setitem (buf_z buf) idx (z_mm sample);
    let index' := S (_index self) in
    shift ← py_mod (idx + 1) (_window self);
    let plot_x := np_roll bx (- Z.of_nat shift) in
    let plot_y := np_roll by_ (- Z.of_nat shift) in
    let plot_z := np_roll bz (- Z.of_nat shift) in
    _ ← py_getitem (_plots self) fi;
    Ok {| _window := _window self;
          _buffers := <[fi := mkBuffers bx by_ bz]> (_buffers self);
          _index := index';
          _x_axis := _x_axis self;
          _plots := <[fi := mkCurves (_x_axis self) plot_x plot_y plot_z]>
                      (_plots self) |}.

(** A sequence of [addSample] calls, in order. *)
Fixpoint addSamples (self : TimeSeriesTab)
    (calls : list (Z * SensorSample)) : Exc TimeSeriesTab :=
  match calls with
  | [] => Ok self
  | (i, s) :: rest => self' ← addSample self i s; addSamples self' rest
  end.

Definition axis_val (ax : Axis) (s : SensorSample) : F :=
  match ax with AxX => x_mm s | AxY => y_mm s | AxZ => z_mm s end.

Definition axis_buf (ax : Axis) (b : AxisBuffers) : list F :=
  match ax with AxX => buf_x b | AxY => buf_y b | AxZ => buf_z b end.

Definition axis_curve (ax : Axis) (c : PlotCurves) : list F :=
  match ax with AxX => curve_x c | AxY => curve_y c | AxZ => curve_z c end.


(** ** The line parser *)

(** [float(s)] *)
Definition py_float (s : string) : Exc F :=
  match float_of_str s with
  | Some v => Ok v
  | None => Raise ValueError
  end.

(** [math.sqrt(x*x + y*y + z*z)].  The argument is a sum of squares, which
    IEEE arithmetic never makes negative, so the [ValueError] of
    [math.sqrt] on a negative argument has no counterpart here. *)
Definition norm3 (x y z : F) : F :=
  fsqrt (fadd (fadd (fmul x x) (fmul y y)) (fmul z z)).

Local Abbreviation Update := (Z * SensorSample)%type.

(** [x = float(parts[0]); y = float(parts[1]); z = float(parts[2])] and
    [force = float(parts[3]) if len(parts) >= 4 else math.sqrt(...)], the
    statements shared by the labeled and the single-sensor branch. *)
Definition parse_xyz_force (parts : list string) : Exc SensorSample :=
  x ← py_getitem parts 0 ≫= py_float;
  y ← py_getitem parts 1 ≫= py_float;
  z ← py_getitem parts 2 ≫= py_float;
  force ← (if 4 <=? length parts then py_getitem parts 3 ≫= py_float
           else Ok (norm3 x y z));
  Ok (mkSample x y force z).

(** The body of [for seg in segments:]. *)
Definition parse_segment (updates : list Update) (seg : string) : Exc (list Update) :=
  let seg := strip seg in
  if is_empty seg then Ok updates
  else
    match re_match_sensor seg with
    | None => Ok updates
    | Some (g1, g2) =>
        n ← py_int g1;
        let idx := (Z.max 1 (Z.min 5 n) - 1)%Z in
        let payload := strip g2 in
        let payload := if endswith_comma payload then drop_last payload else payload in
        let parts := comma_parts payload in
        if 3 <=? length parts then
          try_except
            (sample ← parse_xyz_force parts; Ok (updates ++ [(idx, sample)]))
            (λ _, Ok updates)
        else Ok updates
    end.

Fixpoint parse_segments (updates : list Update) (segments : list string) :
    Exc (list Update) :=
  match segments with
  | [] => Ok updates
  | seg :: rest => updates' ← parse_segment updates seg; parse_segments updates' rest
  end.

(** How one round of [for sensor_idx in range(5):] ends. *)
Inductive LoopStep : Type :=
| Continue (cursor : nat) (updates : list Update)
| Break.

(** The [try] body of the flat-CSV loop. *)
Definition parse_group (parts : list string) (sensor_idx : Z) (cursor : nat)
    (updates : list Update) : Exc LoopStep :=
  x ← py_getitem parts cursor ≫= py_float;
  y ← py_getitem parts (cursor + 1) ≫= py_float;
  z ← py_getitem parts (cursor + 2) ≫= py_float;
  let cursor := cursor + 3 in
  if length parts =? 20 then
    force ← py_getitem parts cursor ≫= py_float;
    let cursor := cursor + 1 in
    Ok (Continue cursor (updates ++ [(sensor_idx, mkSample x y force z)]))
  else
    let force := norm3 x y z in
    Ok (Continue cursor (updates ++ [(sensor_idx, mkSample x y force z)])).

Fixpoint parse_flat (parts : list string) (sensors : list Z) (cursor : nat)
    (updates : list Update) : Exc (list Update) :=
  match sensors with
  | [] => Ok updates
  | sensor_idx :: rest =>
      step ← try_except (parse_group parts sensor_idx cursor updates)
                        (λ _, Ok Break);
      match step with
      | Continue cursor' updates' => parse_flat parts rest cursor' updates'
      | Break => Ok updates
      end
  end.

(** [range(5)] *)
Definition range5 : list Z := [0; 1; 2; 3; 4]%Z.

Definition _parse_line_multi (text : string) : Exc (list Update) :=
  let updates : list Update := [] in
  let line := strip text in
  if is_empty line then Ok updates
  else
    let low := lower line in
    if contains "x,y,z" low || startswith low "x," then Ok updates
    else if contains "sensor" low then
      parse_segments updates (split_on is_semicolon_or_bar line)
    else
      let parts := comma_parts line in
      if (length parts =? 15) || (length parts =? 20) then
        parse_flat parts range5 0 updates
      else if 3 <=? length parts then
        try_except
          (sample ← parse_xyz_force parts; Ok (updates ++ [(0%Z, sample)]))
          (λ _, Ok [])
      else Ok updates.

(** ** The serial worker *)

Inductive Signal : Type :=
| sampleReceived (idx : Z) (sample : SensorSample)
| statusChanged (text : string)
| finished.

Record SerialWorker : Type := mkWorker {
  _port_name : string;
  _baudrate : Z;
  _running : bool;
  _serial : option Serial;
  _last_update : Q;
  _update_interval : Q;
  _last_by_sensor : gmap Z SensorSample
}.

(** The double that the literal [0.03] denotes, 0x1.eb851eb851eb8p-6,
    which lies just below 3/100. *)
Definition double_0_03 : Q := 1080863910568919 # 36028797018963968.

(** [SerialWorker.__init__].  Times are doubles, read as the rationals they
    are, in seconds; the subtraction [now - self._last_update] is taken
    exact.  It is exact in binary64 when [_last_update] is 0, and when both
    readings are at least 2^-6 s and less than 2^-5 s apart; when they are
    further apart the rounded difference is on the same side of the
    interval as the exact one. *)
Definition SerialWorker_init (port : string) (baudrate : Z) : SerialWorker :=
  {| _port_name := port;
     _baudrate := baudrate;
     _running := false;
     _serial := None;
     _last_update := 0;
     _update_interval := double_0_03;
     _last_by_sensor := ∅ |}.

(** [for idx, sample in updates:] of the dispatch: the cache write and the
    emitted signal of each update, in order. *)
Fixpoint emit_updates (cache : gmap Z SensorSample) (updates : list Update) :
    gmap Z SensorSample * list Signal :=
  match updates with
  | [] => (cache, [])
  | (idx, sample) :: rest =>
      let '(cache', signals) := emit_updates (<[idx := sample]> cache) rest in
      (cache', sampleReceived idx sample :: signals)
  end.

(** The body of [for raw in lines[:-1]:] in [start]; [now] is what
    [time.time()] returns if the line gets that far. *)
Definition process_line (self : SerialWorker) (now : Q) (raw : string) :
    Exc (SerialWorker * list Signal) :=
  let text := strip raw in
  if is_empty text then Ok (self, [])
  else
    updates ← _parse_line_multi text;
    match updates with
    | [] => Ok (self, [])
    | _ :: _ =>
        if Qle_bool (_update_interval self) (now - _last_update self) then
          let '(cache, signals) := emit_updates (_last_by_sensor self) updates in
          Ok ({| _port_name := _port_name self;
                 _baudrate := _baudrate self;
                 _running := _running self;
                 _serial := _serial self;
                 _last_update := now;
                 _update_interval := _update_interval self;
                 _last_by_sensor := cache |}, signals)
        else Ok (self, [])
    end.

(** The whole [for] loop over the completed lines, each with its clock
    reading; the result lists what each line emitted. *)
Fixpoint process_lines (self : SerialWorker) (lines : list (Q * string)) :
    Exc (SerialWorker * list (list Signal)) :=
  match lines with
  | [] => Ok (self, [])
  | (now, raw) :: rest =>
      '(self', signals) ← process_line self now raw;
      '(self'', later) ← process_lines self' rest;
      Ok (self'', signals :: later)
  end.

(** [_cleanup] *)
Definition _cleanup (self : SerialWorker) : IO SerialWorker :=
  io_bind
    (match _serial self with
     | Some port => io_try (serial_close port) (λ _, io_ret ())
     | None => io_ret ()
     end)
    (λ _, io_ret {| _port_name := _port_name self;
                    _baudrate := _baudrate self;
                    _running := _running self;
                    _serial := None;
                    _last_update := _last_update self;
                    _update_interval := _update_interval self;
                    _last_by_sensor := _last_by_sensor self |}).

(** [stop] *)
Definition stop (self : SerialWorker) : IO SerialWorker :=
  let self := {| _port_name := _port_name self;
                 _baudrate := _baudrate self;
                 _running := false;
                 _serial := _serial self;
                 _last_update := _last_update self;
                 _update_interval := _update_interval self;
                 _last_by_sensor := _last_by_sensor self |} in
  _cleanup self.

End Model.

Arguments mkSample {F}.
Arguments x_mm {F}.
Arguments y_mm {F}.
Arguments force_g {F}.
Arguments z_mm {F}.
Arguments mkBuffers {F}.
Arguments buf_x {F}.
Arguments buf_y {F}.
Arguments buf_z {F}.
Arguments mkCurves {F}.
Arguments curve_axis {F}.
Arguments curve_x {F}.
Arguments curve_y {F}.
Arguments curve_z {F}.
Arguments mkTab {F}.
Arguments _window {F}.
Arguments _buffers {F}.
Arguments _index {F}.
Arguments _x_axis {F}.
Arguments _plots {F}.
Arguments TimeSeriesTab_init {F}.
Arguments addSample {F}.
Arguments addSamples {F}.
Arguments axis_val {F}.
Arguments axis_buf {F}.
Arguments axis_curve {F}.
Arguments py_float {F}.
Arguments norm3 {F}.
Arguments parse_xyz_force {F}.
Arguments parse_segment {F}.
Arguments parse_segments {F}.
Arguments Continue {F}.
Arguments Break {F}.
Arguments parse_group {F}.
Arguments parse_flat {F}.
Arguments _parse_line_multi {F}.
Arguments sampleReceived {F}.
Arguments statusChanged {F}.
Arguments finished {F}.
Arguments mkWorker {F}.
Arguments _port_name {F}.
Arguments _baudrate {F}.
Arguments _running {F}.
Arguments _serial {F}.
Arguments _last_update {F}.
Arguments _update_interval {F}.
Arguments _last_by_sensor {F}.
Arguments SerialWorker_init {F}.
Arguments emit_updates {F}.
Arguments process_line {F}.
Arguments process_lines {F}.
Arguments _cleanup {F}.
Arguments stop {F}.

(** ** Vocabulary for the time-series properties *)

Section TimeSeriesVocabulary.
Context {F : Type} (f0 : F).

Definition valid_index (i : Z) : bool := (0 <=? i)%Z && (i <? 5)%Z.

(** The calls that pass the guard of [addSample]. *)
Definition accepted (calls : list (Z * SensorSample F)) : list (Z * SensorSample F) :=
  filter (λ c, valid_index c.1 = true) calls.

(** Shape of every tab reachable from [TimeSeriesTab_init]. *)
Record tab_wf (st : TimeSeriesTab F) : Prop := {
  wf_window : 0 < _window st;
  wf_buffers : length (_buffers st) = 5;
  wf_plots : length (_plots st) = 5;
  wf_axis : ∀ t b ax, _buffers st !! t = Some b →
              length (axis_buf ax b) = _window st
}.

(** The buffers and curves [addSample] leaves behind for the sensor it
    was called on. *)
Definition written (st : TimeSeriesTab F) (s : SensorSample F) (b : AxisBuffers F) :
    AxisBuffers F :=
  let idx := _index st mod _window st in
  mkBuffers (<[idx := x_mm s]> (buf_x b)) (<[idx := y_mm s]> (buf_y b))
            (<[idx := z_mm s]> (buf_z b)).

Definition plotted (st : TimeSeriesTab F) (b : AxisBuffers F) : PlotCurves F :=
  let shift := (_index st mod _window st + 1) mod _window st in
  mkCurves (_x_axis st) (rotate shift (buf_x b)) (rotate shift (buf_y b))
           (rotate shift (buf_z b)).

(** What the buffers hold after the accepted calls [h] made on the
    initial tab: slots the cursor has not reached are still zero, and a call
    made within the last [_window] steps is still in the slot of its step. *)
Record tab_inv (st : TimeSeriesTab F) (h : list (Z * SensorSample F)) : Prop := {
  inv_wf : tab_wf st;
  inv_window : _window st = 800;
  inv_index : _index st = length h;
  inv_fresh : ∀ (t : nat) b ax (p : nat), _buffers st !! t = Some b →
      length h ≤ p → p < _window st → axis_buf ax b !! p = Some f0;
  inv_recent : ∀ (t : nat) b ax (m : nat) a, _buffers st !! t = Some b →
      h !! m = Some (Z.of_nat t, a) → length h ≤ m + _window st →
      axis_buf ax b !! (m mod _window st) = Some (axis_val ax a)
}.


(** The read-out the specification describes: the last [W] values of the
    sensor's own appends in the order they were made, with zeros in front
    while fewer than [W] have been made. *)
Definition chronological (W : nat) (vals : list F) : list F :=
  drop (length vals) (replicate W f0 ++ vals).

(** The samples the calls hand to sensor [s], in call order. *)
Definition samples_of (s : Z) (calls : list (Z * SensorSample F)) : list (SensorSample F) :=
  snd <$> filter (λ c, c.1 = s) calls.

End TimeSeriesVocabulary.

(** ** Vocabulary for the parser properties *)

Section ParserVocabulary.
Context {F : Type} (fadd fmul : F → F → F) (fsqrt : F → F).

(** The test of the header branch and of the labeled branch, on a line. *)
Definition is_header (text : string) : bool :=
  let low := lower (strip text) in
  contains "x,y,z" low || startswith low "x,".

Definition is_labeled (text : string) : bool :=
  contains "sensor" (lower (strip text)).

(** The segment matches the label pattern with a number of more digits
    than [int] accepts. *)
Definition long_number (seg : string) : bool :=
  match re_match_sensor (strip seg) with
  | Some (g1, _) => negb (Z.of_nat (String.length g1) <=? int_max_str_digits)%Z
  | None => false
  end.

(** The line takes the labeled branch and one of its segments has such a
    number. *)
Definition has_long_number (text : string) : bool :=
  negb (is_header text) && is_labeled text &&
  existsb long_number (split_on is_semicolon_or_bar (strip text)).

Definition index_in_range (u : Z * SensorSample F) : Prop := (0 ≤ u.1 ≤ 4)%Z.

(** [fs1] fails wherever [fs2] fails, and agrees with it elsewhere. *)
Definition fails_more (fs1 fs2 : string → option F) : Prop :=
  ∀ s v, fs1 s = Some v → fs2 s = Some v.

(** Values taken three at a time as (x, y, z), the force derived. *)
Fixpoint samples3 (vals : list F) : list (SensorSample F) :=
  match vals with
  | x :: y :: z :: rest =>
      mkSample x y (norm3 fadd fmul fsqrt x y z) z :: samples3 rest
  | _ => []
  end.

(** Values taken four at a time as (x, y, z, force). *)
Fixpoint samples4 (vals : list F) : list (SensorSample F) :=
  match vals with
  | x :: y :: z :: force :: rest => mkSample x y force z :: samples4 rest
  | _ => []
  end.

End ParserVocabulary.

(** ** Vocabulary for the dispatch properties *)

Section WorkerVocabulary.
Context {F : Type}.

(** The signals of a line that is forwarded: one per update, in order. *)
Definition signals_of (updates : list (Z * SensorSample F)) : list (Signal F) :=
  (λ u, sampleReceived u.1 u.2) <$> updates.

(** The worker after a line's updates were forwarded at time [now]. *)
Definition forwarded (self : SerialWorker F) (now : Q)
    (updates : list (Z * SensorSample F)) : SerialWorker F :=
  {| _port_name := _port_name self;
     _baudrate := _baudrate self;
     _running := _running self;
     _serial := _serial self;
     _last_update := now;
     _update_interval := _update_interval self;
     _last_by_sensor := (emit_updates (_last_by_sensor self) updates).1 |}.

(** The clock readings of the lines that emitted something. *)
Fixpoint forwarded_times (lines : list (Q * string))
    (emitted : list (list (Signal F))) : list Q :=
  match lines, emitted with
  | (now, _) :: lines', signals :: emitted' =>
      match signals with
      | [] => forwarded_times lines' emitted'
      | _ :: _ => now :: forwarded_times lines' emitted'
      end
  | _, _ => []
  end.

(** Every reading is at least [interval] after the one before it, the
    first one after [last]. *)
Fixpoint spaced (interval last : Q) (times : list Q) : Prop :=
  match times with
  | [] => True
  | t :: times' => (interval <= t - last)%Q ∧ spaced interval t times'
  end.

End WorkerVocabulary.

(** ** A binary64 instance of the float operations

    [PF_float_of_str] reads plain decimal literals: an optional sign, digits,
    an optional point and more digits, at least one digit in all.  When the
    digits make an integer below 2^53 and at most 22 of them follow the
    point, the literal is the quotient of two exactly represented integers,
    and the one rounding of the division gives the correctly rounded value,
    as [float] does.  Everything else is refused here, although [float]
    reads more (exponents, [inf], [nan], underscores, longer literals);
    the theorems below hold for every [float_of_str], and only their
    instances at concrete lines use this one. *)

Fixpoint pow10 (k : nat) : float :=
  match k with
  | O => 1%float
  | S k' => PrimFloat.mul 10%float (pow10 k')
  end.

Definition float_of_Z (m : Z) : float := PrimFloat.of_uint63 (Uint63.of_Z m).

Definition PF_float_of_str (s : string) : option float :=
  let '(neg, body) :=
    match s with
    | String c r =>
        if Ascii.eqb c "-" then (true, r)
        else if Ascii.eqb c "+" then (false, r)
        else (false, s)
    | EmptyString => (false, s)
    end in
  let '(ip, r1) := span_digits body in
  let '(fp, r2) :=
    match r1 with
    | String c r => if Ascii.eqb c "." then span_digits r else (EmptyString, r1)
    | EmptyString => (EmptyString, r1)
    end in
  if is_empty r2 && negb (is_empty ip && is_empty fp) then
    match digits_value 0 (ip ++ fp) with
    | Some m =>
        if (m <? 2 ^ 53)%Z && (String.length fp <=? 22) then
          let v := PrimFloat.div (float_of_Z m) (pow10 (String.length fp)) in
          Some (if neg then PrimFloat.opp v else v)
        else None
    | None => None
    end
  else None.

Definition PF_norm3 : float → float → float → float :=
  norm3 PrimFloat.add PrimFloat.mul PrimFloat.sqrt.

Definition PF_parse : string → Exc (list (Z * SensorSample float)) :=
  _parse_line_multi PrimFloat.add PrimFloat.mul PrimFloat.sqrt PF_float_of_str.

(** Sample data for the instances: the [i]-th reading of a ramp. *)
Definition PF_sample (i : nat) : SensorSample float :=
  let v := float_of_Z (Z.of_nat i) in
  mkSample v (PrimFloat.opp v) v (PrimFloat.mul 2%float v).

(** 800 appends to sensor 0, one to sensor 1, one more to sensor 0. *)
Definition interleaved_calls : list (Z * SensorSample float) :=
  (pair 0%Z <$> (PF_sample <$> seq 1 800))
    ++ [(1%Z, PF_sample 801); (0%Z, PF_sample 802)].

(** The double nearest to -3.2. *)
Definition PF_minus_3_2 : float := (-0x1.999999999999ap+1)%float.

(** A conversion that fails on the token [4] and is [PF_float_of_str]
    elsewhere. *)
Definition PF_float_but_4 (s : string) : option float :=
  if String.eqb s "4" then None else PF_float_of_str s.

Definition PF_worker : SerialWorker float := SerialWorker_init "/dev/ttyACM0" 115200.

Definition PF_process_lines :=
  process_lines PrimFloat.add PrimFloat.mul PrimFloat.sqrt PF_float_of_str.


(** ** A line with a long sensor number *)

Fixpoint repeat_char (c : ascii) (n : nat) : string :=
  match n with
  | O => EmptyString
  | S n' => String c (repeat_char c n')
  end.

(** The labeled line whose sensor number is the digit 1 written [n]
    times. *)
Definition long_number_line (n : nat) : string :=
  ("Sensor " ++ repeat_char "1" n ++ ": 1,2,3")%string.
(** ** Calls in rounds

    A flat-CSV line gives one update per sensor, in the order 0 to 4, and
    [_onSample] hands them to [addSample] in that order: one round. *)

Definition round_calls {F} (rounds : list (list (SensorSample F))) :
    list (Z * SensorSample F) :=
  concat (zip range5 <$> rounds).

(** ** Vocabulary for more parser properties *)

(** Some character of the text is in the class. *)
Fixpoint has_char (p : ascii → bool) (s : string) : bool :=
  match s with
  | EmptyString => false
  | String c s' => p c || has_char p s'
  end.

(** The text consists of blanks only. *)
Definition all_space (s : string) : bool :=
  negb (has_char (λ c, negb (isspace c)) s).

(** The text consists of decimal digits only. *)
Definition all_digits (s : string) : bool :=
  negb (has_char (λ c, negb (isdigit c)) s).

(** ** The read loop of [SerialWorker.start]

    What the device and the clock do is given from outside: the result of
    opening the port, of [reset_input_buffer], of each
    [read(512).decode('utf-8', errors='ignore')] (the text that [decode]
    returns for the bytes of that read, or the exception raised) and the
    clock reading of each [time.time()] call, numbered from 0.  The bytes
    themselves are not modelled: a read that ends inside a multi-byte
    character makes [decode] drop that character, so the texts of the
    chunks, not the bytes on the wire, are what the loop sees.  Chunks are
    text over the code points below U+0100.  The worker runs alone: no
    other thread touches [_running] or [_serial] meanwhile. *)

Section StartModel.
Context {F : Type} (fadd fmul : F → F → F) (fsqrt : F → F).
Context (float_of_str : string → option F).
Context (str_of_exn : exn → string).
Context (clock : nat → Q).

(** The local state of [start] while it loops: the worker, the text
    buffer, the number of clock readings taken and the signals emitted. *)
Record LoopState : Type := mkLoop {
  ls_self : SerialWorker F;
  ls_buffer : string;
  ls_ticks : nat;
  ls_signals : list (Signal F)
}.

(** Whether a line gets as far as the call of [time.time()]. *)
Definition reads_clock (raw : string) : bool :=
  if is_empty (strip raw) then false
  else match _parse_line_multi fadd fmul fsqrt float_of_str (strip raw) with
       | Ok (_ :: _) => true
       | _ => false
       end.

(** [for raw in lines[:-1]:], up to the first exception. *)
Fixpoint dispatch (st : LoopState) (lines : list string) : LoopState * option exn :=
  match lines with
  | [] => (st, None)
  | raw :: rest =>
      match process_line fadd fmul fsqrt float_of_str (ls_self st)
              (clock (ls_ticks st)) raw with
      | Ok (self', signals) =>
          dispatch (mkLoop self' (ls_buffer st)
                      (if reads_clock raw then S (ls_ticks st) else ls_ticks st)
                      (ls_signals st ++ signals)) rest
      | Raise e => (st, Some e)
      end
  end.

Definition read_error (st : LoopState) (e : exn) : LoopState :=
  mkLoop (ls_self st) (ls_buffer st) (ls_ticks st)
         (ls_signals st ++ [statusChanged ("Serial read error: " ++ str_of_exn e)]).

(** One round of [while self._running:] for one result of [read]; the
    boolean tells whether the round ends in [break]. *)
Definition iteration (st : LoopState) (r : Exc string) : LoopState * bool :=
  match r with
  | Raise e => (read_error st e, true)
  | Ok chunk =>
      if is_empty chunk then (st, false)
      else
        let buffer := (ls_buffer st ++ chunk)%string in
        let lines := split_on is_newline buffer in
        let buffer := default "" (last lines) in
        match dispatch (mkLoop (ls_self st) buffer (ls_ticks st) (ls_signals st))
                       (removelast lines) with
        | (st', None) => (st', false)
        | (st', Some e) => (read_error st' e, true)
        end
  end.

(** The loop over the results of the successive reads; the boolean tells
    whether the loop was left, [false] meaning it waits for the next read. *)
Fixpoint read_loop (st : LoopState) (reads : list (Exc string)) : LoopState * bool :=
  if negb (_running (ls_self st)) then (st, true)
  else
    match reads with
    | [] => (st, false)
    | r :: rest =>
        match iteration st r with
        | (st', true) => (st', true)
        | (st', false) => read_loop st' rest
        end
    end.

Record StartOutcome : Type := mkOutcome {
  out_self : SerialWorker F;
  out_signals : list (Signal F);
  out_returned : bool
}.

Definition set_running (self : SerialWorker F) (b : bool) : SerialWorker F :=
  {| _port_name := _port_name self;
     _baudrate := _baudrate self;
     _running := b;
     _serial := _serial self;
     _last_update := _last_update self;
     _update_interval := _update_interval self;
     _last_by_sensor := _last_by_sensor self |}.

Definition set_serial (self : SerialWorker F) (port : option Serial) : SerialWorker F :=
  {| _port_name := _port_name self;
     _baudrate := _baudrate self;
     _running := _running self;
     _serial := port;
     _last_update := _last_update self;
     _update_interval := _update_interval self;
     _last_by_sensor := _last_by_sensor self |}.

(** [start] *)
Definition start (self : SerialWorker F) (opened : Exc Serial)
    (reset : Exc unit) (reads : list (Exc string)) : IO StartOutcome :=
  let self := set_running self true in
  let failed (self : SerialWorker F) (e : exn) : IO StartOutcome :=
    io_ret (mkOutcome (set_running self false)
              [statusChanged ("ERROR: Could not open " ++ _port_name self
                                ++ ": " ++ str_of_exn e);
               finished]
              true) in
  match opened with
  | Raise e => failed self e
  | Ok port =>
      let self := set_serial self (Some port) in
      match reset with
      | Raise e => failed self e
      | Ok _ =>
          let connected := statusChanged ("Connected to " ++ _port_name self) in
          match read_loop (mkLoop self "" 0 [connected]) reads with
          | (st, false) => io_ret (mkOutcome (ls_self st) (ls_signals st) false)
          | (st, true) =>
              io_bind (_cleanup (ls_self st))
                (λ self', io_ret (mkOutcome self' (ls_signals st ++ [finished]) true))
          end
      end
  end.

End StartModel.

(** ** The widgets and the main window

    Painting is left out: the widgets are their stored samples. *)

(** The position [l[i]] refers to: a negative [i] counts from the end;
    [IndexError] outside the list. *)
Definition py_index {A} (l : list A) (i : Z) : Exc nat :=
  let n := Z.of_nat (length l) in
  let j := if (i <? 0)%Z then (i + n)%Z else i in
  if (0 <=? j)%Z && (j <? n)%Z then Ok (Z.to_nat j) else Raise IndexError.

Section Widgets.
Context {F : Type} (f0 : F).

Record HandOverlayWidget : Type := mkHand {
  _finger_states : list (SensorSample F)
}.

Definition HandOverlayWidget_init : HandOverlayWidget :=
  mkHand (replicate 5 (mkSample f0 f0 f0 f0)).

Definition setFingerSample (self : HandOverlayWidget) (finger_index : Z)
    (sample : SensorSample F) : Exc HandOverlayWidget :=
  if (0 <=? finger_index)%Z && (finger_index <? 5)%Z then
    states ← py_setitem (_finger_states self) (Z.to_nat finger_index) sample;
    Ok (mkHand states)
  else Ok self.

Record CircleArrowPanel : Type := mkPanel {
  _state : SensorSample F
}.

Definition CircleArrowPanel_init : CircleArrowPanel :=
  mkPanel (mkSample f0 f0 f0 f0).

Definition setSample (self : CircleArrowPanel) (sample : SensorSample F) :
    CircleArrowPanel :=
  mkPanel sample.

Record MainWindow : Type := mkWindow {
  _hand : HandOverlayWidget;
  _panels : list CircleArrowPanel;
  _timeSeries : TimeSeriesTab F
}.

Definition MainWindow_init : MainWindow :=
  {| _hand := HandOverlayWidget_init;
     _panels := replicate 5 CircleArrowPanel_init;
     _timeSeries := TimeSeriesTab_init f0 |}.

(** [_onSample] *)
Definition _onSample (self : MainWindow) (sensor_index : Z)
    (sample : SensorSample F) : Exc MainWindow :=
  hand ← setFingerSample (_hand self) sensor_index sample;
  k ← py_index (_panels self) sensor_index;
  panel ← py_getitem (_panels self) k;
  let panels := <[k := setSample panel sample]> (_panels self) in
  tab ← addSample (_timeSeries self) sensor_index sample;
  Ok {| _hand := hand; _panels := panels; _timeSeries := tab |}.

(** The signals of the worker delivered in order. *)
Fixpoint onSamples (self : MainWindow) (updates : list (Z * SensorSample F)) :
    Exc MainWindow :=
  match updates with
  | [] => Ok self
  | (i, s) :: rest => self' ← _onSample self i s; onSamples self' rest
  end.

End Widgets.

(** ** The graphics helpers on binary64 *)

(** [max(a, b)] and [min(a, b)] of two floats: the second argument wins
    only when it is strictly greater, or strictly less. *)
Definition py_max2 (a b : float) : float := if PrimFloat.ltb a b then b else a.
Definition py_min2 (a b : float) : float := if PrimFloat.ltb b a then b else a.

(** [clamp] *)
Definition clamp (value min_value max_value : float) : float :=
  py_max2 min_value (py_min2 max_value value).

(** Vocabulary: the cache [c1] is [c0] overwritten by the signals
    [signals], the last one for each sensor winning. *)
Definition latest {F} (signals : list (Signal F))
    (c0 c1 : gmap Z (SensorSample F)) : Prop :=
  ∀ i : Z,
    ((∀ (k : nat) s, signals !! k ≠ Some (sampleReceived i s)) → c1 !! i = c0 !! i) ∧
    (∀ (k : nat) s, signals !! k = Some (sampleReceived i s) →
       (∀ (k' : nat) s', k < k' → signals !! k' ≠ Some (sampleReceived i s')) →
       c1 !! i = Some s).

(** The chunks put end to end. *)
Definition join_chunks (chunks : list string) : string :=
  foldr String.append EmptyString chunks.

(** [lines[:-1]] of [text.split('\n')]: the lines of a text that a line
    feed completes. *)
Definition complete_lines (text : string) : list string :=
  removelast (split_on is_newline text).

(** The chunks of the reads that returned. *)
Fixpoint read_chunks (reads : list (Exc string)) : list string :=
  match reads with
  | [] => []
  | Ok chunk :: rest => chunk :: read_chunks rest
  | Raise _ :: rest => read_chunks rest
  end.


(** ** Sample data for the instances of the read loop and the window *)

(** A clock that starts at one second and advances by one second at each
    reading. *)
Definition PF_clock (n : nat) : Q := Z.of_nat (S n) # 1.

Definition PF_str_of_exn (e : exn) : string := "error".

Definition line_feed : string := String "010"%char EmptyString.
Definition carriage_return : string := String "013"%char EmptyString.

(** The worker once [start] has set [_running]. *)
Definition PF_running_worker : SerialWorker float := set_running PF_worker true.

Definition PF_read_loop :=
  read_loop PrimFloat.add PrimFloat.mul PrimFloat.sqrt PF_float_of_str
    PF_str_of_exn PF_clock.
(** ** Facts about the time-series tab *)

Lemma bind_Ok {A B} (a : A) (f : A → Exc B) : (Ok a ≫= f) = f a.
Proof. reflexivity. Qed.

Lemma np_roll_neg {A} (a : list A) (shift : nat) :
  np_roll a (- Z.of_nat shift) = rotate shift a.
Proof.
  unfold np_roll, rotate. rewrite Z.opp_involutive.
  destruct a as [|x a']; [by rewrite !drop_nil, !take_nil|].
  rewrite <- Nat2Z.inj_mod, Nat2Z.id.
  by rewrite Nat.Div0.mod_mod.
Qed.

Lemma lookup_rotate_mod {A} (l : list A) (n j : nat) :
  j < length l → rotate n l !! j = l !! ((n + j) mod length l).
Proof.
  intros Hj. rewrite lookup_rotate_r by done.
  f_equal. unfold rotate_nat_add.
  rewrite <- Nat2Z.inj_add, <- Nat2Z.inj_mod. apply Nat2Z.id.
Qed.

Lemma mod_close_ne (W m n : nat) :
  m < n → n < m + W → m mod W ≠ n mod W.
Proof.
  intros Hmn Hn E.
  assert (HW : W ≠ 0) by lia.
  pose proof (Nat.div_mod_eq m W) as Em.
  pose proof (Nat.div_mod_eq n W) as En.
  rewrite E in Em.
  assert (m `div` W < n `div` W) by nia.
  nia.
Qed.

Section TimeSeries.
Context {F : Type} (f0 : F).

Lemma addSample_valid (st : TimeSeriesTab F) (i : Z) (s : SensorSample F) b :
  tab_wf st → valid_index i = true → _buffers st !! Z.to_nat i = Some b →
  addSample st i s =
    Ok (mkTab (_window st) (<[Z.to_nat i := written st s b]> (_buffers st))
              (S (_index st)) (_x_axis st)
              (<[Z.to_nat i := plotted st (written st s b)]> (_plots st))).
Proof.
  intros [HW Hb Hp Hax] Hi Hl. unfold addSample, valid_index in *.
  rewrite Hi. cbn [negb].
  assert (is_Some (_plots st !! Z.to_nat i)) as [c Hc].
  { apply lookup_lt_is_Some. apply lookup_lt_Some in Hl. lia. }
  pose proof (Nat.mod_upper_bound (_index st) (_window st) ltac:(lia)) as Hidx.
  unfold py_getitem, py_mod, py_setitem.
  rewrite Hl, Hc, bind_Ok.
  pose proof (Hax _ _ AxX Hl) as Hx. pose proof (Hax _ _ AxY Hl) as Hy.
  pose proof (Hax _ _ AxZ Hl) as Hz. cbn [axis_buf] in Hx, Hy, Hz.
  rewrite Hx, Hy, Hz.
  repeat first [ rewrite bind_Ok; cbv beta
               | rewrite decide_True by lia
               | rewrite decide_False by lia ].
  rewrite !np_roll_neg. reflexivity.
Qed.

Lemma addSample_invalid (st : TimeSeriesTab F) (i : Z) (s : SensorSample F) :
  valid_index i = false → addSample st i s = Ok st.
Proof. intros Hi. unfold addSample, valid_index in *. by rewrite Hi. Qed.

Lemma addSamples_snoc (st : TimeSeriesTab F) calls c :
  addSamples st (calls ++ [c]) =
    (st' ← addSamples st calls; addSample st' c.1 c.2).
Proof.
  revert st. induction calls as [|[i s] calls IH]; intros st; simpl.
  - destruct c as [i s]. simpl. by destruct (addSample st i s).
  - destruct (addSample st i s) as [st'|e]; simpl; [apply IH|done].
Qed.

Lemma addSamples_accepted (st : TimeSeriesTab F) calls :
  addSamples st calls = addSamples st (accepted calls).
Proof.
  revert st. induction calls as [|[i s] calls IH]; intros st; [done|].
  unfold accepted. rewrite filter_cons. simpl.
  destruct (valid_index i) eqn:Hi.
  - rewrite decide_True by done. simpl.
    destruct (addSample st i s); simpl; [apply IH|done].
  - rewrite decide_False by done. rewrite addSample_invalid by done.
    simpl. apply IH.
Qed.

Lemma tab_wf_init : tab_wf (TimeSeriesTab_init f0).
Proof.
  split; unfold TimeSeriesTab_init; cbn [_window _buffers _plots].
  - lia.
  - apply length_replicate.
  - apply length_replicate.
  - intros t b ax [-> _]%lookup_replicate.
    destruct ax; apply length_replicate.
Qed.

Lemma tab_inv_init : tab_inv f0 (TimeSeriesTab_init f0) [].
Proof.
  split.
  - apply tab_wf_init.
  - done.
  - done.
  - unfold TimeSeriesTab_init; cbn [_window _buffers].
    intros t b ax p [-> _]%lookup_replicate _ Hp.
    destruct ax; by apply lookup_replicate_2.
  - intros t b ax m a _ Hm. by rewrite lookup_nil in Hm.
Qed.

Lemma axis_buf_written (st : TimeSeriesTab F) s b ax :
  axis_buf ax (written st s b) =
    <[_index st mod _window st := axis_val ax s]> (axis_buf ax b).
Proof. by destruct ax. Qed.

Lemma axis_curve_plotted (st : TimeSeriesTab F) b ax :
  axis_curve ax (plotted st b) =
    rotate ((_index st mod _window st + 1) mod _window st) (axis_buf ax b).
Proof. by destruct ax. Qed.

Lemma tab_inv_step (st : TimeSeriesTab F) h i s b :
  tab_inv f0 st h → valid_index i = true → _buffers st !! Z.to_nat i = Some b →
  tab_inv f0 (mkTab (_window st) (<[Z.to_nat i := written st s b]> (_buffers st))
                 (S (_index st)) (_x_axis st)
                 (<[Z.to_nat i := plotted st (written st s b)]> (_plots st)))
          (h ++ [(i, s)]).
Proof.
  intros [Hwf Hwin Hidx Hfresh Hrecent] Hi Hb.
  pose proof Hwf as [HW Hlb Hlp Hax].
  assert (Hi' : Z.of_nat (Z.to_nat i) = i).
  { unfold valid_index in Hi. apply andb_prop in Hi as [?%Z.leb_le _]. lia. }
  pose proof (Nat.mod_upper_bound (length h) (_window st) ltac:(lia)) as Hlt.
  split; simpl.
  - split; simpl; [done|by rewrite length_insert..|].
    intros t b' ax Ht. destruct (decide (t = Z.to_nat i)) as [->|Hne].
    + rewrite list_lookup_insert_eq in Ht by (by eapply lookup_lt_Some).
      injection Ht as <-. rewrite axis_buf_written, length_insert. eauto.
    + rewrite list_lookup_insert_ne in Ht by done. eauto.
  - done.
  - rewrite length_app. simpl. lia.
  - intros t b' ax p Ht Hp HpW. rewrite length_app in Hp. simpl in Hp.
    destruct (decide (t = Z.to_nat i)) as [->|Hne].
    + rewrite list_lookup_insert_eq in Ht by (by eapply lookup_lt_Some).
      injection Ht as <-. rewrite axis_buf_written, Hidx.
      rewrite list_lookup_insert_ne.
      * eapply Hfresh; [done|lia|done].
      * rewrite Nat.mod_small by lia. lia.
    + rewrite list_lookup_insert_ne in Ht by done.
      eapply Hfresh; [done|lia|done].
  - intros t b' ax m a Ht Hm Hle. rewrite length_app in Hle. simpl in Hle.
    destruct (decide (m = length h)) as [->|Hmn].
    + rewrite lookup_app_r, Nat.sub_diag in Hm by lia. simpl in Hm.
      injection Hm as Ei ->. subst i. rewrite Nat2Z.id in *.
      rewrite list_lookup_insert_eq in Ht by (by eapply lookup_lt_Some).
      injection Ht as <-. rewrite axis_buf_written, Hidx.
      apply list_lookup_insert_eq. by rewrite (Hax _ _ ax Hb).
    + assert (m < length h).
      { apply lookup_lt_Some in Hm. rewrite length_app in Hm. simpl in Hm. lia. }
      rewrite lookup_app_l in Hm by done.
      destruct (decide (t = Z.to_nat i)) as [->|Hne].
      * rewrite list_lookup_insert_eq in Ht by (by eapply lookup_lt_Some).
        injection Ht as <-. rewrite axis_buf_written, Hidx.
        rewrite list_lookup_insert_ne by (apply not_eq_sym, mod_close_ne; lia).
        eapply Hrecent; [done|done|lia].
      * rewrite list_lookup_insert_ne in Ht by done.
        eapply Hrecent; [done|done|lia].
Qed.

Lemma addSamples_inv (h : list (Z * SensorSample F)) :
  Forall (λ c, valid_index c.1 = true) h →
  ∃ st, addSamples (TimeSeriesTab_init f0) h = Ok st ∧ tab_inv f0 st h.
Proof.
  induction h as [|[i s] h IH] using rev_ind; intros Hall.
  - exists (TimeSeriesTab_init f0). split; [done|apply tab_inv_init].
  - apply Forall_app in Hall as [Hh Hc]. rewrite Forall_singleton in Hc.
    destruct (IH Hh) as (st & Hrun & Hinv). simpl in Hc.
    assert (is_Some (_buffers st !! Z.to_nat i)) as [b Hb].
    { apply lookup_lt_is_Some. rewrite (wf_buffers _ (inv_wf f0 _ _ Hinv)).
      unfold valid_index in Hc. apply andb_prop in Hc as [_ ?%Z.ltb_lt]. lia. }
    eexists. split.
    + rewrite addSamples_snoc, Hrun, bind_Ok. simpl.
      by apply addSample_valid; [apply Hinv|..].
    + by apply tab_inv_step.
Qed.

Lemma accepted_valid (calls : list (Z * SensorSample F)) : Forall (λ c, valid_index c.1 = true) (accepted calls).
Proof.
  apply Forall_forall. intros c Hc.
  by apply list_elem_of_filter in Hc as [? _].
Qed.

(** The curves published by the last of a sequence of accepted calls. *)
Lemma last_view (h : list (Z * SensorSample F)) (s : Z) (a : SensorSample F) :
  Forall (λ c, valid_index c.1 = true) h → valid_index s = true →
  ∃ st cv,
    addSamples (TimeSeriesTab_init f0) (h ++ [(s, a)]) = Ok st ∧
    _plots st !! Z.to_nat s = Some cv ∧
    ∀ ax,
      length (axis_curve ax cv) = 800 ∧
      (∀ j : nat, length h + 1 + j < 800 → axis_curve ax cv !! j = Some f0) ∧
      (∀ (j m : nat) b, j < 800 → m + 799 = length h + j →
         (h ++ [(s, a)]) !! m = Some (s, b) →
         axis_curve ax cv !! j = Some (axis_val ax b)).
Proof.
  intros Hh Hs.
  destruct (addSamples_inv h Hh) as (st0 & Hrun & Hinv).
  pose proof (inv_wf f0 _ _ Hinv) as Hwf.
  assert (Hs' : Z.of_nat (Z.to_nat s) = s ∧ Z.to_nat s < 5).
  { unfold valid_index in Hs.
    apply andb_prop in Hs as [?%Z.leb_le ?%Z.ltb_lt]. lia. }
  destruct Hs' as [Hs' Hlt].
  assert (is_Some (_buffers st0 !! Z.to_nat s)) as [b Hb].
  { apply lookup_lt_is_Some. by rewrite (wf_buffers _ Hwf). }
  pose proof (tab_inv_step st0 h s a b Hinv Hs Hb) as Hinv1.
  set (st1 := mkTab _ _ _ _ _) in Hinv1.
  exists st1, (plotted st0 (written st0 a b)). split; [|split].
  - rewrite addSamples_snoc, Hrun, bind_Ok. by apply addSample_valid.
  - apply list_lookup_insert_eq. by rewrite (wf_plots _ Hwf).
  - intros ax.
    assert (Hb1 : _buffers st1 !! Z.to_nat s = Some (written st0 a b)).
    { apply list_lookup_insert_eq. by rewrite (wf_buffers _ Hwf). }
    pose proof (wf_axis _ (inv_wf f0 _ _ Hinv1) _ _ ax Hb1) as Hlen.
    pose proof (inv_window f0 _ _ Hinv) as HW.
    change (_window st1) with (_window st0) in Hlen. rewrite HW in Hlen.
    rewrite axis_curve_plotted, (inv_index f0 _ _ Hinv), HW.
    assert (Hlook : ∀ j : nat, j < 800 →
      rotate ((length h mod 800 + 1) mod 800) (axis_buf ax (written st0 a b)) !! j
      = axis_buf ax (written st0 a b) !! ((length h + 1 + j) mod 800)).
    { intros j Hj. rewrite lookup_rotate_mod by lia. rewrite Hlen.
      f_equal. rewrite Nat.Div0.add_mod_idemp_l.
      rewrite <- Nat.add_assoc, Nat.Div0.add_mod_idemp_l. f_equal. lia. }
    split; [by rewrite length_rotate|split].
    + intros j Hj. rewrite Hlook by lia. rewrite Nat.mod_small by lia.
      eapply (inv_fresh f0 _ _ Hinv1); [done| |].
      * rewrite length_app. simpl. lia.
      * change (_window st1) with (_window st0). lia.
    + intros j m b' Hj Hm Hlk. rewrite Hlook by lia.
      replace (length h + 1 + j) with (m + 1 * 800) by lia.
      rewrite Nat.Div0.mod_add.
      pose proof (inv_recent f0 _ _ Hinv1 (Z.to_nat s) _ ax m b' Hb1) as Hr.
      rewrite Hs' in Hr. change (_window st1) with (_window st0) in Hr.
      rewrite HW in Hr. apply Hr; [done|].
      rewrite length_app. simpl. lia.
Qed.

(** When every call goes to one sensor, the published curves are the last
    800 values of zeros followed by the appended values. *)
Lemma single_sensor_view (s : Z) (vs : list (SensorSample F)) (a : SensorSample F) :
  valid_index s = true →
  ∃ st cv,
    addSamples (TimeSeriesTab_init f0) (pair s <$> (vs ++ [a])) = Ok st ∧
    _plots st !! Z.to_nat s = Some cv ∧
    ∀ ax, axis_curve ax cv = chronological f0 800 (axis_val ax <$> (vs ++ [a])).
Proof.
  intros Hs.
  destruct (last_view (pair s <$> vs) s a) as (st & cv & Hrun & Hcv & Hview).
  { apply Forall_fmap, Forall_forall. by intros. }
  { done. }
  exists st, cv. rewrite fmap_app. split; [done|split; [done|]].
  intros ax. destruct (Hview ax) as (Hlen & Hzero & Hval).
  rewrite length_fmap in Hzero, Hval.
  unfold chronological. apply list_eq. intros j.
  rewrite lookup_drop, length_fmap, length_app.
  change (length [a]) with 1.
  destruct (decide (j < 800)) as [Hj|Hj].
  - destruct (decide (length vs + 1 + j < 800)) as [Hlt|Hge].
    + rewrite Hzero by done. rewrite lookup_app_l by (rewrite length_replicate; lia).
      symmetry. apply lookup_replicate_2. lia.
    + rewrite lookup_app_r by (rewrite length_replicate; lia).
      rewrite length_replicate.
      assert (is_Some ((vs ++ [a]) !! (length vs + 1 + j - 800))) as [b Hb].
      { apply lookup_lt_is_Some. rewrite length_app. change (length [a]) with 1. lia. }
      rewrite list_lookup_fmap, Hb. cbn [fmap option_fmap option_map].
      apply (Hval j (length vs + 1 + j - 800)); [done|lia|].
      change [(s, a)] with (pair s <$> [a]).
      rewrite <- fmap_app, list_lookup_fmap, Hb. done.
  - rewrite (lookup_ge_None_2 (axis_curve ax cv)) by lia.
    symmetry. apply lookup_ge_None_2.
    rewrite length_app, length_replicate, length_fmap, length_app.
    change (length [a]) with 1. lia.
Qed.

End TimeSeries.

(** ** Properties of the time-series tab *)

Lemma accepted_to_one_sensor {F} (s : Z) (calls : list (Z * SensorSample F)) :
  valid_index s = true →
  Forall (λ c, c.1 = s) (accepted calls) →
  accepted calls = pair s <$> samples_of s calls.
Proof.
  intros Hs. unfold accepted, samples_of.
  induction calls as [|[i b] calls IH]; [done|].
  rewrite !filter_cons. simpl.
  destruct (decide (valid_index i = true)) as [Hi|Hi].
  - intros [Hi' Hall]%Forall_cons. simpl in Hi'. subst i.
    rewrite decide_True by done. simpl. f_equal. by apply IH.
  - intros Hall. rewrite decide_False by congruence. by apply IH.
Qed.

(** What the shared cursor makes of the view: every accepted call
    publishes 800 values per axis, ordered by the steps of the shared
    cursor.  With [n] the step of the
    call, index [j] shows the slot of step [n - 799 + j]: a sample the same
    sensor appended at that step is found there, so the sensor's samples of
    the last 800 steps stand in the order they were made with the newest at
    index 799, and an index whose step lies before the first call reads
    zero.  When no accepted call went to another sensor this is the
    chronological read-out. *)
Theorem view_follows_shared_cursor {F} (f0 : F)
    (calls : list (Z * SensorSample F)) (s : Z) (a : SensorSample F) :
  valid_index s = true →
  let steps := accepted calls ++ [(s, a)] in
  ∃ st cv,
    addSamples (TimeSeriesTab_init f0) (calls ++ [(s, a)]) = Ok st ∧
    _plots st !! Z.to_nat s = Some cv ∧
    ∀ ax,
      length (axis_curve ax cv) = 800 ∧
      axis_curve ax cv !! 799 = Some (axis_val ax a) ∧
      (∀ j : nat, length steps + j < 800 → axis_curve ax cv !! j = Some f0) ∧
      (∀ (j m : nat) b, j < 800 → m + 799 = length (accepted calls) + j →
         steps !! m = Some (s, b) →
         axis_curve ax cv !! j = Some (axis_val ax b)) ∧
      (Forall (λ c, c.1 = s) (accepted calls) →
         axis_curve ax cv =
           chronological f0 800 (axis_val ax <$> samples_of s (calls ++ [(s, a)]))).
Proof.
  intros Hs steps.
  destruct (last_view f0 (accepted calls) s a (accepted_valid calls) Hs)
    as (st & cv & Hrun & Hcv & Hview).
  exists st, cv. split; [|split; [done|]].
  - rewrite addSamples_accepted. unfold accepted in *.
    rewrite filter_app, filter_cons, filter_nil.
    by rewrite decide_True by done.
  - intros ax. destruct (Hview ax) as (Hlen & Hzero & Hval).
    split; [done|]. split; [|split; [|split]].
    + apply (Hval 799 (length (accepted calls))); [lia|lia|].
      by rewrite lookup_app_r, Nat.sub_diag by lia.
    + intros j Hj. apply Hzero. subst steps. rewrite length_app in Hj.
      simpl in Hj. lia.
    + done.
    + intros Hall.
      destruct (single_sensor_view f0 s (samples_of s calls) a Hs)
        as (st' & cv' & Hrun' & Hcv' & Hview').
      rewrite fmap_app in Hrun'. simpl in Hrun'.
      rewrite <- (accepted_to_one_sensor s calls Hs Hall) in Hrun'.
      rewrite Hrun in Hrun'. injection Hrun' as <-.
      rewrite Hcv in Hcv'. injection Hcv' as <-.
      rewrite Hview'. f_equal. f_equal. unfold samples_of.
      rewrite filter_app, filter_cons, filter_nil. simpl.
      rewrite decide_True by done. by rewrite fmap_app.
Qed.

(** C2: after [800 + k] appends to one sensor and none to another, the
    published curves are the values appended, without the oldest [k], in
    the order they were appended. *)
Theorem window_keeps_latest {F} (f0 : F) (s : Z) (vs : list (SensorSample F))
    (k : nat) :
  valid_index s = true → length vs = 800 + k →
  ∃ st cv,
    addSamples (TimeSeriesTab_init f0) (pair s <$> vs) = Ok st ∧
    _plots st !! Z.to_nat s = Some cv ∧
    ∀ ax, axis_curve ax cv = drop k (axis_val ax <$> vs).
Proof.
  intros Hs Hlen.
  destruct vs as [|v vs _] using rev_ind; [simpl in Hlen; lia|].
  destruct (single_sensor_view f0 s vs v Hs) as (st & cv & Hrun & Hcv & Hview).
  exists st, cv. split; [done|split; [done|]].
  intros ax. rewrite Hview. unfold chronological.
  rewrite length_fmap, Hlen.
  apply drop_app_add'. by rewrite length_replicate.
Qed.

(** C10: a call with an index outside [0,4] returns the tab as it was:
    no buffer cell is written and the shared index stays. *)
Theorem addSample_out_of_range {F} (self : TimeSeriesTab F) (i : Z)
    (s : SensorSample F) :
  (i < 0 ∨ 5 ≤ i)%Z → addSample self i s = Ok self.
Proof.
  intros Hi. apply addSample_invalid. unfold valid_index.
  destruct (Z.leb_spec 0 i), (Z.ltb_spec i 5); simpl; try done. lia.
Qed.

Lemma view_follows_shared_cursor_witness :
  valid_index 0 = true ∧
  ∃ st cv,
    addSamples (TimeSeriesTab_init 0%float)
      ([(0%Z, PF_sample 1); (9%Z, PF_sample 2); (1%Z, PF_sample 3)]
         ++ [(0%Z, PF_sample 4)]) = Ok st ∧
    _plots st !! 0 = Some cv ∧
    curve_x cv !! 799 = Some (x_mm (PF_sample 4)) ∧
    curve_x cv !! 797 = Some (x_mm (PF_sample 1)) ∧
    curve_x cv !! 0 = Some 0%float.
Proof.
  split; [reflexivity|].
  destruct (view_follows_shared_cursor 0%float
              [(0%Z, PF_sample 1); (9%Z, PF_sample 2); (1%Z, PF_sample 3)]
              0%Z (PF_sample 4) eq_refl) as (st & cv & Hrun & Hcv & Hview).
  exists st, cv. split; [exact Hrun|]. split; [exact Hcv|].
  destruct (Hview AxX) as (_ & Hnew & Hzero & Hval & _).
  split; [exact Hnew|]. split.
  - apply (Hval 797 0 (PF_sample 1)); [lia|reflexivity|reflexivity].
  - apply (Hzero 0). vm_compute. lia.
Defined.

(** C1: the view is not the chronological read-out of the sensor's own
    appends once calls to two sensors interleave.  After 800 appends to
    sensor 0 (samples 1 to 800), one to sensor 1 and one more to sensor 0
    (sample 802), the curve of sensor 0 starts with sample 3, shows the
    oldest sample 1 at index 798, after 798 newer ones, and has lost
    sample 2: [addSample] moves one [_index] for all five sensors, so a
    sensor's newest sample lands on a slot that is not its own oldest. *)
Lemma interleaved_view_not_chronological :
  ∃ st cv,
    addSamples (TimeSeriesTab_init 0%float) interleaved_calls = Ok st ∧
    _plots st !! 0 = Some cv ∧
    curve_x cv !! 0 = Some (x_mm (PF_sample 3)) ∧
    curve_x cv !! 798 = Some (x_mm (PF_sample 1)) ∧
    curve_x cv !! 799 = Some (x_mm (PF_sample 802)) ∧
    curve_x cv ≠
      chronological 0%float 800 (x_mm <$> samples_of 0%Z interleaved_calls).
Proof.
  eexists _, _. split; [vm_compute; reflexivity|].
  split; [vm_compute; reflexivity|].
  split; [vm_compute; reflexivity|].
  split; [vm_compute; reflexivity|].
  split; [vm_compute; reflexivity|].
  intros H.
  apply (f_equal (λ l, match l !! 798 with
                       | Some v => PrimFloat.ltb v 2%float
                       | None => false
                       end)) in H.
  vm_compute in H. discriminate H.
Qed.

Lemma window_keeps_latest_witness :
  valid_index 2 = true ∧ length (PF_sample <$> seq 1 803) = 800 + 3 ∧
  ∃ st cv,
    addSamples (TimeSeriesTab_init 0%float)
      (pair 2%Z <$> (PF_sample <$> seq 1 803)) = Ok st ∧
    _plots st !! Z.to_nat 2 = Some cv ∧
    ∀ ax, axis_curve ax cv = drop 3 (axis_val ax <$> (PF_sample <$> seq 1 803)).
Proof.
  split; [reflexivity|]. split; [reflexivity|].
  apply (window_keeps_latest 0%float 2%Z (PF_sample <$> seq 1 803) 3);
    reflexivity.
Defined.

Lemma addSample_out_of_range_witness :
  (7 < 0 ∨ 5 ≤ 7)%Z ∧
  addSample (TimeSeriesTab_init 0%float) 7 (PF_sample 1)
  = Ok (TimeSeriesTab_init 0%float).
Proof.
  split; [right; lia|]. apply addSample_out_of_range. right. lia.
Defined.

(** ** Facts about the text operations *)

Lemma span_digits_value (s d r : string) (acc : Z) :
  span_digits s = (d, r) → (0 ≤ acc)%Z →
  ∃ n, digits_value acc d = Some n ∧ (0 ≤ n)%Z.
Proof.
  revert d r acc. induction s as [|c s IH]; intros d r acc Hs Hacc; simpl in Hs.
  - injection Hs as <- <-. simpl. eauto.
  - destruct (isdigit c) eqn:Hc.
    + destruct (span_digits s) as [d' r'] eqn:Hs'. injection Hs as <- <-.
      simpl. rewrite Hc. eapply IH; [done|]. lia.
    + injection Hs as <- <-. simpl. eauto.
Qed.

(** The digit group of a match is a run of digits: [int] accepts it unless
    it is too long. *)
Lemma re_match_sensor_int (seg g1 g2 : string) :
  re_match_sensor seg = Some (g1, g2) →
  ∃ n, (0 ≤ n)%Z ∧
       py_int g1 =
         if (Z.of_nat (String.length g1) <=? int_max_str_digits)%Z
         then Ok n else Raise ValueError.
Proof.
  unfold re_match_sensor. intros H.
  destruct (match_ci _ _) as [s1|]; [|done].
  destruct (span_digits (lstrip s1)) as [d s2] eqn:Hd.
  destruct (is_empty d) eqn:He; [done|].
  destruct (lstrip s2) as [|c s3]; [done|].
  destruct (Ascii.eqb c ":"); [|done].
  destruct (match_tail _); [|done].
  injection H as <- <-.
  destruct (span_digits_value _ _ _ 0%Z Hd) as (n & Hn & Hpos); [lia|].
  exists n. split; [done|]. unfold py_int. by rewrite He, Hn.
Qed.

Lemma long_number_int (seg g1 g2 : string) :
  re_match_sensor (strip seg) = Some (g1, g2) →
  if long_number seg then py_int g1 = Raise ValueError
  else ∃ n, (0 ≤ n)%Z ∧ py_int g1 = Ok n.
Proof.
  intros Hm. unfold long_number. rewrite Hm.
  destruct (re_match_sensor_int _ _ _ Hm) as (n & Hn & ->).
  destruct (_ <=? _)%Z; cbn [negb]; [by exists n|done].
Qed.

Lemma comma_parts_empty : comma_parts "" = [].
Proof. reflexivity. Qed.

(** ** Facts about the line parser *)

Section ParserFacts.
Context {F : Type} (fadd fmul : F → F → F) (fsqrt : F → F).

Local Abbreviation parse := (_parse_line_multi fadd fmul fsqrt).
Local Abbreviation xyz_force := (parse_xyz_force fadd fmul fsqrt).
Local Abbreviation segment := (parse_segment fadd fmul fsqrt).
Local Abbreviation segments := (parse_segments fadd fmul fsqrt).
Local Abbreviation group := (parse_group fadd fmul fsqrt).
Local Abbreviation flat := (parse_flat fadd fmul fsqrt).

(** What one labeled segment does: it raises when its number is too long
    for [int]; otherwise it adds nothing, or one update whose index is the
    captured integer clamped into [1,5] and shifted down by one. *)
Lemma parse_segment_cases fs (updates : list (Z * SensorSample F)) (seg : string) :
  if long_number seg then segment fs updates seg = Raise ValueError
  else
    segment fs updates seg = Ok updates ∨
    ∃ g1 g2 n sample,
      re_match_sensor (strip seg) = Some (g1, g2) ∧ py_int g1 = Ok n ∧
      segment fs updates seg =
        Ok (updates ++ [((Z.max 1 (Z.min 5 n) - 1)%Z, sample)]).
Proof.
  unfold parse_segment.
  destruct (is_empty (strip seg)) eqn:He.
  { unfold long_number. destruct (strip seg); [|done]. by left. }
  destruct (re_match_sensor (strip seg)) as [[g1 g2]|] eqn:Hm.
  - pose proof (long_number_int seg g1 g2 Hm) as Hi.
    destruct (long_number seg).
    + by rewrite Hi.
    + destruct Hi as (n & _ & Hn). rewrite Hn, bind_Ok.
      destruct (3 <=? _); [|by left].
      destruct (xyz_force fs _) as [sample|e] eqn:Hs; [|by left].
      right. exists g1, g2, n, sample. by rewrite bind_Ok.
  - unfold long_number. rewrite Hm. by left.
Qed.

Lemma parse_segments_shape fs (updates : list (Z * SensorSample F)) segs :
  if existsb long_number segs then segments fs updates segs = Raise ValueError
  else ∃ more, segments fs updates segs = Ok (updates ++ more) ∧
               Forall index_in_range more.
Proof.
  revert updates. induction segs as [|seg segs IH]; intros updates.
  - exists []. by rewrite app_nil_r.
  - cbn [parse_segments existsb].
    pose proof (parse_segment_cases fs updates seg) as Hc.
    destruct (long_number seg); cbn [orb].
    + by rewrite Hc.
    + destruct Hc as [->|(g1 & g2 & n & sample & _ & _ & ->)]; rewrite bind_Ok.
      * apply IH.
      * specialize (IH (updates ++ [((Z.max 1 (Z.min 5 n) - 1)%Z, sample)])).
        destruct (existsb long_number segs); [done|].
        destruct IH as (more & -> & Hmore).
        eexists (_ :: more). rewrite <- app_assoc. split; [done|].
        constructor; [|done]. unfold index_in_range. simpl. lia.
Qed.

Lemma parse_group_shape fs parts sensor_idx cursor (updates : list (Z * SensorSample F)) step :
  group fs parts sensor_idx cursor updates = Ok step →
  ∃ cursor' sample, step = Continue cursor' (updates ++ [(sensor_idx, sample)]).
Proof.
  unfold parse_group. intros H.
  destruct (py_getitem parts cursor ≫= py_float fs) as [x|]; [|done].
  rewrite bind_Ok in H.
  destruct (py_getitem parts (cursor + 1) ≫= py_float fs) as [y|]; [|done].
  rewrite bind_Ok in H.
  destruct (py_getitem parts (cursor + 2) ≫= py_float fs) as [z|]; [|done].
  rewrite bind_Ok in H.
  destruct (length parts =? 20).
  - destruct (py_getitem parts (cursor + 3) ≫= py_float fs) as [f|]; [|done].
    rewrite bind_Ok in H. injection H as <-. eauto.
  - injection H as <-. eauto.
Qed.

Lemma parse_flat_shape fs parts sensors cursor (updates : list (Z * SensorSample F)) :
  ∃ more, flat fs parts sensors cursor updates = Ok (updates ++ more) ∧
          Forall (λ u, u.1 ∈ sensors) more.
Proof.
  revert cursor updates. induction sensors as [|i sensors IH]; intros cursor updates.
  - exists []. by rewrite app_nil_r.
  - cbn [parse_flat]. unfold try_except.
    destruct (group fs parts i cursor updates) as [step|e] eqn:Hg.
    + apply parse_group_shape in Hg as (cursor' & sample & ->).
      rewrite bind_Ok.
      destruct (IH cursor' (updates ++ [(i, sample)])) as (more & -> & Hmore).
      exists ((i, sample) :: more). rewrite <- app_assoc. split; [done|].
      constructor; [simpl; set_solver|].
      eapply Forall_impl; [done|]. simpl. set_solver.
    + rewrite bind_Ok. exists []. by rewrite app_nil_r.
Qed.

(** The parser raises exactly on the labeled lines with a number too long
    for [int]; on every other text it returns a list, and every index in
    it is one of the five sensors. *)
Lemma parse_cases fs (text : string) :
  if has_long_number text then parse fs text = Raise ValueError
  else ∃ updates, parse fs text = Ok updates ∧ Forall index_in_range updates.
Proof.
  unfold has_long_number, is_header, is_labeled, _parse_line_multi. cbv zeta.
  destruct (is_empty (strip text)) eqn:He.
  { destruct (strip text); [|done]. by exists []. }
  destruct (_ || _); cbn [negb andb]; [by exists []|].
  destruct (contains "sensor" _); cbn [andb].
  { pose proof (parse_segments_shape fs [] (split_on is_semicolon_or_bar (strip text)))
      as Hs.
    destruct (existsb _ _); [done|].
    destruct Hs as (more & Hrun & Hmore). exists more. split; [exact Hrun|done]. }
  destruct (_ || _).
  { destruct (parse_flat_shape fs (comma_parts (strip text)) range5 0 [])
      as (more & Hrun & Hmore). exists more. split; [exact Hrun|].
    eapply Forall_impl; [done|]. intros u Hu. unfold index_in_range, range5 in *.
    repeat (apply elem_of_cons in Hu as [->|Hu]; [lia|]).
    by apply elem_of_nil in Hu. }
  destruct (3 <=? _); [|by exists []].
  unfold try_except.
  destruct (xyz_force fs _) as [sample|e]; [|by exists []].
  rewrite bind_Ok. eexists. split; [done|].
  constructor; [|done]. unfold index_in_range. simpl. lia.
Qed.

Lemma parse_total fs (text : string) :
  has_long_number text = false →
  ∃ updates, parse fs text = Ok updates ∧ Forall index_in_range updates.
Proof. intros H. pose proof (parse_cases fs text) as Hc. by rewrite H in Hc. Qed.

Lemma parse_raises fs (text : string) :
  has_long_number text = true → parse fs text = Raise ValueError.
Proof. intros H. pose proof (parse_cases fs text) as Hc. by rewrite H in Hc. Qed.

(** Whether the parser raises does not depend on the float conversion, and
    [ValueError] is all it raises. *)
Lemma parse_raise_inv fs (text : string) e :
  parse fs text = Raise e → e = ValueError ∧ has_long_number text = true.
Proof.
  intros H. pose proof (parse_cases fs text) as Hc.
  destruct (has_long_number text).
  - rewrite Hc in H. by injection H as <-.
  - destruct Hc as (updates & Hc & _). congruence.
Qed.

Lemma parse_ok_inv fs (text : string) updates :
  parse fs text = Ok updates →
  has_long_number text = false ∧ Forall index_in_range updates.
Proof.
  intros H. pose proof (parse_cases fs text) as Hc.
  destruct (has_long_number text).
  - congruence.
  - destruct Hc as (updates' & Hc & Hall). split; [done|]. congruence.
Qed.

Lemma unlabeled_no_long_number (text : string) :
  is_labeled text = false → has_long_number text = false.
Proof. unfold has_long_number. intros ->. by rewrite andb_false_r. Qed.

(** *** More failures, fewer updates *)

Lemma getitem_float_mono fs1 fs2 (parts : list string) i (v : F) :
  fails_more fs1 fs2 →
  py_getitem parts i ≫= py_float fs1 = Ok v →
  py_getitem parts i ≫= py_float fs2 = Ok v.
Proof.
  intros Hm. unfold py_getitem, py_float.
  destruct (parts !! i) as [s|]; [|done]. rewrite !bind_Ok.
  destruct (fs1 s) as [v'|] eqn:H1; [|done].
  intros [= <-]. by rewrite (Hm _ _ H1).
Qed.

Lemma xyz_force_mono fs1 fs2 parts (sample : SensorSample F) :
  fails_more fs1 fs2 →
  xyz_force fs1 parts = Ok sample → xyz_force fs2 parts = Ok sample.
Proof.
  intros Hm. unfold parse_xyz_force. intros H.
  destruct (py_getitem parts 0 ≫= py_float fs1) as [x|] eqn:Hx; [|done].
  rewrite (getitem_float_mono _ _ _ _ _ Hm Hx). rewrite bind_Ok in *.
  destruct (py_getitem parts 1 ≫= py_float fs1) as [y|] eqn:Hy; [|done].
  rewrite (getitem_float_mono _ _ _ _ _ Hm Hy). rewrite bind_Ok in *.
  destruct (py_getitem parts 2 ≫= py_float fs1) as [z|] eqn:Hz; [|done].
  rewrite (getitem_float_mono _ _ _ _ _ Hm Hz). rewrite bind_Ok in *.
  destruct (4 <=? length parts); [|done].
  destruct (py_getitem parts 3 ≫= py_float fs1) as [f|] eqn:Hf; [|done].
  by rewrite (getitem_float_mono _ _ _ _ _ Hm Hf).
Qed.

Lemma parse_group_mono fs1 fs2 parts i cursor (updates : list (Z * SensorSample F)) step :
  fails_more fs1 fs2 →
  group fs1 parts i cursor updates = Ok step →
  group fs2 parts i cursor updates = Ok step.
Proof.
  intros Hm. unfold parse_group. intros H.
  destruct (py_getitem parts cursor ≫= py_float fs1) as [x|] eqn:Hx; [|done].
  rewrite (getitem_float_mono _ _ _ _ _ Hm Hx). rewrite bind_Ok in *.
  destruct (py_getitem parts (cursor + 1) ≫= py_float fs1) as [y|] eqn:Hy; [|done].
  rewrite (getitem_float_mono _ _ _ _ _ Hm Hy). rewrite bind_Ok in *.
  destruct (py_getitem parts (cursor + 2) ≫= py_float fs1) as [z|] eqn:Hz; [|done].
  rewrite (getitem_float_mono _ _ _ _ _ Hm Hz). rewrite bind_Ok in *.
  destruct (length parts =? 20); [|done].
  destruct (py_getitem parts (cursor + 3) ≫= py_float fs1) as [f|] eqn:Hf; [|done].
  by rewrite (getitem_float_mono _ _ _ _ _ Hm Hf).
Qed.

Lemma parse_segment_mono fs1 fs2 (u1 u2 : list (Z * SensorSample F)) seg :
  fails_more fs1 fs2 → u1 `sublist_of` u2 → long_number seg = false →
  ∃ r1 r2, segment fs1 u1 seg = Ok r1 ∧ segment fs2 u2 seg = Ok r2 ∧
           r1 `sublist_of` r2.
Proof.
  intros Hm Hu Hlong. unfold parse_segment.
  destruct (is_empty (strip seg)); [by eauto|].
  destruct (re_match_sensor (strip seg)) as [[g1 g2]|] eqn:Hre; [|by eauto].
  pose proof (long_number_int seg g1 g2 Hre) as Hi. rewrite Hlong in Hi.
  destruct Hi as (n & _ & ->). rewrite !bind_Ok.
  destruct (3 <=? _); [|by eauto].
  unfold try_except.
  destruct (xyz_force fs1 _) as [sample|e] eqn:H1.
  - rewrite (xyz_force_mono _ _ _ _ Hm H1), !bind_Ok.
    eexists _, _. split; [done|split; [done|]]. by apply sublist_app.
  - destruct (xyz_force fs2 _) as [sample|e'].
    + rewrite bind_Ok. eexists _, _. split; [done|split; [done|]].
      by apply sublist_inserts_r.
    + by eauto.
Qed.

Lemma parse_segments_mono fs1 fs2 (u1 u2 : list (Z * SensorSample F)) segs :
  fails_more fs1 fs2 → u1 `sublist_of` u2 → existsb long_number segs = false →
  ∃ r1 r2, segments fs1 u1 segs = Ok r1 ∧ segments fs2 u2 segs = Ok r2 ∧
           r1 `sublist_of` r2.
Proof.
  intros Hm. revert u1 u2. induction segs as [|seg segs IH]; intros u1 u2 Hu Hlong.
  - by eauto.
  - cbn [parse_segments]. cbn [existsb] in Hlong.
    apply orb_false_elim in Hlong as [Hseg Hlong].
    destruct (parse_segment_mono fs1 fs2 u1 u2 seg Hm Hu Hseg)
      as (r1 & r2 & -> & -> & Hr).
    rewrite !bind_Ok. by apply IH.
Qed.

Lemma parse_flat_mono fs1 fs2 parts sensors cursor (updates : list (Z * SensorSample F)) :
  fails_more fs1 fs2 →
  ∃ r1 r2, flat fs1 parts sensors cursor updates = Ok r1 ∧
           flat fs2 parts sensors cursor updates = Ok r2 ∧
           r1 `sublist_of` r2.
Proof.
  intros Hm. revert cursor updates.
  induction sensors as [|i sensors IH]; intros cursor updates.
  - by eauto.
  - cbn [parse_flat]. unfold try_except.
    destruct (group fs1 parts i cursor updates) as [step|e] eqn:H1.
    + rewrite (parse_group_mono _ _ _ _ _ _ _ Hm H1), !bind_Ok.
      destruct step; [apply IH|by eauto].
    + rewrite bind_Ok.
      destruct (parse_flat_shape fs2 parts (i :: sensors) cursor updates)
        as (more & Hrun & _).
      cbn [parse_flat] in Hrun. unfold try_except in Hrun. rewrite Hrun.
      eexists _, _. split; [done|split; [done|]]. by apply sublist_inserts_r.
Qed.

Lemma parse_mono fs1 fs2 (text : string) :
  fails_more fs1 fs2 → has_long_number text = false →
  ∃ r1 r2, parse fs1 text = Ok r1 ∧ parse fs2 text = Ok r2 ∧ r1 `sublist_of` r2.
Proof.
  intros Hm. unfold has_long_number, is_header, is_labeled, _parse_line_multi.
  cbv zeta. intros Hlong.
  destruct (is_empty (strip text)); [by eauto|].
  destruct (_ || _); [by eauto|].
  destruct (contains "sensor" _).
  { by apply parse_segments_mono. }
  destruct (_ || _).
  { by apply parse_flat_mono. }
  destruct (3 <=? _); [|by eauto].
  unfold try_except.
  destruct (xyz_force fs1 _) as [sample|e] eqn:H1.
  - rewrite (xyz_force_mono _ _ _ _ Hm H1), !bind_Ok. by eauto.
  - destruct (xyz_force fs2 _) as [sample|e'].
    + rewrite bind_Ok. eexists _, _. split; [done|split; [done|]].
      apply sublist_nil_l.
    + by eauto.
Qed.

(** *** Lines that are neither header nor labeled *)

Lemma parse_plain fs (text : string) :
  is_header text = false → is_labeled text = false →
  comma_parts (strip text) ≠ [] →
  parse fs text =
    let parts := comma_parts (strip text) in
    if (length parts =? 15) || (length parts =? 20) then flat fs parts range5 0 []
    else if 3 <=? length parts then
      try_except (sample ← xyz_force fs parts; Ok ([] ++ [(0%Z, sample)]))
                 (λ _, Ok [])
    else Ok [].
Proof.
  unfold is_header, is_labeled, _parse_line_multi. intros Hh Hl Hp.
  destruct (strip text) as [|c s] eqn:Hs; [done|].
  cbn [is_empty]. cbv zeta. cbv zeta in Hh. by rewrite Hh, Hl.
Qed.

Lemma read_ok fs (parts : list string) i (v : F) :
  parts !! i ≫= fs = Some v → py_getitem parts i ≫= py_float fs = Ok v.
Proof.
  unfold py_getitem, py_float. destruct (parts !! i) as [t|]; [|done].
  simpl. by intros ->.
Qed.

Lemma read_fail fs (parts : list string) i :
  parts !! i ≫= fs = None → ∃ e, py_getitem parts i ≫= py_float fs = Raise (A := F) e.
Proof.
  unfold py_getitem, py_float. destruct (parts !! i) as [t|]; [|by eauto].
  simpl. intros ->. by eauto.
Qed.

Lemma parse_group_fail fs parts i cursor (updates : list (Z * SensorSample F)) j :
  j < (if length parts =? 20 then 4 else 3) →
  parts !! (cursor + j) ≫= fs = None →
  ∃ e, group fs parts i cursor updates = Raise e.
Proof.
  intros Hj Hfail. apply read_fail in Hfail as [e He]. unfold parse_group.
  destruct (py_getitem parts cursor ≫= py_float fs) as [x|] eqn:Hx; [|by eauto].
  destruct (py_getitem parts (cursor + 1) ≫= py_float fs) as [y|] eqn:Hy; [|by eauto].
  destruct (py_getitem parts (cursor + 2) ≫= py_float fs) as [z|] eqn:Hz; [|by eauto].
  rewrite !bind_Ok.
  destruct j as [|[|[|j]]].
  - rewrite Nat.add_0_r in He. congruence.
  - congruence.
  - congruence.
  - destruct (length parts =? 20); [|lia].
    assert (j = 0) as -> by lia. rewrite He. by eauto.
Qed.

(** The walk over groups of three: it collects the groups that parse and
    stops at the first that does not. *)
Lemma parse_flat_walk3 fs parts :
  (length parts =? 20) = false →
  ∀ sensors cursor (updates : list (Z * SensorSample F)) g vals,
    length vals = 3 * g → g ≤ length sensors →
    (∀ k v, vals !! k = Some v → parts !! (cursor + k) ≫= fs = Some v) →
    (g = length sensors ∨ ∃ j, j < 3 ∧ parts !! (cursor + 3 * g + j) ≫= fs = None) →
    flat fs parts sensors cursor updates =
      Ok (updates ++ zip sensors (samples3 fadd fmul fsqrt vals)).
Proof.
  intros H20.
  induction sensors as [|i sensors IH]; intros cursor updates g vals Hlen Hg Hv Hend.
  - assert (g = 0) as -> by (simpl in Hg; lia).
    destruct vals; [|done]. simpl. by rewrite app_nil_r.
  - cbn [parse_flat]. destruct g as [|g].
    + destruct vals; [|done]. destruct Hend as [|(j & Hj & Hfail)]; [done|].
      rewrite Nat.add_0_r in Hfail.
      destruct (parse_group_fail fs parts i cursor updates j) as [e ->];
        [by rewrite H20|done|].
      simpl. by rewrite app_nil_r.
    + destruct vals as [|x [|y [|z vals]]]; simpl in Hlen; try lia.
      pose proof (Hv 0 x eq_refl) as Hx. rewrite Nat.add_0_r in Hx.
      pose proof (Hv 1 y eq_refl) as Hy. pose proof (Hv 2 z eq_refl) as Hz.
      unfold parse_group.
      rewrite (read_ok _ _ _ _ Hx), bind_Ok, (read_ok _ _ _ _ Hy), bind_Ok.
      rewrite (read_ok _ _ _ _ Hz), bind_Ok, H20.
      unfold try_except. rewrite bind_Ok.
      rewrite (IH (cursor + 3) _ g vals).
      * by rewrite <- app_assoc.
      * lia.
      * simpl in Hg. lia.
      * intros k v Hk. rewrite <- Nat.add_assoc. by apply Hv.
      * destruct Hend as [Hend|(j & Hj & Hfail)]; [left; simpl in Hend; lia|].
        right. exists j. split; [done|].
        by replace (cursor + 3 + 3 * g + j) with (cursor + 3 * S g + j) by lia.
Qed.

(** The same walk over groups of four, the fourth value being the force. *)
Lemma parse_flat_walk4 fs parts :
  (length parts =? 20) = true →
  ∀ sensors cursor (updates : list (Z * SensorSample F)) g vals,
    length vals = 4 * g → g ≤ length sensors →
    (∀ k v, vals !! k = Some v → parts !! (cursor + k) ≫= fs = Some v) →
    (g = length sensors ∨ ∃ j, j < 4 ∧ parts !! (cursor + 4 * g + j) ≫= fs = None) →
    flat fs parts sensors cursor updates =
      Ok (updates ++ zip sensors (samples4 vals)).
Proof.
  intros H20.
  induction sensors as [|i sensors IH]; intros cursor updates g vals Hlen Hg Hv Hend.
  - assert (g = 0) as -> by (simpl in Hg; lia).
    destruct vals; [|done]. simpl. by rewrite app_nil_r.
  - cbn [parse_flat]. destruct g as [|g].
    + destruct vals; [|done]. destruct Hend as [|(j & Hj & Hfail)]; [done|].
      rewrite Nat.add_0_r in Hfail.
      destruct (parse_group_fail fs parts i cursor updates j) as [e ->];
        [by rewrite H20|done|].
      simpl. by rewrite app_nil_r.
    + destruct vals as [|x [|y [|z [|f vals]]]]; simpl in Hlen; try lia.
      pose proof (Hv 0 x eq_refl) as Hx. rewrite Nat.add_0_r in Hx.
      pose proof (Hv 1 y eq_refl) as Hy. pose proof (Hv 2 z eq_refl) as Hz.
      pose proof (Hv 3 f eq_refl) as Hf.
      unfold parse_group.
      rewrite (read_ok _ _ _ _ Hx), bind_Ok, (read_ok _ _ _ _ Hy), bind_Ok.
      rewrite (read_ok _ _ _ _ Hz), bind_Ok, H20.
      rewrite (read_ok _ _ _ _ Hf), bind_Ok.
      unfold try_except. rewrite bind_Ok.
      rewrite (IH (cursor + 3 + 1) _ g vals).
      * by rewrite <- app_assoc.
      * lia.
      * simpl in Hg. lia.
      * intros k v Hk. rewrite <- !Nat.add_assoc. by apply Hv.
      * destruct Hend as [Hend|(j & Hj & Hfail)]; [left; simpl in Hend; lia|].
        right. exists j. split; [done|].
        by replace (cursor + 3 + 1 + 4 * g + j) with (cursor + 4 * S g + j) by lia.
Qed.

(** Tokens that all parse, read by position. *)
Lemma mapM_reads fs (parts : list string) (vals : list F) k v :
  mapM fs parts = Some vals → vals !! k = Some v → parts !! k ≫= fs = Some v.
Proof.
  intros Hm%mapM_Some Hk.
  destruct (Forall2_lookup_r _ _ _ _ _ Hm Hk) as (t & -> & Ht). done.
Qed.

End ParserFacts.

(** ** Properties of the line parser *)

Section ParserProperties.
Context {F : Type} (fadd fmul : F → F → F) (fsqrt : F → F).
Context (fs : string → option F).

Local Abbreviation parse := (_parse_line_multi fadd fmul fsqrt).

(** X19: a line without a sensor number too long for [int], so in
    particular every line that does not contain the word sensor, makes the
    parser return a list, and a float conversion that fails on more tokens
    only removes updates from that list. *)
Theorem parser_returns_unless_long_number (text : string) :
  has_long_number text = false →
  (∃ updates, parse fs text = Ok updates) ∧
  (∀ fs', fails_more fs' fs →
     ∃ updates updates',
       parse fs text = Ok updates ∧ parse fs' text = Ok updates' ∧
       updates' `sublist_of` updates).
Proof.
  intros Hlong. split.
  - destruct (parse_total fadd fmul fsqrt fs text Hlong) as (updates & Hrun & _).
    by exists updates.
  - intros fs' Hm.
    destruct (parse_mono fadd fmul fsqrt fs' fs text Hm Hlong)
      as (r1 & r2 & H1 & H2 & Hr).
    by exists r2, r1.
Qed.

(** C4: the parser does raise.  On a labeled line whose sensor number has
    4301 digits the call of [int], which no [try] encloses, raises
    [ValueError] out of the parser, whatever the float conversion; with
    4300 digits the same line gives one update, for sensor 4.  In general
    the parser raises exactly on the lines with such a number, and what it
    raises is [ValueError]. *)
Theorem parser_raises_on_long_number :
  long_number_line 4301 = ("Sensor " ++ repeat_char "1" 4301 ++ ": 1,2,3")%string ∧
  String.length (repeat_char "1" 4301) = 4301 ∧
  parse fs (long_number_line 4301) = Raise ValueError ∧
  (∀ x y z, fs "1" = Some x → fs "2" = Some y → fs "3" = Some z →
     parse fs (long_number_line 4300) =
       Ok [(4%Z, mkSample x y (fsqrt (fadd (fadd (fmul x x) (fmul y y)) (fmul z z))) z)]) ∧
  (∀ text e, parse fs text = Raise e ↔ e = ValueError ∧ has_long_number text = true).
Proof.
  split; [reflexivity|]. split; [vm_compute; reflexivity|].
  split; [vm_compute; reflexivity|]. split.
  - intros x y z Hx Hy Hz. vm_compute. rewrite Hx, Hy, Hz. reflexivity.
  - intros text e. split.
    + apply parse_raise_inv.
    + intros [-> H]. by apply parse_raises.
Qed.

(** C5: a labeled segment that returns has added nothing or one update
    whose index is the captured integer clamped into [1,5] minus one;
    [Sensor 0] gives index 0 and [Sensor 7] index 4; and every update of
    every list the parser returns has its index in [0,4]. *)
Theorem sensor_index_clamped :
  (∀ updates seg r,
     parse_segment fadd fmul fsqrt fs updates seg = Ok r →
     r = updates ∨
     ∃ g1 g2 n sample,
       re_match_sensor (strip seg) = Some (g1, g2) ∧ py_int g1 = Ok n ∧
       r = updates ++ [((Z.max 1 (Z.min 5 n) - 1)%Z, sample)]) ∧
  (∀ x y z, fs "1" = Some x → fs "2" = Some y → fs "3" = Some z →
     parse fs "Sensor 0: 1,2,3" =
       Ok [(0%Z, mkSample x y 
                    (fsqrt (fadd (fadd (fmul x x) (fmul y y)) (fmul z z))) z)] ∧
     parse fs "Sensor 7: 1,2,3" =
       Ok [(4%Z, mkSample x y 
                    (fsqrt (fadd (fadd (fmul x x) (fmul y y)) (fmul z z))) z)]) ∧
  (∀ text updates,
     parse fs text = Ok updates → Forall (λ u, (0 ≤ u.1 ≤ 4)%Z) updates).
Proof.
  split; [|split].
  - intros updates seg r Hr.
    pose proof (parse_segment_cases fadd fmul fsqrt fs updates seg) as Hc.
    destruct (long_number seg); [congruence|].
    destruct Hc as [Hc|(g1 & g2 & n & sample & Hm & Hn & Hc)].
    + left. congruence.
    + right. exists g1, g2, n, sample. split; [done|]. split; [done|]. congruence.
  - intros x y z Hx Hy Hz. split.
    + vm_compute. rewrite Hx, Hy, Hz. reflexivity.
    + vm_compute. rewrite Hx, Hy, Hz. reflexivity.
  - intros text updates Hp.
    by destruct (parse_ok_inv fadd fmul fsqrt fs text updates Hp).
Qed.

Lemma plain_parts_nonempty (text : string) (vals : list F) :
  mapM fs (comma_parts (strip text)) = Some vals → vals ≠ [] →
  comma_parts (strip text) ≠ [].
Proof. intros Hm%length_mapM Hv Hp. rewrite Hp in Hm. by destruct vals. Qed.

(** C6: a line that is neither header nor labeled and splits into exactly
    15 (or 20) tokens that all parse gives exactly five updates, for the
    sensors 0 to 4 in order.  With 15 tokens each group of three is
    (x, y, z) and the force is the square root of x*x + y*y + z*z; with 20
    the fourth value of each group is the force itself. *)
Theorem flat_csv_all_sensors (text : string) (vals : list F) :
  is_header text = false → is_labeled text = false →
  mapM fs (comma_parts (strip text)) = Some vals →
  (∀ x1 y1 z1 x2 y2 z2 x3 y3 z3 x4 y4 z4 x5 y5 z5,
     vals = [x1; y1; z1; x2; y2; z2; x3; y3; z3; x4; y4; z4; x5; y5; z5] →
     parse fs text =
       Ok [(0%Z, mkSample x1 y1
                 (fsqrt (fadd (fadd (fmul x1 x1) (fmul y1 y1)) (fmul z1 z1))) z1);
           (1%Z, mkSample x2 y2
                 (fsqrt (fadd (fadd (fmul x2 x2) (fmul y2 y2)) (fmul z2 z2))) z2);
           (2%Z, mkSample x3 y3
                 (fsqrt (fadd (fadd (fmul x3 x3) (fmul y3 y3)) (fmul z3 z3))) z3);
           (3%Z, mkSample x4 y4
                 (fsqrt (fadd (fadd (fmul x4 x4) (fmul y4 y4)) (fmul z4 z4))) z4);
           (4%Z, mkSample x5 y5
                 (fsqrt (fadd (fadd (fmul x5 x5) (fmul y5 y5)) (fmul z5 z5))) z5)]) ∧
  (∀ x1 y1 z1 f1 x2 y2 z2 f2 x3 y3 z3 f3 x4 y4 z4 f4 x5 y5 z5 f5,
     vals = [x1; y1; z1; f1; x2; y2; z2; f2; x3; y3; z3; f3;
             x4; y4; z4; f4; x5; y5; z5; f5] →
     parse fs text =
       Ok [(0%Z, mkSample x1 y1 f1 z1);
           (1%Z, mkSample x2 y2 f2 z2);
           (2%Z, mkSample x3 y3 f3 z3);
           (3%Z, mkSample x4 y4 f4 z4);
           (4%Z, mkSample x5 y5 f5 z5)]).
Proof.
  intros Hh Hl Hm. pose proof (length_mapM _ _ _ Hm) as Hlen. split.
  - intros * Hvals.
    assert (Hn : length vals = 3 * 5) by (by rewrite Hvals).
    rewrite parse_plain;
      [|done|done|by apply (plain_parts_nonempty text vals); [|rewrite Hvals]].
    cbv zeta. rewrite Hlen, Hn. cbn [Nat.mul Nat.add Nat.eqb orb].
    rewrite (parse_flat_walk3 fadd fmul fsqrt fs _ ltac:(by rewrite Hlen, Hn)
               range5 0 [] 5 vals Hn ltac:(done)).
    + by rewrite Hvals.
    + intros k v Hk. by apply (mapM_reads fs _ _ _ _ Hm).
    + by left.
  - intros * Hvals.
    assert (Hn : length vals = 4 * 5) by (by rewrite Hvals).
    rewrite parse_plain;
      [|done|done|by apply (plain_parts_nonempty text vals); [|rewrite Hvals]].
    cbv zeta. rewrite Hlen, Hn. cbn [Nat.mul Nat.add Nat.eqb orb].
    rewrite (parse_flat_walk4 fadd fmul fsqrt fs _ ltac:(by rewrite Hlen, Hn)
               range5 0 [] 5 vals Hn ltac:(done)).
    + by rewrite Hvals.
    + intros k v Hk. by apply (mapM_reads fs _ _ _ _ Hm).
    + by left.
Qed.





(** C8: a line that is neither header nor labeled, with at least three
    tokens but not 15 or 20, gives one update for sensor 0 from its first
    three tokens, the force read from a fourth token when there is one and
    derived as the square root of x*x + y*y + z*z otherwise; if one of the tokens it reads does not
    parse, the line gives nothing.  The line 10.5,-3.2,0.0 is such a line. *)
Theorem single_sensor_fallback (text t0 t1 t2 : string) (rest : list string) :
  is_header text = false → is_labeled text = false →
  comma_parts (strip text) = t0 :: t1 :: t2 :: rest →
  length rest ≠ 12 → length rest ≠ 17 →
  (∀ x y z, fs t0 = Some x → fs t1 = Some y → fs t2 = Some z →
     match rest with
     | [] =>
         parse fs text =
           Ok [(0%Z, mkSample x y (fsqrt (fadd (fadd (fmul x x) (fmul y y)) (fmul z z))) z)]
     | t3 :: _ =>
         ∀ force, fs t3 = Some force →
           parse fs text = Ok [(0%Z, mkSample x y force z)]
     end) ∧
  (fs t0 = None ∨ fs t1 = None ∨ fs t2 = None ∨
   (∃ t3 rest', rest = t3 :: rest' ∧ fs t3 = None) →
   parse fs text = Ok []) ∧
  (∀ x y z, fs "10.5" = Some x → fs "-3.2" = Some y → fs "0.0" = Some z →
     parse fs "10.5,-3.2,0.0" =
       Ok [(0%Z, mkSample x y (fsqrt (fadd (fadd (fmul x x) (fmul y y)) (fmul z z))) z)]).
Proof.
  intros Hh Hl Hp H15 H20.
  assert (Hrun : parse fs text =
    try_except (sample ← parse_xyz_force fadd fmul fsqrt fs (t0 :: t1 :: t2 :: rest);
                Ok ([] ++ [(0%Z, sample)]))
               (λ _, Ok [])).
  { rewrite parse_plain by (by rewrite ?Hp). cbv zeta. rewrite Hp.
    cbn [length].
    rewrite (proj2 (Nat.eqb_neq _ 15)) by lia.
    rewrite (proj2 (Nat.eqb_neq _ 20)) by lia. done. }
  rewrite Hrun. unfold parse_xyz_force, py_getitem, py_float. cbn [lookup list_lookup].
  split; [|split].
  - intros x y z Hx Hy Hz. rewrite !bind_Ok, Hx, Hy, Hz, !bind_Ok.
    destruct rest as [|t3 rest']; [done|].
    intros force Hf. cbn [length Nat.leb]. cbn [lookup list_lookup].
    by rewrite !bind_Ok, Hf.
  - rewrite !bind_Ok.
    intros [H|[H|[H|(t3 & rest' & -> & H)]]].
    + by rewrite H.
    + rewrite H. by destruct (fs t0).
    + rewrite H. by destruct (fs t0), (fs t1).
    + cbn [length Nat.leb]. cbn [lookup list_lookup]. rewrite !bind_Ok, H.
      by destruct (fs t0), (fs t1), (fs t2).
  - intros x y z Hx Hy Hz. clear Hrun. vm_compute. by rewrite Hx, Hy, Hz.
Qed.

End ParserProperties.

(** ** Properties of the dispatch and the clean-up *)

Section DispatchProperties.
Context {F : Type} (fadd fmul : F → F → F) (fsqrt : F → F).
Context (fs : string → option F).

Local Abbreviation parse := (_parse_line_multi fadd fmul fsqrt fs).
Local Abbreviation line := (process_line fadd fmul fsqrt fs).
Local Abbreviation lines_loop := (process_lines fadd fmul fsqrt fs).

Lemma emit_updates_signals (cache : gmap Z (SensorSample F)) updates :
  (emit_updates cache updates).2 = signals_of updates.
Proof.
  revert cache. induction updates as [|[idx sample] updates IH]; intros cache.
  - done.
  - simpl. specialize (IH (<[idx:=sample]> cache)).
    destruct (emit_updates _ updates) as [cache' signals]. simpl in *.
    by rewrite IH.
Qed.

Lemma parse_strip_strip (raw : string) (updates : list (Z * SensorSample F)) :
  is_empty (strip raw) = true → parse (strip raw) = Ok updates → updates = [].
Proof.
  intros He. destruct (strip raw); [|done]. vm_compute. by intros [= <-].
Qed.

(** One line that parses: forwarded whole when it has updates and the
    interval has passed, otherwise dropped without a trace in the worker. *)
Lemma process_line_cases (self : SerialWorker F) (now : Q) (raw : string) updates :
  parse (strip raw) = Ok updates →
  line self now raw =
    if negb (bool_decide (updates = [])) &&
       Qle_bool (_update_interval self) (now - _last_update self)
    then Ok (forwarded self now updates, signals_of updates)
    else Ok (self, []).
Proof.
  intros Hp. unfold process_line.
  destruct (is_empty (strip raw)) eqn:He.
  - rewrite (parse_strip_strip raw updates He Hp). done.
  - rewrite Hp, bind_Ok. destruct updates as [|u updates]; [done|].
    rewrite bool_decide_false by done. cbn [negb andb].
    destruct (Qle_bool _ _); [|done].
    pose proof (emit_updates_signals (_last_by_sensor self) (u :: updates)) as Hs.
    unfold forwarded.
    destruct (emit_updates (_last_by_sensor self) (u :: updates)) as [cache signals].
    simpl in Hs. by rewrite Hs.
Qed.

(** A line on which the parser raises: the exception leaves the loop body,
    before the clock is read. *)
Lemma process_line_raises (self : SerialWorker F) (now : Q) (raw : string) e :
  parse (strip raw) = Raise e → line self now raw = Raise e.
Proof.
  intros Hp. unfold process_line.
  destruct (is_empty (strip raw)) eqn:He.
  - destruct (strip raw); [|done]. vm_compute in Hp. done.
  - by rewrite Hp.
Qed.

Lemma default_last_cons {A} (d x : A) (l : list A) :
  default d (last (x :: l)) = default x (last l).
Proof. rewrite last_cons. by destruct (last l). Qed.

Lemma process_lines_exact (self : SerialWorker F) (lines : list (Q * string))
    (parsed : list (list (Z * SensorSample F))) :
  Forall2 (λ l updates, parse (strip l.2) = Ok updates) lines parsed →
  ∃ self' emitted,
    lines_loop self lines = Ok (self', emitted) ∧
    _update_interval self' = _update_interval self ∧
    (∀ (k : nat) now raw updates,
       lines !! k = Some (now, raw) → parsed !! k = Some updates →
       emitted !! k =
         Some (if negb (bool_decide (updates = [])) &&
                  Qle_bool (_update_interval self)
                    (now - default (_last_update self)
                             (last (forwarded_times (take k lines) (take k emitted))))
               then signals_of updates else [])) ∧
    _last_update self' =
      default (_last_update self) (last (forwarded_times lines emitted)) ∧
    spaced (_update_interval self) (_last_update self)
           (forwarded_times lines emitted).
Proof.
  intros Hall. revert self.
  induction Hall as [|[now0 raw0] updates0 lines parsed Hp Hall IH]; intros self.
  - exists self, []. split; [done|]. split; [done|]. split; [|done].
    intros k now raw updates Hk. by rewrite lookup_nil in Hk.
  - cbn [process_lines]. cbn [snd] in Hp.
    rewrite (process_line_cases self now0 raw0 updates0 Hp).
    destruct (negb _ && _) eqn:Hc.
    + pose proof Hc as Hc'. apply andb_prop in Hc' as [Hne Hle].
      rewrite bind_Ok. cbv beta iota.
      destruct (IH (forwarded self now0 updates0))
        as (self' & emitted & -> & Hi & Hk & Hlast & Hsp).
      rewrite bind_Ok. cbv beta iota.
      exists self', (signals_of updates0 :: emitted).
      destruct updates0 as [|u updates0]; [done|].
      cbn [forwarded _last_update _update_interval] in Hi, Hk, Hlast, Hsp.
      split; [done|]. split; [done|]. split; [|split].
      * intros [|k] now raw updates Hl Hu.
        -- injection Hl as <- <-. injection Hu as <-.
           cbn [take forwarded_times last default lookup list_lookup].
           by rewrite Hc.
        -- rewrite lookup_cons in Hl. rewrite lookup_cons in Hu. rewrite lookup_cons.
           rewrite (Hk k now raw updates Hl Hu).
           cbn [take signals_of fmap list_fmap forwarded_times].
           by rewrite default_last_cons.
      * cbn [signals_of fmap list_fmap forwarded_times].
        by rewrite default_last_cons.
      * cbn [forwarded_times signals_of fmap list_fmap spaced].
        split; [by apply Qle_bool_iff|done].
    + rewrite bind_Ok. cbv beta iota.
      destruct (IH self) as (self' & emitted & -> & Hi & Hk & Hlast & Hsp).
      rewrite bind_Ok. cbv beta iota.
      exists self', ([] :: emitted).
      split; [done|]. split; [done|]. split; [|split].
      * intros [|k] now raw updates Hl Hu.
        -- injection Hl as <- <-. injection Hu as <-.
           cbn [take forwarded_times last default lookup list_lookup].
           by rewrite Hc.
        -- rewrite lookup_cons in Hl. rewrite lookup_cons in Hu. rewrite lookup_cons.
           by rewrite (Hk k now raw updates Hl Hu).
      * done.
      * done.
Qed.

(** C3: a parsed line's updates are forwarded exactly when it has some and
    [now - _last_update >= _update_interval]; forwarding sends all of
    them, in order, and moves [_last_update] to [now]; otherwise nothing is
    sent and the worker is left as it was, so nothing of the line can come
    out later.  Over any sequence of lines that parse, whatever the clock,
    line [k] is forwarded exactly when it has updates and its reading is at
    least the interval after the reading of the last line forwarded before
    it (or after the initial [_last_update] when there was none); it then
    emits all of its updates and otherwise nothing; consecutive forwarded
    readings are at least the interval apart; and [_last_update] ends as
    the last forwarded reading.  The interval set by [__init__] is the
    double 0.03. *)
Theorem rate_limiter_forwards_or_drops (self : SerialWorker F)
    (lines : list (Q * string)) (parsed : list (list (Z * SensorSample F))) :
  Forall2 (λ l updates, parse (strip l.2) = Ok updates) lines parsed →
  (∀ now raw updates,
     parse (strip raw) = Ok updates →
     line self now raw =
       if negb (bool_decide (updates = [])) &&
          Qle_bool (_update_interval self) (now - _last_update self)
       then Ok (forwarded self now updates, signals_of updates)
       else Ok (self, [])) ∧
  (∀ now updates, _last_update (forwarded self now updates) = now) ∧
  (∀ port baudrate,
     _update_interval (SerialWorker_init (F := F) port baudrate)
       = 1080863910568919 # 36028797018963968 ∧
     _last_update (SerialWorker_init (F := F) port baudrate) = 0%Q) ∧
  ∃ self' emitted,
    lines_loop self lines = Ok (self', emitted) ∧
    (∀ (k : nat) now raw updates,
       lines !! k = Some (now, raw) → parsed !! k = Some updates →
       emitted !! k =
         Some (if negb (bool_decide (updates = [])) &&
                  Qle_bool (_update_interval self)
                    (now - default (_last_update self)
                             (last (forwarded_times (take k lines) (take k emitted))))
               then signals_of updates else [])) ∧
    _last_update self' =
      default (_last_update self) (last (forwarded_times lines emitted)) ∧
    spaced (_update_interval self) (_last_update self)
           (forwarded_times lines emitted).
Proof.
  intros Hall. split; [|split; [|split]].
  - intros now raw updates. apply process_line_cases.
  - done.
  - done.
  - destruct (process_lines_exact self lines parsed Hall)
      as (self' & emitted & H1 & _ & H2 & H3 & H4).
    by exists self', emitted.
Qed.

(** C9: [stop] never raises; it calls [close] once when the worker holds a
    port and not at all otherwise, and leaves the worker without one, so a
    second [stop] (or another [_cleanup]) changes neither the world nor the
    worker. *)
Theorem stop_is_idempotent (self : SerialWorker F) (w : World) :
  ∃ self1 w1,
    stop self w = (w1, Ok self1) ∧
    _serial self1 = None ∧ _running self1 = false ∧
    close_log w1 =
      close_log w ++ (match _serial self with
                      | Some port => [ser_port port]
                      | None => []
                      end) ∧
    length (close_log w1) ≤ length (close_log w) + 1 ∧
    (∀ w', stop self1 w' = (w', Ok self1)) ∧
    (∀ w', _cleanup self1 w' = (w', Ok self1)).
Proof.
  destruct self as [pn br run ser lu ui cache], w as [log].
  exists (mkWorker pn br false None lu ui cache),
         (mkWorld (log ++ match ser with Some port => [ser_port port] | None => [] end)).
  split; [|split; [done|split; [done|split; [done|split; [|split]]]]].
  - unfold stop, _cleanup, io_bind, io_try, io_ret, serial_close.
    cbn [_serial _port_name _baudrate _running _last_update _update_interval
         _last_by_sensor close_log].
    destruct ser as [port|].
    + by destruct (ser_close_raises port).
    + by rewrite app_nil_r.
  - cbn [close_log _serial]. rewrite length_app.
    destruct ser; cbn [length]; lia.
  - intros w'. reflexivity.
  - intros w'. reflexivity.
Qed.

End DispatchProperties.

(** ** The parser at concrete lines, in binary64 *)

Lemma parser_returns_unless_long_number_witness :
  has_long_number "Sensor 1: 1,2,3; Sensor 2: 4,5,6" = false ∧
  fails_more PF_float_but_4 PF_float_of_str ∧
  ∃ updates updates',
    PF_parse "Sensor 1: 1,2,3; Sensor 2: 4,5,6" = Ok updates ∧
    _parse_line_multi PrimFloat.add PrimFloat.mul PrimFloat.sqrt PF_float_but_4
      "Sensor 1: 1,2,3; Sensor 2: 4,5,6" = Ok updates' ∧
    updates' `sublist_of` updates.
Proof.
  assert (Hm : fails_more PF_float_but_4 PF_float_of_str).
  { intros s v. unfold PF_float_but_4. destruct (String.eqb s "4").
    - intros H. discriminate H.
    - intros H. exact H. }
  split; [reflexivity|]. split; [exact Hm|].
  exact (proj2 (parser_returns_unless_long_number PrimFloat.add PrimFloat.mul
                  PrimFloat.sqrt PF_float_of_str
                  "Sensor 1: 1,2,3; Sensor 2: 4,5,6" eq_refl) _ Hm).
Defined.

(** The line with 4301 digits in binary64, and what [start]'s dispatch
    makes of it: the exception leaves [process_line]. *)
Example long_number_line_raises :
  PF_parse (long_number_line 4301) = Raise ValueError ∧
  process_line PrimFloat.add PrimFloat.mul PrimFloat.sqrt PF_float_of_str
    PF_worker 1 (long_number_line 4301) = Raise ValueError ∧
  PF_parse (long_number_line 4300) =
    Ok [(4%Z, mkSample 1 2 0x1.deeea11683f49p+1 3)]%float.
Proof. repeat split; vm_compute; reflexivity. Qed.

Lemma sensor_index_clamped_witness :
  PF_float_of_str "1" = Some 1%float ∧
  PF_float_of_str "2" = Some 2%float ∧
  PF_float_of_str "3" = Some 3%float ∧
  PF_parse "Sensor 0: 1,2,3"
    = Ok [(0%Z, mkSample 1 2 0x1.deeea11683f49p+1 3)]%float ∧
  PF_parse "Sensor 7: 1,2,3"
    = Ok [(4%Z, mkSample 1 2 0x1.deeea11683f49p+1 3)]%float.
Proof.
  split; [reflexivity|]. split; [reflexivity|]. split; [reflexivity|].
  exact (proj1 (proj2 (sensor_index_clamped PrimFloat.add PrimFloat.mul
                         PrimFloat.sqrt PF_float_of_str))
           1%float 2%float 3%float eq_refl eq_refl eq_refl).
Defined.

Lemma flat_csv_all_sensors_witness :
  is_header "1,2,3,4,5,6,7,8,9,10,11,12,13,14,15" = false ∧
  is_labeled "1,2,3,4,5,6,7,8,9,10,11,12,13,14,15" = false ∧
  mapM PF_float_of_str (comma_parts (strip "1,2,3,4,5,6,7,8,9,10,11,12,13,14,15"))
    = Some [1; 2; 3; 4; 5; 6; 7; 8; 9; 10; 11; 12; 13; 14; 15]%float ∧
  PF_parse "1,2,3,4,5,6,7,8,9,10,11,12,13,14,15" =
    Ok [(0%Z, mkSample 1 2 0x1.deeea11683f49p+1 3);
        (1%Z, mkSample 4 5 0x1.18cc821d6d3e3p+3 6);
        (2%Z, mkSample 7 8 0x1.bdb55b550fdbcp+3 9);
        (3%Z, mkSample 10 11 0x1.31adf859f9e5ep+4 12);
        (4%Z, mkSample 13 14 0x1.84a37e8b168a9p+4 15)]%float.
Proof.
  split; [reflexivity|]. split; [reflexivity|]. split; [reflexivity|].
  exact (proj1 (flat_csv_all_sensors PrimFloat.add PrimFloat.mul PrimFloat.sqrt
                  PF_float_of_str "1,2,3,4,5,6,7,8,9,10,11,12,13,14,15"
                  [1; 2; 3; 4; 5; 6; 7; 8; 9; 10; 11; 12; 13; 14; 15]%float
                  eq_refl eq_refl eq_refl)
           _ _ _ _ _ _ _ _ _ _ _ _ _ _ _ eq_refl).
Defined.

(** The same branch with 20 tokens: the fourth value of each group is the
    force. *)
Example flat_csv_20_tokens :
  PF_parse "1,2,3,4,5,6,7,8,9,10,11,12,13,14,15,16,17,18,19,20" =
    Ok [(0%Z, mkSample 1 2 4 3); (1%Z, mkSample 5 6 8 7);
        (2%Z, mkSample 9 10 12 11); (3%Z, mkSample 13 14 16 15);
        (4%Z, mkSample 17 18 20 19)]%float.
Proof. reflexivity. Qed.


Lemma single_sensor_fallback_witness :
  is_header "10.5,-3.2,0.0" = false ∧
  is_labeled "10.5,-3.2,0.0" = false ∧
  comma_parts (strip "10.5,-3.2,0.0") = ["10.5"; "-3.2"; "0.0"] ∧
  PF_float_of_str "10.5" = Some 10.5%float ∧
  PF_float_of_str "-3.2" = Some PF_minus_3_2 ∧
  PF_float_of_str "0.0" = Some 0%float ∧
  PF_parse "10.5,-3.2,0.0" =
    Ok [(0%Z, mkSample 10.5%float PF_minus_3_2
                0x1.5f41e4de35802p+3%float 0%float)].
Proof.
  split; [reflexivity|]. split; [reflexivity|]. split; [reflexivity|].
  split; [reflexivity|]. split; [reflexivity|]. split; [reflexivity|].
  exact (proj1 (single_sensor_fallback PrimFloat.add PrimFloat.mul PrimFloat.sqrt
                  PF_float_of_str "10.5,-3.2,0.0" "10.5" "-3.2" "0.0" []
                  eq_refl eq_refl eq_refl ltac:(discriminate) ltac:(discriminate))
           10.5%float PF_minus_3_2 0%float eq_refl eq_refl eq_refl).
Defined.

(** The derived force of that line, 10.976793703081061, is the square
    root as binary64 computes it. *)
Example fallback_force_value :
  PF_norm3 10.5%float PF_minus_3_2 0%float = 0x1.5f41e4de35802p+3%float.
Proof. reflexivity. Qed.

(** ** The dispatch at a concrete run

    Five lines, 10, 30, 45 and 60 ms after the first: the second and the
    fourth come too early and emit nothing. *)
Example rate_limiter_run :
  ∃ self' s1 s3 s5,
    PF_process_lines PF_worker
      [(100 # 1, "1,2,3"); (10001 # 100, "4,5,6"); (10003 # 100, "7,8,9");
       (100045 # 1000, "1,1,1"); (10006 # 100, "2,2,2")]
    = Ok (self', [[s1]; []; [s3]; []; [s5]]) ∧
    _last_update self' = 10006 # 100.
Proof. eexists _, _, _, _. split; vm_compute; reflexivity. Qed.

Lemma rate_limiter_forwards_or_drops_witness :
  Forall2 (λ l updates, PF_parse (strip l.2) = Ok updates)
    [(100 # 1, "1,2,3"); (10001 # 100, "4,5,6"); (10003 # 100, "hello");
     (10003 # 100, "7,8,9")]
    [[(0%Z, mkSample 1 2 0x1.deeea11683f49p+1 3)];
     [(0%Z, mkSample 4 5 0x1.18cc821d6d3e3p+3 6)];
     [];
     [(0%Z, mkSample 7 8 0x1.bdb55b550fdbcp+3 9)]]%float ∧
  ∃ self' emitted,
    PF_process_lines PF_worker
      [(100 # 1, "1,2,3"); (10001 # 100, "4,5,6"); (10003 # 100, "hello");
       (10003 # 100, "7,8,9")] = Ok (self', emitted) ∧
    _last_update self' =
      default 0%Q
        (last (forwarded_times
                 [(100 # 1, "1,2,3"); (10001 # 100, "4,5,6");
                  (10003 # 100, "hello"); (10003 # 100, "7,8,9")] emitted)) ∧
    spaced (1080863910568919 # 36028797018963968) 0
      (forwarded_times
         [(100 # 1, "1,2,3"); (10001 # 100, "4,5,6"); (10003 # 100, "hello");
          (10003 # 100, "7,8,9")] emitted).
Proof.
  assert (H : Forall2 (λ l updates, PF_parse (strip l.2) = Ok updates)
    [(100 # 1, "1,2,3"); (10001 # 100, "4,5,6"); (10003 # 100, "hello");
     (10003 # 100, "7,8,9")]
    [[(0%Z, mkSample 1 2 0x1.deeea11683f49p+1 3)];
     [(0%Z, mkSample 4 5 0x1.18cc821d6d3e3p+3 6)];
     [];
     [(0%Z, mkSample 7 8 0x1.bdb55b550fdbcp+3 9)]]%float).
  { repeat (constructor; [reflexivity|]). constructor. }
  split; [exact H|].
  destruct (rate_limiter_forwards_or_drops PrimFloat.add PrimFloat.mul
              PrimFloat.sqrt PF_float_of_str PF_worker _ _ H)
    as (_ & _ & _ & self' & emitted & Hrun & _ & Hlast & Hsp).
  exists self', emitted. split; [exact Hrun|]. split; [exact Hlast|exact Hsp].
Defined.

(** The same run evaluated: the second line comes 10 ms after the first
    and is dropped, the third has no updates and is skipped, the fourth
    comes 30 ms after the first and is forwarded. *)
Example rate_limiter_witness_run :
  ∃ self',
    PF_process_lines PF_worker
      [(100 # 1, "1,2,3"); (10001 # 100, "4,5,6"); (10003 # 100, "hello");
       (10003 # 100, "7,8,9")]
    = Ok (self',
          [[sampleReceived 0 (mkSample 1 2 0x1.deeea11683f49p+1 3)]; []; [];
           [sampleReceived 0 (mkSample 7 8 0x1.bdb55b550fdbcp+3 9)]]%float) ∧
    _last_update self' = 10003 # 100.
Proof. eexists. split; vm_compute; reflexivity. Qed.

(** ** More about the time-series tab *)

Section TimeSeriesMore.
Context {F : Type} (f0 : F).

Lemma valid_index_nat (i : Z) :
  valid_index i = true → Z.of_nat (Z.to_nat i) = i ∧ Z.to_nat i < 5.
Proof.
  unfold valid_index. intros [?%Z.leb_le ?%Z.ltb_lt]%andb_prop. lia.
Qed.

(** Everything the buffers and the curves hold after a run of accepted
    calls, by induction on the run. *)
Lemma slots_inv (h : list (Z * SensorSample F)) :
  Forall (λ c, valid_index c.1 = true) h →
  ∃ st, addSamples (TimeSeriesTab_init f0) h = Ok st ∧ tab_inv f0 st h ∧
    _x_axis st = seq 0 800 ∧
    (∀ (t : nat) b ax (p : nat), _buffers st !! t = Some b → p < 800 →
       (∀ (m : nat) a, h !! m = Some (Z.of_nat t, a) → m mod 800 ≠ p) →
       axis_buf ax b !! p = Some f0) ∧
    (∀ (t : nat) b ax (m : nat) a, _buffers st !! t = Some b →
       h !! m = Some (Z.of_nat t, a) →
       (∀ (m' : nat) a', m < m' → h !! m' = Some (Z.of_nat t, a') →
          m' mod 800 ≠ m mod 800) →
       axis_buf ax b !! (m mod 800) = Some (axis_val ax a)) ∧
    (∀ (t : nat) b (p : nat), _buffers st !! t = Some b → p < 800 →
       (∃ a, ∀ ax, axis_buf ax b !! p = Some (axis_val ax a)) ∨
       (∀ ax, axis_buf ax b !! p = Some f0)) ∧
    (∀ (t : nat) cv b, _plots st !! t = Some cv → _buffers st !! t = Some b →
       (cv = mkCurves [] [] [] [] ∧
        ∀ (m : nat) a, h !! m ≠ Some (Z.of_nat t, a)) ∨
       (∃ (m : nat) a,
          h !! m = Some (Z.of_nat t, a) ∧
          (∀ (m' : nat) a', m < m' → h !! m' ≠ Some (Z.of_nat t, a')) ∧
          cv = mkCurves (seq 0 800)
                 (rotate ((m mod 800 + 1) mod 800) (buf_x b))
                 (rotate ((m mod 800 + 1) mod 800) (buf_y b))
                 (rotate ((m mod 800 + 1) mod 800) (buf_z b)))).
Proof.
  induction h as [|[i s] h IH] using rev_ind; intros Hall.
  - exists (TimeSeriesTab_init f0).
    split; [done|]. split; [apply tab_inv_init|]. split; [done|].
    unfold TimeSeriesTab_init; cbn [_buffers _plots].
    split; [|split; [|split]].
    + intros t b ax p [-> _]%lookup_replicate Hp _.
      destruct ax; by apply lookup_replicate_2.
    + intros t b ax m a _ Hm. by rewrite lookup_nil in Hm.
    + intros t b p [-> _]%lookup_replicate Hp. right.
      intros ax. destruct ax; by apply lookup_replicate_2.
    + intros t cv b [-> _]%lookup_replicate _. left. split; [done|].
      intros m a. by rewrite lookup_nil.
  - apply Forall_app in Hall as [Hh Hc]. rewrite Forall_singleton in Hc.
    simpl in Hc.
    destruct (IH Hh) as (st & Hrun & Hinv & Hxs & Hzero & Hlast & Halign & Hplot).
    pose proof (inv_wf f0 _ _ Hinv) as Hwf.
    pose proof (inv_window f0 _ _ Hinv) as HW.
    pose proof (inv_index f0 _ _ Hinv) as Hidx.
    destruct (valid_index_nat i Hc) as [Hi Hlt].
    assert (is_Some (_buffers st !! Z.to_nat i)) as [b Hb].
    { apply lookup_lt_is_Some. by rewrite (wf_buffers _ Hwf). }
    assert (Hlenb : ∀ ax, length (axis_buf ax b) = 800).
    { intros ax. rewrite <- HW. by eapply (wf_axis _ Hwf). }
    pose proof (Nat.mod_upper_bound (length h) 800 ltac:(lia)) as Hn.
    eexists. split.
    { rewrite addSamples_snoc, Hrun, bind_Ok. simpl.
      by apply addSample_valid. }
    split; [by apply tab_inv_step|]. split; [done|].
    cbn [_buffers _plots]. split; [|split; [|split]].
    + intros t b' ax p Ht Hp Hno.
      destruct (decide (t = Z.to_nat i)) as [->|Hne].
      * rewrite list_lookup_insert_eq in Ht by (by eapply lookup_lt_Some).
        injection Ht as <-. rewrite axis_buf_written, Hidx, HW.
        rewrite list_lookup_insert_ne.
        -- apply (Hzero _ _ _ _ Hb Hp). intros m a Hm.
           apply (Hno m a). by rewrite lookup_app_l by (by eapply lookup_lt_Some).
        -- apply (Hno (length h) s).
           by rewrite Hi, lookup_app_r, Nat.sub_diag by lia.
      * rewrite list_lookup_insert_ne in Ht by done.
        apply (Hzero _ _ _ _ Ht Hp). intros m a Hm.
        apply (Hno m a). by rewrite lookup_app_l by (by eapply lookup_lt_Some).
    + intros t b' ax m a Ht Hm Hlater.
      destruct (decide (m = length h)) as [->|Hmn].
      * rewrite lookup_app_r, Nat.sub_diag in Hm by lia. simpl in Hm.
        injection Hm as Ei ->. subst i. rewrite Nat2Z.id in *.
        rewrite list_lookup_insert_eq in Ht by (by eapply lookup_lt_Some).
        injection Ht as <-. rewrite axis_buf_written, Hidx, HW.
        apply list_lookup_insert_eq. by rewrite Hlenb.
      * assert (m < length h).
        { apply lookup_lt_Some in Hm. rewrite length_app in Hm. simpl in Hm. lia. }
        rewrite lookup_app_l in Hm by done.
        assert (Hlater' : ∀ (m' : nat) a', m < m' →
                  h !! m' = Some (Z.of_nat t, a') → m' mod 800 ≠ m mod 800).
        { intros m' a' Hlt' Hm'. apply (Hlater m' a' Hlt').
          by rewrite lookup_app_l by (by eapply lookup_lt_Some). }
        destruct (decide (t = Z.to_nat i)) as [->|Hne].
        -- rewrite list_lookup_insert_eq in Ht by (by eapply lookup_lt_Some).
           injection Ht as <-. rewrite axis_buf_written, Hidx, HW.
           rewrite list_lookup_insert_ne.
           ++ by apply (Hlast _ _ _ _ _ Hb Hm).
           ++ apply (Hlater (length h) s); [done|].
              by rewrite Hi, lookup_app_r, Nat.sub_diag by lia.
        -- rewrite list_lookup_insert_ne in Ht by done.
           by apply (Hlast _ _ _ _ _ Ht Hm).
    + intros t b' p Ht Hp.
      destruct (decide (t = Z.to_nat i)) as [->|Hne].
      * rewrite list_lookup_insert_eq in Ht by (by eapply lookup_lt_Some).
        injection Ht as <-.
        destruct (decide (p = length h mod 800)) as [->|Hpn].
        -- left. exists s. intros ax. rewrite axis_buf_written, Hidx, HW.
           apply list_lookup_insert_eq. by rewrite Hlenb.
        -- destruct (Halign _ _ p Hb Hp) as [[a Ha]|Hz].
           ++ left. exists a. intros ax. rewrite axis_buf_written, Hidx, HW.
              by rewrite list_lookup_insert_ne.
           ++ right. intros ax. rewrite axis_buf_written, Hidx, HW.
              by rewrite list_lookup_insert_ne.
      * rewrite list_lookup_insert_ne in Ht by done. by apply (Halign _ _ _ Ht).
    + intros t cv b' Hcv Ht.
      destruct (decide (t = Z.to_nat i)) as [->|Hne].
      * rewrite list_lookup_insert_eq in Ht by (by eapply lookup_lt_Some).
        injection Ht as <-.
        rewrite list_lookup_insert_eq in Hcv by (by rewrite (wf_plots _ Hwf)).
        injection Hcv as <-. right. exists (length h), s. split; [|split].
        -- by rewrite Hi, lookup_app_r, Nat.sub_diag by lia.
        -- intros m' a' Hlt' Hm'. apply lookup_lt_Some in Hm'.
           rewrite length_app in Hm'. simpl in Hm'. lia.
        -- unfold plotted. by rewrite Hidx, HW, Hxs.
      * rewrite list_lookup_insert_ne in Ht by done.
        rewrite list_lookup_insert_ne in Hcv by done.
        assert (Hnew : ∀ a, (h ++ [(i, s)]) !! length h ≠ Some (Z.of_nat t, a)).
        { intros a. rewrite lookup_app_r, Nat.sub_diag by lia. simpl.
          intros [= E _]. apply Hne. rewrite E. by rewrite Nat2Z.id. }
        assert (Hold : ∀ (m : nat) a, m ≠ length h →
                  (h ++ [(i, s)]) !! m = Some (Z.of_nat t, a) →
                  h !! m = Some (Z.of_nat t, a)).
        { intros m a Hm Hlk. pose proof (lookup_lt_Some _ _ _ Hlk) as Hl.
          rewrite length_app in Hl. simpl in Hl.
          by rewrite lookup_app_l in Hlk by lia. }
        destruct (Hplot _ _ _ Hcv Ht) as [[-> Hnone]|(m & a & Hm & Hlater & ->)].
        -- left. split; [done|]. intros m a Hlk.
           destruct (decide (m = length h)) as [->|Hm]; [by eapply Hnew|].
           by eapply Hnone, Hold.
        -- right. exists m, a. split; [|split; [|done]].
           ++ by rewrite lookup_app_l by (by eapply lookup_lt_Some).
           ++ intros m' a' Hlt' Hlk.
              destruct (decide (m' = length h)) as [->|Hm']; [by eapply Hnew|].
              by eapply Hlater, Hold.
Qed.

Lemma slots_run (calls : list (Z * SensorSample F)) :
  ∃ st, addSamples (TimeSeriesTab_init f0) calls = Ok st ∧
        addSamples (TimeSeriesTab_init f0) (accepted calls) = Ok st.
Proof.
  destruct (slots_inv (accepted calls) (accepted_valid calls)) as (st & Hrun & _).
  exists st. by rewrite addSamples_accepted.
Qed.

(** X1: from the initial tab no sequence of calls raises, whatever the
    indices; the tab keeps five sensors with three buffers of 800 values,
    the shared index counts the accepted calls, and a sensor's curves are
    empty or 800 long over the axis 0..799. *)
Theorem addSamples_keeps_shape (calls : list (Z * SensorSample F)) :
  ∃ st,
    addSamples (TimeSeriesTab_init f0) calls = Ok st ∧
    _index st = length (accepted calls) ∧
    _window st = 800 ∧
    length (_buffers st) = 5 ∧ length (_plots st) = 5 ∧
    (∀ (t : nat) b ax, _buffers st !! t = Some b → length (axis_buf ax b) = 800) ∧
    (∀ (t : nat) cv, _plots st !! t = Some cv →
       cv = mkCurves [] [] [] [] ∨
       (curve_axis cv = seq 0 800 ∧ ∀ ax, length (axis_curve ax cv) = 800)).
Proof.
  destruct (slots_inv (accepted calls) (accepted_valid calls))
    as (st & Hrun & Hinv & _ & _ & _ & _ & Hplot).
  pose proof (inv_wf f0 _ _ Hinv) as Hwf.
  pose proof (inv_window f0 _ _ Hinv) as HW.
  exists st. rewrite addSamples_accepted.
  split; [done|]. split; [apply Hinv|]. split; [done|].
  split; [apply Hwf|]. split; [apply Hwf|]. split.
  - intros t b ax Hb. rewrite <- HW. by eapply (wf_axis _ Hwf).
  - intros t cv Hcv.
    assert (is_Some (_buffers st !! t)) as [b Hb].
    { apply lookup_lt_is_Some. rewrite (wf_buffers _ Hwf), <- (wf_plots _ Hwf).
      by eapply lookup_lt_Some. }
    destruct (Hplot _ _ _ Hcv Hb) as [[-> _]|(m & a & _ & _ & ->)]; [by left|].
    right. split; [done|]. intros ax.
    pose proof (wf_axis _ Hwf _ _ ax Hb) as Hlen. rewrite HW in Hlen.
    destruct ax; simpl in *; by rewrite length_rotate.
Qed.

(** X2: a call for one sensor leaves the buffers and the curves of every
    other sensor as they were; only the shared index moves. *)
Theorem addSample_leaves_others (calls : list (Z * SensorSample F)) (i : Z)
    (s : SensorSample F) (t : nat) :
  valid_index i = true → t ≠ Z.to_nat i →
  ∃ st st',
    addSamples (TimeSeriesTab_init f0) calls = Ok st ∧
    addSample st i s = Ok st' ∧
    _buffers st' !! t = _buffers st !! t ∧
    _plots st' !! t = _plots st !! t ∧
    _index st' = S (_index st).
Proof.
  intros Hi Ht.
  destruct (slots_inv (accepted calls) (accepted_valid calls))
    as (st & Hrun & Hinv & _).
  pose proof (inv_wf f0 _ _ Hinv) as Hwf.
  destruct (valid_index_nat i Hi) as [_ Hlt].
  assert (is_Some (_buffers st !! Z.to_nat i)) as [b Hb].
  { apply lookup_lt_is_Some. by rewrite (wf_buffers _ Hwf). }
  eexists st, _. rewrite addSamples_accepted. split; [done|].
  split; [by apply addSample_valid|]. cbn [_buffers _plots _index].
  by rewrite !list_lookup_insert_ne by done.
Qed.

(** X3: what a buffer slot holds.  A slot no accepted call of the sensor
    has landed on is still zero; a slot holds the sample of the sensor's
    latest call that landed on it, however long ago that was, until a later
    call of the same sensor lands on the same slot. *)
Theorem slot_contents (calls : list (Z * SensorSample F)) :
  ∃ st,
    addSamples (TimeSeriesTab_init f0) calls = Ok st ∧
    (∀ (t : nat) b ax (p : nat), _buffers st !! t = Some b → p < 800 →
       (∀ (m : nat) a, accepted calls !! m = Some (Z.of_nat t, a) →
          m mod 800 ≠ p) →
       axis_buf ax b !! p = Some f0) ∧
    (∀ (t : nat) b ax (m : nat) a, _buffers st !! t = Some b →
       accepted calls !! m = Some (Z.of_nat t, a) →
       (∀ (m' : nat) a', m < m' →
          accepted calls !! m' = Some (Z.of_nat t, a') →
          m' mod 800 ≠ m mod 800) →
       axis_buf ax b !! (m mod 800) = Some (axis_val ax a)).
Proof.
  destruct (slots_inv (accepted calls) (accepted_valid calls))
    as (st & Hrun & _ & _ & Hzero & Hlast & _).
  exists st. rewrite addSamples_accepted. done.
Qed.

(** The latest call of a sensor that landed on a slot, if any did. *)
Lemma latest_landing (h : list (Z * SensorSample F)) (t p : nat) :
  (∃ (m : nat) a,
     h !! m = Some (Z.of_nat t, a) ∧ m mod 800 = p ∧
     ∀ (m' : nat) a', m < m' → h !! m' = Some (Z.of_nat t, a') → m' mod 800 ≠ p) ∨
  (∀ (m : nat) a, h !! m = Some (Z.of_nat t, a) → m mod 800 ≠ p).
Proof.
  induction h as [|[i s] h IH] using rev_ind.
  - right. intros m a Hm. by rewrite lookup_nil in Hm.
  - destruct (decide (i = Z.of_nat t ∧ length h mod 800 = p)) as [[-> Hp]|Hn].
    + left. exists (length h), s.
      split; [by rewrite lookup_app_r, Nat.sub_diag by lia|]. split; [done|].
      intros m' a' Hlt Hm'. apply lookup_lt_Some in Hm'.
      rewrite length_app in Hm'. simpl in Hm'. lia.
    + assert (Hold : ∀ (m : nat) a,
                (h ++ [(i, s)]) !! m = Some (Z.of_nat t, a) → m mod 800 = p →
                h !! m = Some (Z.of_nat t, a)).
      { intros m a Hm Hp. destruct (decide (m = length h)) as [->|Hne].
        - rewrite lookup_app_r, Nat.sub_diag in Hm by lia. simpl in Hm.
          injection Hm as -> ->. by destruct Hn.
        - pose proof (lookup_lt_Some _ _ _ Hm) as Hl.
          rewrite length_app in Hl. simpl in Hl.
          by rewrite lookup_app_l in Hm by lia. }
      destruct IH as [(m & a & Hm & Hp & Hlater)|Hnone].
      * left. exists m, a.
        split; [by rewrite lookup_app_l by (by eapply lookup_lt_Some)|].
        split; [done|].
        intros m' a' Hlt Hm' Hp'. apply (Hlater m' a' Hlt); [by apply Hold|done].
      * right. intros m a Hm Hp. apply (Hnone m a); [by apply Hold|done].
Qed.

(** X4: the three axes stay aligned.  At every slot of a sensor, either
    some accepted call of that sensor landed on the slot and the x, y and z
    buffers hold the three coordinates of the sample of one such call, or
    no accepted call of the sensor landed on it and all three are still
    zero. *)
Theorem axes_stay_aligned (calls : list (Z * SensorSample F)) :
  ∃ st,
    addSamples (TimeSeriesTab_init f0) calls = Ok st ∧
    ∀ (t : nat) b (p : nat), _buffers st !! t = Some b → p < 800 →
      (∃ (m : nat) a,
         accepted calls !! m = Some (Z.of_nat t, a) ∧ m mod 800 = p ∧
         buf_x b !! p = Some (x_mm a) ∧ buf_y b !! p = Some (y_mm a) ∧
         buf_z b !! p = Some (z_mm a)) ∨
      ((∀ (m : nat) a, accepted calls !! m = Some (Z.of_nat t, a) → m mod 800 ≠ p) ∧
       buf_x b !! p = Some f0 ∧ buf_y b !! p = Some f0 ∧ buf_z b !! p = Some f0).
Proof.
  destruct (slots_inv (accepted calls) (accepted_valid calls))
    as (st & Hrun & _ & _ & Hzero & Hlast & _).
  exists st. rewrite addSamples_accepted. split; [done|].
  intros t b p Hb Hp.
  destruct (latest_landing (accepted calls) t p)
    as [(m & a & Hm & Hmp & Hlater)|Hnone].
  - left. exists m, a. split; [done|]. split; [done|].
    assert (Hax : ∀ ax, axis_buf ax b !! p = Some (axis_val ax a)).
    { intros ax. rewrite <- Hmp. apply (Hlast t b ax m a Hb Hm).
      intros m' a' Hlt Hm'. rewrite Hmp. by apply (Hlater m' a'). }
    split; [apply (Hax AxX)|]. split; [apply (Hax AxY)|apply (Hax AxZ)].
  - right. split; [done|].
    split; [apply (Hzero t b AxX p Hb Hp Hnone)|].
    split; [apply (Hzero t b AxY p Hb Hp Hnone)|apply (Hzero t b AxZ p Hb Hp Hnone)].
Qed.

(** X5: a sensor's curves are never out of date.  They are empty exactly
    as long as no accepted call went to the sensor; afterwards they are its
    current buffers, rotated so that the slot of its latest call is at index
    799, whatever calls to other sensors came in between. *)
Theorem curves_are_rotated_buffers (calls : list (Z * SensorSample F)) :
  ∃ st,
    addSamples (TimeSeriesTab_init f0) calls = Ok st ∧
    ∀ (t : nat) cv b, _plots st !! t = Some cv → _buffers st !! t = Some b →
      (cv = mkCurves [] [] [] [] ∧
       ∀ (m : nat) a, accepted calls !! m ≠ Some (Z.of_nat t, a)) ∨
      (∃ (m : nat) a,
         accepted calls !! m = Some (Z.of_nat t, a) ∧
         (∀ (m' : nat) a', m < m' →
            accepted calls !! m' ≠ Some (Z.of_nat t, a')) ∧
         curve_axis cv = seq 0 800 ∧
         ∀ ax (j : nat), j < 800 →
           axis_curve ax cv !! j = axis_buf ax b !! ((m + 1 + j) mod 800)).
Proof.
  destruct (slots_inv (accepted calls) (accepted_valid calls))
    as (st & Hrun & Hinv & _ & _ & _ & _ & Hplot).
  pose proof (inv_wf f0 _ _ Hinv) as Hwf.
  pose proof (inv_window f0 _ _ Hinv) as HW.
  exists st. rewrite addSamples_accepted. split; [done|].
  intros t cv b Hcv Hb.
  destruct (Hplot _ _ _ Hcv Hb) as [?|(m & a & Hm & Hlater & ->)]; [by left|].
  right. exists m, a. split; [done|]. split; [done|]. split; [done|].
  intros ax j Hj.
  pose proof (wf_axis _ Hwf _ _ ax Hb) as Hlen. rewrite HW in Hlen.
  assert (Hidx : ((m mod 800 + 1) mod 800 + j) mod 800 = (m + 1 + j) mod 800).
  { rewrite Nat.Div0.add_mod_idemp_l.
    rewrite <- Nat.add_assoc, Nat.Div0.add_mod_idemp_l. f_equal. lia. }
  destruct ax; cbn [axis_curve axis_buf curve_x curve_y curve_z] in *;
    rewrite lookup_rotate_mod by lia; by rewrite Hlen, Hidx.
Qed.

Lemma round_calls_lookup (rounds : list (list (SensorSample F))) (m : nat) i a :
  Forall (λ r, length r = 5) rounds →
  round_calls rounds !! m = Some (i, a) → i = Z.of_nat (m mod 5).
Proof.
  unfold round_calls. intros Hall. revert m.
  induction Hall as [|r rounds Hr _ IH]; intros m Hm; [done|].
  rewrite fmap_cons in Hm. cbn [concat] in Hm.
  destruct r as [|a0 [|a1 [|a2 [|a3 [|a4 [|? ?]]]]]]; try done.
  destruct (decide (m < 5)) as [Hlt|Hge].
  - rewrite lookup_app_l in Hm by (simpl; lia).
    destruct m as [|[|[|[|[|m]]]]]; simpl in Hm; try lia;
      by injection Hm as <- _.
  - rewrite lookup_app_r in Hm by (simpl; lia).
    cbn [length zip zip_with range5] in Hm.
    rewrite (IH _ Hm). f_equal.
    replace m with (m - 5 + 1 * 5) at 2 by lia.
    by rewrite Nat.Div0.mod_add.
Qed.

Lemma round_calls_valid (rounds : list (list (SensorSample F))) :
  Forall (λ r, length r = 5) rounds →
  Forall (λ c, valid_index c.1 = true) (round_calls rounds).
Proof.
  intros Hall. apply Forall_lookup. intros m [i a] Hm.
  rewrite (round_calls_lookup _ _ _ _ Hall Hm). cbn [fst].
  pose proof (Nat.mod_upper_bound m 5 ltac:(lia)).
  unfold valid_index. apply andb_true_intro.
  split; [apply Z.leb_le|apply Z.ltb_lt]; lia.
Qed.

Lemma mod_800_mod_5 (m : nat) : (m mod 800) mod 5 = m mod 5.
Proof.
  replace 800 with (5 * 160) by done.
  rewrite Nat.Div0.mod_mul_r, Nat.mul_comm, Nat.Div0.mod_add.
  apply Nat.Div0.mod_mod.
Qed.

(** X6: when the calls come in rounds over the five sensors, as for
    flat-CSV lines, a sensor only ever writes the slots whose number is
    congruent to its own modulo 5, so four slots in five of each buffer
    stay zero for good, and each curve is zero everywhere except at the
    indices 4, 9, ..., 799. *)
Theorem rounds_leave_gaps (rounds : list (list (SensorSample F))) :
  Forall (λ r, length r = 5) rounds →
  ∃ st,
    addSamples (TimeSeriesTab_init f0) (round_calls rounds) = Ok st ∧
    ∀ (t : nat) b cv ax,
      _buffers st !! t = Some b → _plots st !! t = Some cv →
      (∀ p : nat, p < 800 → p mod 5 ≠ t → axis_buf ax b !! p = Some f0) ∧
      (rounds ≠ [] →
       ∀ j : nat, j < 800 → j mod 5 ≠ 4 → axis_curve ax cv !! j = Some f0).
Proof.
  intros Hall. pose proof (round_calls_valid rounds Hall) as Hvalid.
  destruct (slots_inv (round_calls rounds) Hvalid)
    as (st & Hrun & Hinv & _ & Hzero & _ & _ & Hplot).
  pose proof (inv_wf f0 _ _ Hinv) as Hwf.
  pose proof (inv_window f0 _ _ Hinv) as HW.
  exists st. split; [done|]. intros t b cv ax Hb Hcv.
  assert (Hgap : ∀ p : nat, p < 800 → p mod 5 ≠ t → axis_buf ax b !! p = Some f0).
  { intros p Hp Hpt. apply (Hzero _ _ _ _ Hb Hp). intros m a Hm E.
    apply (round_calls_lookup _ _ _ _ Hall) in Hm.
    apply Nat2Z.inj in Hm. apply Hpt. by rewrite <- E, mod_800_mod_5. }
  split; [done|]. intros Hne j Hj Hj4.
  destruct (Hplot _ _ _ Hcv Hb) as [[_ Hnone]|(m & a & Hm & _ & ->)].
  - exfalso.
    assert (Ht : t < 5).
    { rewrite <- (wf_buffers _ Hwf). by eapply lookup_lt_Some. }
    destruct rounds as [|r rounds]; [done|].
    apply Forall_cons in Hall as [Hr _].
    destruct r as [|a0 [|a1 [|a2 [|a3 [|a4 [|? ?]]]]]]; try discriminate Hr.
    destruct t as [|[|[|[|[|t]]]]]; try lia.
    + apply (Hnone 0 a0). reflexivity.
    + apply (Hnone 1 a1). reflexivity.
    + apply (Hnone 2 a2). reflexivity.
    + apply (Hnone 3 a3). reflexivity.
    + apply (Hnone 4 a4). reflexivity.
  - apply (round_calls_lookup _ _ _ _ Hall) in Hm. apply Nat2Z.inj in Hm.
    pose proof (wf_axis _ Hwf _ _ ax Hb) as Hlen. rewrite HW in Hlen.
    assert (Hidx : ((m mod 800 + 1) mod 800 + j) mod 800 = (m + 1 + j) mod 800).
    { rewrite Nat.Div0.add_mod_idemp_l.
      rewrite <- Nat.add_assoc, Nat.Div0.add_mod_idemp_l. f_equal. lia. }
    assert (Hslot : axis_curve ax
              (mkCurves (seq 0 800)
                 (rotate ((m mod 800 + 1) mod 800) (buf_x b))
                 (rotate ((m mod 800 + 1) mod 800) (buf_y b))
                 (rotate ((m mod 800 + 1) mod 800) (buf_z b))) !! j
            = axis_buf ax b !! ((m + 1 + j) mod 800)).
    { destruct ax; cbn [axis_curve axis_buf curve_x curve_y curve_z] in *;
        rewrite lookup_rotate_mod by lia; by rewrite Hlen, Hidx. }
    rewrite Hslot. apply Hgap; [apply Nat.mod_upper_bound; lia|].
    rewrite mod_800_mod_5. subst t. clear -Hj4. intros E. apply Hj4.
    pose proof (Nat.div_mod_eq m 5). pose proof (Nat.div_mod_eq j 5).
    pose proof (Nat.div_mod_eq (m + 1 + j) 5).
    pose proof (Nat.mod_upper_bound j 5 ltac:(lia)).
    pose proof (Nat.mod_upper_bound m 5 ltac:(lia)).
    lia.
Qed.

End TimeSeriesMore.

(** ** More about the text operations *)

Lemma lstrip_head (s : string) c r : lstrip s = String c r → isspace c = false.
Proof.
  induction s as [|a s IH]; [done|]. simpl.
  destruct (isspace a) eqn:Ha; [done|]. by intros [= <- _].
Qed.

Lemma lstrip_fixed (c : ascii) (r : string) :
  isspace c = false → lstrip (String c r) = String c r.
Proof. intros H. simpl. by rewrite H. Qed.

Lemma lstrip_idem (s : string) : lstrip (lstrip s) = lstrip s.
Proof.
  destruct (lstrip s) as [|c r] eqn:E; [done|].
  apply lstrip_fixed. by eapply lstrip_head.
Qed.

Lemma rstrip_idem (s : string) : rstrip (rstrip s) = rstrip s.
Proof.
  induction s as [|c s IH]; [done|]. simpl.
  destruct (rstrip s) as [|c' r] eqn:E.
  - destruct (isspace c) eqn:Hc; [done|]. simpl. by rewrite Hc.
  - cbn [rstrip]. cbn [rstrip] in IH. by rewrite IH.
Qed.

Lemma rstrip_head (c : ascii) (s : string) :
  isspace c = false → ∃ r, rstrip (String c s) = String c r.
Proof.
  intros Hc. simpl. destruct (rstrip s); [rewrite Hc|]; by eauto.
Qed.

Lemma strip_idem (s : string) : strip (strip s) = strip s.
Proof.
  unfold strip. destruct (lstrip s) as [|c t] eqn:E; [done|].
  pose proof (lstrip_head _ _ _ E) as Hc.
  destruct (rstrip_head c t Hc) as [r Hr]. rewrite Hr.
  rewrite (lstrip_fixed c r Hc), <- Hr. apply rstrip_idem.
Qed.

Lemma lstrip_spaces (a s : string) :
  all_space a = true → lstrip (a ++ s) = lstrip s.
Proof.
  unfold all_space. induction a as [|c a IH]; [done|]. simpl.
  destruct (isspace c); simpl; [|done]. apply IH.
Qed.

Lemma rstrip_spaces_only (b : string) : all_space b = true → rstrip b = "".
Proof.
  unfold all_space. induction b as [|c b IH]; [done|]. simpl.
  destruct (isspace c) eqn:Hc; simpl; [|done].
  intros H. by rewrite (IH H).
Qed.

Lemma rstrip_spaces (s b : string) :
  all_space b = true → rstrip (s ++ b) = rstrip s.
Proof.
  intros Hb. induction s as [|c s IH]; simpl.
  - change (String.append "" b) with b. by apply rstrip_spaces_only.
  - by rewrite IH.
Qed.

Lemma lstrip_spaces_only (b : string) : all_space b = true → lstrip b = "".
Proof.
  unfold all_space. induction b as [|c b IH]; [done|]. simpl.
  destruct (isspace c); simpl; [|done]. apply IH.
Qed.

Lemma strip_app_spaces (s b : string) :
  all_space b = true → strip (s ++ b) = strip s.
Proof.
  intros Hb. unfold strip. induction s as [|c s IH]; simpl.
  - change (String.append "" b) with b. by rewrite (lstrip_spaces_only b Hb).
  - destruct (isspace c); [done|].
    change (String c (s +:+ b)) with (String c s +:+ b). by apply rstrip_spaces.
Qed.

(** Blanks around a text do not change what [strip] returns. *)
Lemma strip_pad (a s b : string) :
  all_space a = true → all_space b = true → strip (a ++ s ++ b) = strip s.
Proof.
  intros Ha Hb. unfold strip at 1. rewrite (lstrip_spaces a _ Ha).
  by apply strip_app_spaces.
Qed.

Lemma has_char_app (p : ascii → bool) (s t : string) :
  has_char p (s ++ t) = has_char p s || has_char p t.
Proof.
  induction s as [|c s IH]; [done|]. simpl. by rewrite IH, orb_assoc.
Qed.

Lemma has_char_lstrip (p : ascii → bool) (s : string) :
  has_char p s = false → has_char p (lstrip s) = false.
Proof.
  induction s as [|c s IH]; [done|]. simpl.
  intros [Hc Hs]%orb_false_elim.
  destruct (isspace c); [by apply IH|]. simpl. by rewrite Hc, Hs.
Qed.

Lemma has_char_rstrip (p : ascii → bool) (s : string) :
  has_char p s = false → has_char p (rstrip s) = false.
Proof.
  induction s as [|c s IH]; [done|]. simpl.
  intros [Hc Hs]%orb_false_elim. specialize (IH Hs).
  destruct (rstrip s) as [|c' r].
  - destruct (isspace c); [done|]. simpl. by rewrite Hc.
  - cbn [has_char]. cbn [has_char] in IH. by rewrite Hc, IH.
Qed.

Lemma has_char_strip (p : ascii → bool) (s : string) :
  has_char p s = false → has_char p (strip s) = false.
Proof. intros H. by apply has_char_rstrip, has_char_lstrip. Qed.

(** No piece of a split holds a separator. *)
Lemma split_on_pieces (p : ascii → bool) (s t : string) :
  t ∈ split_on p s → has_char p t = false.
Proof.
  revert t. induction s as [|c s IH]; intros t; simpl.
  - by intros ->%list_elem_of_singleton.
  - destruct (p c) eqn:Hc.
    + intros [->|Ht]%elem_of_cons; [done|by apply IH].
    + destruct (split_on p s) as [|w ws] eqn:E.
      * intros ->%list_elem_of_singleton. simpl. by rewrite Hc.
      * intros [->|Ht]%elem_of_cons.
        -- simpl. rewrite Hc. apply IH. by left.
        -- apply IH. by right.
Qed.

Lemma split_on_nonempty (p : ascii → bool) (s : string) : split_on p s ≠ [].
Proof.
  destruct s as [|c s]; [done|]. simpl.
  destruct (p c); [done|]. by destruct (split_on p s).
Qed.

Lemma digit_not_space (c : ascii) : isdigit c = true → isspace c = false.
Proof. destruct c as [[] [] [] [] [] [] [] []]; vm_compute; congruence. Qed.

Lemma space_not_digit (c : ascii) : isspace c = true → isdigit c = false.
Proof. destruct c as [[] [] [] [] [] [] [] []]; vm_compute; congruence. Qed.

Lemma lower_s_not_space (c : ascii) :
  Ascii.eqb (lower_char c) "s" = true → isspace c = false.
Proof. destruct c as [[] [] [] [] [] [] [] []]; vm_compute; congruence. Qed.

Lemma match_ci_lower (lit w r : string) :
  lower w = lit → match_ci lit (w ++ r) = Some r.
Proof.
  revert lit. induction w as [|c w IH]; intros lit <-; simpl.
  - by destruct r.
  - rewrite Ascii.eqb_refl. by apply IH.
Qed.

Lemma span_digits_app (d r : string) :
  all_digits d = true →
  match r with String c _ => isdigit c = false | EmptyString => True end →
  span_digits (d ++ r) = (d, r).
Proof.
  unfold all_digits. intros Hd Hr. induction d as [|c d IH]; simpl.
  - destruct r as [|c r]; [done|]. simpl. by rewrite Hr.
  - simpl in Hd. destruct (isdigit c); simpl in Hd; [|done].
    by rewrite (IH Hd).
Qed.

Lemma match_tail_line (p : string) : has_newline p = false → match_tail p = Some p.
Proof. unfold match_tail. by intros ->. Qed.

(** ** More about the line parser *)

Section ParserMore.
Context {F : Type} (fadd fmul : F → F → F) (fsqrt : F → F).
Context (fs : string → option F).

Local Abbreviation parse := (_parse_line_multi fadd fmul fsqrt).

(** X7: every token handed to [float] is non-empty, free of commas and
    free of blanks at both ends. *)
Theorem tokens_are_trimmed (s t : string) :
  t ∈ comma_parts s →
  is_empty t = false ∧ has_char is_comma t = false ∧ strip t = t.
Proof.
  unfold comma_parts. intros [He Ht]%list_elem_of_filter.
  apply list_elem_of_fmap in Ht as (w & -> & Hw).
  split; [done|]. split.
  - by apply has_char_strip, (split_on_pieces _ s).
  - apply strip_idem.
Qed.




(** X9: blanks before and after a line, the carriage return of a CRLF
    line ending among them, do not change what the parser returns. *)
Theorem blanks_do_not_matter (a text b : string) :
  all_space a = true → all_space b = true →
  parse fs (a ++ text ++ b) = parse fs text.
Proof.
  intros Ha Hb. unfold _parse_line_multi.
  by rewrite (strip_pad a text b Ha Hb).
Qed.

End ParserMore.

(** X10: the label pattern accepts the word sensor in any mix of cases,
    with or without blanks before it, around the number and after the
    colon, and returns the digits and the rest of the text unchanged. *)
Theorem label_is_matched (ws0 w ws1 d ws2 ws3 p : string) :
  all_space ws0 = true → lower w = "sensor" →
  all_space ws1 = true → all_digits d = true → is_empty d = false →
  all_space ws2 = true → all_space ws3 = true →
  has_newline p = false → lstrip p = p →
  re_match_sensor (ws0 ++ w ++ ws1 ++ d ++ ws2 ++ ":" ++ ws3 ++ p) = Some (d, p).
Proof.
  intros H0 Hw H1 Hd Hne H2 H3 Hp Hl. unfold re_match_sensor.
  rewrite (lstrip_spaces ws0 _ H0).
  destruct w as [|c w]; [done|].
  assert (Hc : isspace c = false).
  { apply lower_s_not_space. simpl in Hw. injection Hw as -> _. done. }
  change (String c w +:+ ?r) with (String c (w +:+ r)).
  rewrite (lstrip_fixed c _ Hc).
  change (String c (w +:+ ?r)) with (String c w +:+ r).
  rewrite (match_ci_lower "sensor" (String c w) _ Hw).
  rewrite (lstrip_spaces ws1 _ H1).
  destruct d as [|c' d]; [done|].
  assert (Hc' : isdigit c' = true).
  { unfold all_digits in Hd. simpl in Hd. by destruct (isdigit c'). }
  change (String c' d +:+ ?r) with (String c' (d +:+ r)).
  rewrite (lstrip_fixed c' _ (digit_not_space c' Hc')).
  change (String c' (d +:+ ?r)) with (String c' d +:+ r).
  rewrite (span_digits_app (String c' d) _ Hd).
  - cbn [is_empty]. rewrite (lstrip_spaces ws2 _ H2).
    change (":" +:+ ?r) with (String ":" r). cbn [lstrip].
    change (isspace ":") with false. cbv iota.
    rewrite Ascii.eqb_refl, (lstrip_spaces ws3 _ H3), Hl.
    by rewrite (match_tail_line p Hp).
  - destruct ws2 as [|c2 ws2]; simpl; [done|].
    apply space_not_digit. unfold all_space in H2. simpl in H2.
    by destruct (isspace c2).
Qed.

(** ** More about the dispatch *)

Section DispatchMore.
Context {F : Type} (fadd fmul : F → F → F) (fsqrt : F → F).
Context (fs : string → option F) (clock : nat → Q).

Local Abbreviation parse := (_parse_line_multi fadd fmul fsqrt fs).
Local Abbreviation line := (process_line fadd fmul fsqrt fs).
Local Abbreviation disp := (dispatch fadd fmul fsqrt fs clock).

Lemma latest_nil (c : gmap Z (SensorSample F)) : latest [] c c.
Proof. intros i. split; [done|]. intros k s Hk. by rewrite lookup_nil in Hk. Qed.

Lemma latest_app (s1 s2 : list (Signal F)) (c0 c1 c2 : gmap Z (SensorSample F)) :
  latest s1 c0 c1 → latest s2 c1 c2 → latest (s1 ++ s2) c0 c2.
Proof.
  intros H1 H2 i. destruct (H1 i) as [H1n H1l], (H2 i) as [H2n H2l]. split.
  - intros Hno. rewrite H2n, H1n; [done| |].
    + intros k s Hk. apply (Hno k s). by rewrite lookup_app_l by (by eapply lookup_lt_Some).
    + intros k s Hk. apply (Hno (length s1 + k) s).
      by rewrite lookup_app_r, Nat.add_sub' by lia.
  - intros k s Hk Hlater.
    destruct (decide (k < length s1)) as [Hlt|Hge].
    + rewrite lookup_app_l in Hk by done.
      rewrite H2n.
      * apply (H1l k s Hk). intros k' s' Hk' Hs'.
        apply (Hlater k' s' Hk'). by rewrite lookup_app_l by (by eapply lookup_lt_Some).
      * intros k' s' Hs'. apply (Hlater (length s1 + k') s'); [lia|].
        by rewrite lookup_app_r, Nat.add_sub' by lia.
    + rewrite lookup_app_r in Hk by lia.
      apply (H2l _ s Hk). intros k' s' Hk' Hs'.
      apply (Hlater (length s1 + k') s'); [lia|].
      by rewrite lookup_app_r, Nat.add_sub' by lia.
Qed.

Lemma latest_one (c : gmap Z (SensorSample F)) (i : Z) (s : SensorSample F) :
  latest [sampleReceived i s] c (<[i := s]> c).
Proof.
  intros j. split.
  - intros Hno. apply lookup_insert_ne. intros ->. by apply (Hno 0 s).
  - intros k s' Hk _. destruct k as [|k]; [|done].
    injection Hk as -> ->. apply lookup_insert_eq.
Qed.

Lemma latest_emit (cache : gmap Z (SensorSample F)) updates :
  latest (signals_of updates) cache (emit_updates cache updates).1.
Proof.
  revert cache. induction updates as [|[i s] updates IH]; intros cache.
  - apply latest_nil.
  - simpl. specialize (IH (<[i := s]> cache)).
    destruct (emit_updates (<[i := s]> cache) updates) as [cache' signals].
    simpl in *.
    apply (latest_app [sampleReceived i s] _ _ (<[i := s]> cache)); [|done].
    apply latest_one.
Qed.

Lemma emit_keys (cache : gmap Z (SensorSample F)) updates (i : Z) :
  is_Some ((emit_updates cache updates).1 !! i) →
  is_Some (cache !! i) ∨ i ∈ updates.*1.
Proof.
  revert cache. induction updates as [|[j s] updates IH]; intros cache; [by left|].
  simpl. specialize (IH (<[j := s]> cache)).
  destruct (emit_updates (<[j := s]> cache) updates) as [cache' signals].
  simpl in *. intros Hi. destruct (IH Hi) as [Hc|Hin].
  - destruct (decide (i = j)) as [->|Hne]; [right; by left|].
    rewrite lookup_insert_ne in Hc by done. by left.
  - right. by right.
Qed.

Lemma process_line_cache (self : SerialWorker F) (now : Q) (raw : string)
    self' signals :
  line self now raw = Ok (self', signals) →
  latest signals (_last_by_sensor self) (_last_by_sensor self') ∧
  (∀ i, is_Some (_last_by_sensor self' !! i) →
        is_Some (_last_by_sensor self !! i) ∨ (0 ≤ i ≤ 4)%Z).
Proof.
  destruct (parse (strip raw)) as [updates|e] eqn:Hp.
  - rewrite (process_line_cases fadd fmul fsqrt fs self now raw updates Hp).
    destruct (negb _ && _).
    + intros [= <- <-]. split; [apply latest_emit|].
      intros i Hi. cbn [forwarded _last_by_sensor] in Hi.
      destruct (emit_keys _ _ _ Hi) as [?|Hin]; [by left|]. right.
      destruct (parse_ok_inv fadd fmul fsqrt fs _ _ Hp) as [_ Hall].
      apply list_elem_of_fmap in Hin as ([j s] & -> & Hin).
      rewrite Forall_forall in Hall. apply (Hall _ Hin).
    + intros [= <- <-]. split; [apply latest_nil|by left].
  - by rewrite (process_line_raises fadd fmul fsqrt fs self now raw e Hp).
Qed.

Lemma dispatch_cache (st : LoopState) (lines : list string) :
  ∃ st' o new,
    disp st lines = (st', o) ∧
    ls_signals st' = ls_signals st ++ new ∧
    latest new (_last_by_sensor (ls_self st)) (_last_by_sensor (ls_self st')) ∧
    (∀ i, is_Some (_last_by_sensor (ls_self st') !! i) →
          is_Some (_last_by_sensor (ls_self st) !! i) ∨ (0 ≤ i ≤ 4)%Z).
Proof.
  revert st. induction lines as [|raw lines IH]; intros st.
  - exists st, None, []. rewrite app_nil_r.
    split; [done|]. split; [done|]. split; [apply latest_nil|by left].
  - cbn [dispatch].
    destruct (line (ls_self st) (clock (ls_ticks st)) raw)
      as [[self' signals]|e] eqn:Hl.
    + destruct (process_line_cache _ _ _ _ _ Hl) as [Hlat Hkeys].
      destruct (IH (mkLoop self' (ls_buffer st)
                      (if reads_clock fadd fmul fsqrt fs raw
                       then S (ls_ticks st) else ls_ticks st)
                      (ls_signals st ++ signals)))
        as (st' & o & new & -> & Hs & Hlat' & Hkeys').
      cbn [ls_self ls_signals] in Hs, Hlat', Hkeys'.
      exists st', o, (signals ++ new). split; [done|].
      split; [by rewrite Hs, app_assoc|]. split.
      * by eapply latest_app.
      * intros i Hi. destruct (Hkeys' i Hi) as [Hc|?]; [|by right].
        by apply Hkeys.
    + exists st, (Some e), []. rewrite app_nil_r.
      split; [done|]. split; [done|]. split; [apply latest_nil|by left].
Qed.

(** X11: the cache [_last_by_sensor] follows the signals sent.  After the
    loop over any lines, whether it ran to the end or an exception left
    it, the entry of a sensor is the sample of the last signal sent for it
    in that loop, an entry without signal is as it was before, and
    starting from the empty cache only the keys 0 to 4 ever appear. *)
Theorem cache_holds_last_signal (st : LoopState) (lines : list string) :
  ∃ st' o new,
    disp st lines = (st', o) ∧
    ls_signals st' = ls_signals st ++ new ∧
    (∀ i : Z,
       ((∀ (k : nat) s, new !! k ≠ Some (sampleReceived i s)) →
        _last_by_sensor (ls_self st') !! i = _last_by_sensor (ls_self st) !! i) ∧
       (∀ (k : nat) s, new !! k = Some (sampleReceived i s) →
          (∀ (k' : nat) s', k < k' → new !! k' ≠ Some (sampleReceived i s')) →
          _last_by_sensor (ls_self st') !! i = Some s)) ∧
    (_last_by_sensor (ls_self st) = ∅ →
     ∀ i, is_Some (_last_by_sensor (ls_self st') !! i) → (0 ≤ i ≤ 4)%Z).
Proof.
  destruct (dispatch_cache st lines) as (st' & o & new & Hrun & Hs & Hl & Hk).
  exists st', o, new. split; [done|]. split; [done|]. split; [exact Hl|].
  intros He i Hi. destruct (Hk i Hi) as [Hc|?]; [|done].
  rewrite He, lookup_empty in Hc. by destruct Hc.
Qed.

End DispatchMore.

(** ** More about splitting *)

Lemma string_app_assoc (a b c : string) : ((a +:+ b) +:+ c) = (a +:+ (b +:+ c)).
Proof.
  induction a as [|x a IH]; [done|].
  change (String x ((a +:+ b) +:+ c) = String x (a +:+ (b +:+ c))).
  by rewrite IH.
Qed.

Lemma string_app_nil_r (a : string) : (a +:+ "") = a.
Proof.
  induction a as [|x a IH]; [done|].
  change (String x (a +:+ "") = String x a). by rewrite IH.
Qed.

Lemma is_empty_app (a b : string) : is_empty a = false → is_empty (a +:+ b) = false.
Proof. by destruct a. Qed.

Lemma has_newline_has_char (s : string) : has_newline s = has_char is_newline s.
Proof. induction s as [|c s IH]; [done|]. simpl. by rewrite IH. Qed.

Lemma split_on_none (p : ascii → bool) (s : string) :
  has_char p s = false → split_on p s = [s].
Proof.
  induction s as [|c s IH]; [done|]. simpl.
  intros [Hc Hs]%orb_false_elim. by rewrite Hc, (IH Hs).
Qed.

Lemma split_on_last (p : ascii → bool) (s : string) :
  has_char p (default "" (last (split_on p s))) = false.
Proof.
  pose proof (split_on_nonempty p s) as Hne.
  destruct (last (split_on p s)) as [t|] eqn:E.
  - simpl. apply (split_on_pieces p s). by eapply last_Some_elem_of.
  - by apply last_None in E.
Qed.

(** Splitting a text made of two parts: the pieces of the first part
    without its last, that last piece joined to the first piece of the
    second part, and the other pieces of the second part. *)
Lemma split_on_app (p : ascii → bool) (s t : string) :
  split_on p (s +:+ t) =
    removelast (split_on p s) ++
    match split_on p t with
    | h :: tl => (default "" (last (split_on p s)) +:+ h) :: tl
    | [] => []
    end.
Proof.
  pose proof (split_on_nonempty p t) as Ht.
  destruct (split_on p t) as [|h tl] eqn:Et; [done|]. clear Ht.
  induction s as [|c s IH].
  - change ("" +:+ t) with t. by rewrite Et.
  - change (String c s +:+ t) with (String c (s +:+ t)).
    cbn [split_on]. rewrite IH. clear IH.
    pose proof (split_on_nonempty p s) as Hne.
    destruct (split_on p s) as [|w0 ws0]; [done|].
    destruct (p c).
    + by destruct ws0.
    + by destruct ws0 as [|w1 ws1].
Qed.

(** The pieces of a text in two parts: the pieces of the first part less
    its last, then the pieces of that last piece followed by the second
    part. *)
Lemma split_on_app_buffer (p : ascii → bool) (s t : string) :
  split_on p (s +:+ t) =
    removelast (split_on p s) ++
    split_on p (default "" (last (split_on p s)) +:+ t).
Proof.
  rewrite (split_on_app p s t).
  rewrite (split_on_app p (default "" (last (split_on p s))) t).
  rewrite (split_on_none p _ (split_on_last p s)).
  by destruct (split_on p t).
Qed.

Lemma complete_lines_app (s t : string) :
  complete_lines (s +:+ t) =
    complete_lines s ++
    complete_lines (default "" (last (split_on is_newline s)) +:+ t).
Proof.
  unfold complete_lines. rewrite (split_on_app_buffer is_newline s t).
  rewrite removelast_app; [done|]. apply split_on_nonempty.
Qed.

Lemma last_line_app (s t : string) :
  last (split_on is_newline (s +:+ t)) =
    last (split_on is_newline (default "" (last (split_on is_newline s)) +:+ t)).
Proof.
  rewrite (split_on_app_buffer is_newline s t), last_app.
  pose proof (split_on_nonempty is_newline
                (default "" (last (split_on is_newline s)) +:+ t)) as Hne.
  set (X := split_on is_newline (default "" (last (split_on is_newline s)) +:+ t)) in *.
  destruct (last X) eqn:E; [done|]. by apply last_None in E.
Qed.

Lemma complete_lines_none (s : string) :
  has_char is_newline s = false → complete_lines s = [].
Proof. intros H. unfold complete_lines. by rewrite (split_on_none _ _ H). Qed.

Lemma join_chunks_app (c1 c2 : list string) :
  join_chunks (c1 ++ c2) = (join_chunks c1 +:+ join_chunks c2).
Proof.
  induction c1 as [|c c1 IH]; [done|].
  change (join_chunks ((c :: c1) ++ c2)) with (c +:+ join_chunks (c1 ++ c2)).
  change (join_chunks (c :: c1)) with (c +:+ join_chunks c1).
  by rewrite IH, string_app_assoc.
Qed.

Lemma read_chunks_oks (chunks : list string) : read_chunks (Ok <$> chunks) = chunks.
Proof.
  induction chunks as [|c chunks IH]; [done|].
  rewrite fmap_cons. cbn [read_chunks]. by rewrite IH.
Qed.

Lemma read_chunks_app (r1 r2 : list (Exc string)) :
  read_chunks (r1 ++ r2) = read_chunks r1 ++ read_chunks r2.
Proof.
  induction r1 as [|[c|e] r1 IH]; [done| |]; cbn [app read_chunks]; by rewrite IH.
Qed.

(** The reads up to the first that raises. *)
Lemma reads_split (reads : list (Exc string)) :
  ∃ chunks rest,
    reads = (Ok <$> chunks) ++ rest ∧
    (rest = [] ∨ ∃ e rest', rest = Raise e :: rest').
Proof.
  induction reads as [|[c|e] reads IH].
  - exists [], []. by split; [|left].
  - destruct IH as (chunks & rest & -> & Hrest).
    exists (c :: chunks), rest. by split.
  - exists [], (Raise e :: reads). split; [done|]. right. by eauto.
Qed.

(** ** The read loop *)

Section StartFacts.
Context {F : Type} (fadd fmul : F → F → F) (fsqrt : F → F).
Context (fs : string → option F) (str_of_exn : exn → string) (clock : nat → Q).

Local Abbreviation parse := (_parse_line_multi fadd fmul fsqrt fs).
Local Abbreviation line := (process_line fadd fmul fsqrt fs).
Local Abbreviation disp := (dispatch fadd fmul fsqrt fs clock).
Local Abbreviation iter := (iteration fadd fmul fsqrt fs str_of_exn clock).
Local Abbreviation loop := (read_loop fadd fmul fsqrt fs str_of_exn clock).

(** One line of the loop: [ValueError] when its sensor number is too long
    for [int], otherwise some signals, none of them [finished], and a
    worker that still runs on the same port. *)
Lemma process_line_result (self : SerialWorker F) (now : Q) (raw : string) :
  if has_long_number (strip raw) then line self now raw = Raise ValueError
  else
    ∃ self' signals,
      line self now raw = Ok (self', signals) ∧
      _running self' = _running self ∧ _serial self' = _serial self ∧
      _port_name self' = _port_name self ∧
      Forall (λ g, g ≠ finished) signals.
Proof.
  pose proof (parse_cases fadd fmul fsqrt fs (strip raw)) as Hc.
  destruct (has_long_number (strip raw)).
  - by apply process_line_raises.
  - destruct Hc as (updates & Hp & _).
    rewrite (process_line_cases fadd fmul fsqrt fs self now raw updates Hp).
    destruct (negb _ && _).
    + eexists _, _. split; [done|]. repeat split.
      unfold signals_of. apply Forall_fmap, Forall_forall. by intros [i s] _.
    + eexists _, _. split; [done|]. by repeat split.
Qed.

(** The loop over the lines: it keeps the buffer, the port and the
    running flag, sends no [finished], and is left by an exception exactly
    when one of the lines has a number too long for [int]. *)
Lemma dispatch_facts (st : LoopState) (lines : list string) :
  ∃ st' o,
    disp st lines = (st', o) ∧
    ls_buffer st' = ls_buffer st ∧
    _running (ls_self st') = _running (ls_self st) ∧
    _serial (ls_self st') = _serial (ls_self st) ∧
    _port_name (ls_self st') = _port_name (ls_self st) ∧
    (∃ more, ls_signals st' = ls_signals st ++ more ∧
             Forall (λ g, g ≠ finished) more) ∧
    match o with
    | None => Forall (λ raw, has_long_number (strip raw) = false) lines
    | Some e =>
        e = ValueError ∧ Exists (λ raw, has_long_number (strip raw) = true) lines
    end.
Proof.
  revert st. induction lines as [|raw lines IH]; intros st.
  - exists st, None. repeat split; try done. exists []. by rewrite app_nil_r.
  - cbn [dispatch].
    pose proof (process_line_result (ls_self st) (clock (ls_ticks st)) raw) as Hl.
    destruct (has_long_number (strip raw)) eqn:Hlong.
    + rewrite Hl. exists st, (Some ValueError). repeat split; try done.
      * exists []. by rewrite app_nil_r.
      * by apply Exists_cons_hd.
    + destruct Hl as (self' & signals & -> & Hr & Hs & Hp & Hf).
      destruct (IH (mkLoop self' (ls_buffer st)
                      (if reads_clock fadd fmul fsqrt fs raw
                       then S (ls_ticks st) else ls_ticks st)
                      (ls_signals st ++ signals)))
        as (st' & o & -> & Hb' & Hr' & Hs' & Hp' & (more & Hm & Hfm) & Ho).
      exists st', o. cbn [ls_buffer ls_self ls_signals] in *.
      split; [done|]. split; [done|]. split; [congruence|].
      split; [congruence|]. split; [congruence|]. split.
      * exists (signals ++ more). rewrite Hm, <- app_assoc. split; [done|].
        by apply Forall_app.
      * destruct o as [e|].
        -- destruct Ho as [-> Hex]. split; [done|]. by apply Exists_cons_tl.
        -- by apply Forall_cons.
Qed.

Lemma dispatch_buffer (self : SerialWorker F) (b b2 : string) t s lines st' o :
  disp (mkLoop self b t s) lines = (st', o) →
  disp (mkLoop self b2 t s) lines =
    (mkLoop (ls_self st') b2 (ls_ticks st') (ls_signals st'), o).
Proof.
  revert self t s. induction lines as [|raw lines IH]; intros self t s.
  - cbn [dispatch]. by intros [= <- <-].
  - cbn [dispatch ls_self ls_ticks ls_buffer ls_signals].
    destruct (line self (clock t) raw) as [[self' signals]|e].
    + apply IH.
    + by intros [= <- <-].
Qed.

Lemma dispatch_app (st st1 : LoopState) (l1 l2 : list string) :
  disp st l1 = (st1, None) → disp st (l1 ++ l2) = disp st1 l2.
Proof.
  revert st. induction l1 as [|raw l1 IH]; intros st.
  - cbn [dispatch]. by intros [= <-].
  - cbn [dispatch app].
    destruct (line (ls_self st) (clock (ls_ticks st)) raw) as [[self' signals]|e];
      [apply IH|done].
Qed.

Lemma dispatch_app_raise (st st1 : LoopState) (l1 l2 : list string) e :
  disp st l1 = (st1, Some e) → disp st (l1 ++ l2) = (st1, Some e).
Proof.
  revert st. induction l1 as [|raw l1 IH]; intros st.
  - cbn [dispatch]. done.
  - cbn [dispatch app].
    destruct (line (ls_self st) (clock (ls_ticks st)) raw) as [[self' signals]|e'];
      [apply IH|done].
Qed.

Lemma read_loop_nil (st : LoopState) :
  _running (ls_self st) = true → loop st [] = (st, false).
Proof. intros H. cbn [read_loop]. by rewrite H. Qed.

Lemma read_loop_cons (st : LoopState) r reads :
  _running (ls_self st) = true →
  loop st (r :: reads) =
    match iter st r with
    | (st', true) => (st', true)
    | (st', false) => loop st' reads
    end.
Proof. intros H. cbn [read_loop]. by rewrite H. Qed.

Lemma read_loop_app (st : LoopState) (r1 r2 : list (Exc string)) :
  loop st (r1 ++ r2) =
    match loop st r1 with
    | (st', true) => (st', true)
    | (st', false) => loop st' r2
    end.
Proof.
  revert st. induction r1 as [|r r1 IH]; intros st.
  - cbn [app read_loop]. destruct (_running (ls_self st)) eqn:Hr; cbn [negb].
    + done.
    + destruct r2; cbn [read_loop]; by rewrite Hr.
  - cbn [app read_loop]. destruct (negb _); [done|].
    destruct (iter st r) as [st' []]; [done|apply IH].
Qed.

(** What the loop makes of chunks that were read: what the loop over the
    completed lines of the whole text makes of them, the text after the
    last line feed waiting in the buffer. *)
Lemma read_loop_chunks (chunks : list string) (self : SerialWorker F)
    (b : string) (t : nat) (s : list (Signal F)) std o :
  _running self = true →
  has_char is_newline b = false →
  disp (mkLoop self b t s) (complete_lines (b +:+ join_chunks chunks)) = (std, o) →
  ∃ st',
    loop (mkLoop self b t s) (Ok <$> chunks)
      = (st', match o with Some _ => true | None => false end) ∧
    ls_self st' = ls_self std ∧ ls_ticks st' = ls_ticks std ∧
    match o with
    | None =>
        ls_signals st' = ls_signals std ∧
        ls_buffer st' =
          default "" (last (split_on is_newline (b +:+ join_chunks chunks)))
    | Some e =>
        ls_signals st' =
          ls_signals std ++ [statusChanged ("Serial read error: " ++ str_of_exn e)]
    end.
Proof.
  revert self b t s std o.
  induction chunks as [|c chunks IH]; intros self b t s std o Hrun Hb Hd.
  - change (join_chunks []) with "" in *. rewrite string_app_nil_r in *.
    rewrite (complete_lines_none b Hb) in Hd. cbn [dispatch] in Hd.
    injection Hd as <- <-.
    exists (mkLoop self b t s). rewrite fmap_nil, read_loop_nil by done.
    split; [done|]. split; [done|]. split; [done|]. split; [done|].
    by rewrite (split_on_none _ _ Hb).
  - rewrite fmap_cons, read_loop_cons by done.
    change (join_chunks (c :: chunks)) with (c +:+ join_chunks chunks) in *.
    unfold iteration. destruct (is_empty c) eqn:Hc.
    + destruct c; [|done]. change ("" +:+ join_chunks chunks) with (join_chunks chunks) in *.
      by apply IH.
    + cbv zeta. cbn [ls_buffer ls_self ls_ticks ls_signals].
      rewrite <- string_app_assoc in Hd |- *.
      rewrite complete_lines_app in Hd.
      set (B1 := default "" (last (split_on is_newline (b +:+ c)))) in *.
      fold (complete_lines (b +:+ c)).
      assert (HB1 : has_char is_newline B1 = false) by apply split_on_last.
      destruct (dispatch_facts (mkLoop self B1 t s) (complete_lines (b +:+ c)))
        as (st1 & o1 & Hd1 & Hb1 & Hr1 & _).
      cbn [ls_buffer ls_self] in Hb1, Hr1.
      rewrite Hd1.
      pose proof (dispatch_buffer _ _ b _ _ _ _ _ Hd1) as Hd1b.
      destruct o1 as [e1|].
      * rewrite (dispatch_app_raise _ _ _ _ _ Hd1b) in Hd.
        injection Hd as <- <-.
        exists (read_error str_of_exn st1 e1). by repeat split.
      * rewrite (dispatch_app _ _ _ _ Hd1b) in Hd.
        apply (dispatch_buffer _ _ B1) in Hd.
        cbn [ls_self ls_ticks ls_signals] in Hd.
        destruct st1 as [self1 b1 t1 s1]. cbn [ls_buffer ls_self] in *. subst b1.
        destruct (IH self1 B1 t1 s1 _ o ltac:(congruence) HB1 Hd)
          as (st' & Hl & Hs & Ht & Ho).
        exists st'. split; [exact Hl|]. cbn [ls_self ls_ticks ls_signals] in Hs, Ht, Ho.
        split; [done|]. split; [done|].
        destruct o as [e|]; [done|].
        destruct Ho as [Hsig Hbuf]. split; [done|].
        by rewrite Hbuf, (last_line_app (b +:+ c)).
Qed.

(** X12: where the reads cut the text does not matter.  Any sequence of
    chunks, as [decode] returned them, leaves the loop as the same text
    read as one chunk leaves it: the same worker, the same signals, the
    same clock readings taken, and the loop is left in the one case exactly
    when it is left in the other, which is when a completed line has a
    sensor number too long for [int].  While the loop runs on, the text
    after the last line feed is not parsed; it waits in the buffer, which
    holds no line feed. *)
Theorem chunking_does_not_matter (self : SerialWorker F) (ticks : nat)
    (signals : list (Signal F)) (chunks : list string) :
  _running self = true →
  ∃ st1 st2 exited,
    loop (mkLoop self "" ticks signals) (Ok <$> chunks) = (st1, exited) ∧
    loop (mkLoop self "" ticks signals) [Ok (join_chunks chunks)] = (st2, exited) ∧
    ls_self st1 = ls_self st2 ∧ ls_signals st1 = ls_signals st2 ∧
    ls_ticks st1 = ls_ticks st2 ∧
    (exited = true ↔
       ∃ raw, raw ∈ complete_lines (join_chunks chunks) ∧
              has_long_number (strip raw) = true) ∧
    (exited = false →
       st1 = st2 ∧
       ls_buffer st1 =
         default "" (last (split_on is_newline (join_chunks chunks))) ∧
       has_newline (ls_buffer st1) = false).
Proof.
  intros Hrun.
  destruct (dispatch_facts (mkLoop self "" ticks signals)
              (complete_lines (join_chunks chunks)))
    as (std & o & Hd & _ & _ & _ & _ & _ & Ho).
  destruct (read_loop_chunks chunks self "" ticks signals std o Hrun eq_refl Hd)
    as (st1 & Hl1 & Hs1 & Ht1 & Ho1).
  assert (Hd' : disp (mkLoop self "" ticks signals)
                  (complete_lines ("" +:+ join_chunks [join_chunks chunks])) = (std, o)).
  { change (join_chunks [join_chunks chunks]) with (join_chunks chunks +:+ "").
    by rewrite string_app_nil_r. }
  destruct (read_loop_chunks [join_chunks chunks] self "" ticks signals std o
              Hrun eq_refl Hd')
    as (st2 & Hl2 & Hs2 & Ht2 & Ho2).
  change (join_chunks [join_chunks chunks]) with (join_chunks chunks +:+ "") in Ho2.
  rewrite string_app_nil_r in Ho2.
  change ("" +:+ join_chunks chunks) with (join_chunks chunks) in *.
  exists st1, st2, (match o with Some _ => true | None => false end).
  split; [exact Hl1|]. split; [exact Hl2|].
  split; [congruence|]. split; [destruct o; [|destruct Ho1, Ho2]; congruence|].
  split; [congruence|]. split.
  - destruct o as [e|].
    + destruct Ho as [_ Hex]. split; [|done]. intros _.
      apply Exists_exists in Hex as (raw & Hin & Hraw). by exists raw.
    + split; [done|]. intros (raw & Hin & Hraw).
      rewrite Forall_forall in Ho. specialize (Ho raw Hin). congruence.
  - destruct o as [e|]; [done|]. intros _.
    destruct Ho1 as [Hsig1 Hb1], Ho2 as [Hsig2 Hb2].
    split; [|split; [exact Hb1|]].
    + destruct st1, st2. cbn [ls_self ls_ticks ls_signals ls_buffer] in *.
      congruence.
    + rewrite has_newline_has_char, Hb1. apply split_on_last.
Qed.

(** The loop over any reads, from a buffer without a line feed. *)
Lemma read_loop_facts (self : SerialWorker F) (b : string) (t : nat)
    (s : list (Signal F)) (reads : list (Exc string)) :
  _running self = true →
  has_char is_newline b = false →
  ∃ st' exited,
    loop (mkLoop self b t s) reads = (st', exited) ∧
    _serial (ls_self st') = _serial self ∧
    _port_name (ls_self st') = _port_name self ∧
    (∃ more, ls_signals st' = s ++ more ∧ Forall (λ g, g ≠ finished) more) ∧
    (exited = true ↔
       (∃ e, Raise e ∈ reads) ∨
       (∃ raw, raw ∈ complete_lines (b +:+ join_chunks (read_chunks reads)) ∧
               has_long_number (strip raw) = true)).
Proof.
  intros Hrun Hb.
  destruct (reads_split reads) as (chunks & rest & -> & Hrest).
  rewrite read_chunks_app, read_chunks_oks, join_chunks_app.
  rewrite <- string_app_assoc, complete_lines_app.
  destruct (dispatch_facts (mkLoop self b t s)
              (complete_lines (b +:+ join_chunks chunks)))
    as (std & o & Hd & _ & Hr & Hs & Hp & (more & Hm & Hf) & Ho).
  cbn [ls_self ls_signals] in Hr, Hs, Hp, Hm.
  destruct (read_loop_chunks chunks self b t s std o Hrun Hb Hd)
    as (st1 & Hl1 & Hs1 & Ht1 & Ho1).
  rewrite read_loop_app, Hl1.
  assert (Hnr : ∀ e, Raise e ∉ (Ok <$> chunks : list (Exc string))).
  { intros e (c & Hc & _)%list_elem_of_fmap. done. }
  destruct o as [e|].
  - destruct Ho as [_ Hex]. exists st1, true. split; [done|].
    split; [congruence|]. split; [congruence|]. split.
    + eexists. rewrite Ho1, Hm, <- app_assoc. split; [done|].
      apply Forall_app. split; [done|]. by repeat constructor.
    + split; [|done]. intros _. right.
      apply Exists_exists in Hex as (raw & Hin & Hraw). exists raw.
      split; [|done]. apply elem_of_app. by left.
  - destruct Ho1 as [Hsig1 Hb1].
    assert (Hrun1 : _running (ls_self st1) = true) by congruence.
    destruct Hrest as [->|(e & rest' & ->)].
    + rewrite read_loop_nil by done. exists st1, false. split; [done|].
      split; [congruence|]. split; [congruence|]. split.
      * exists more. split; [congruence|done].
      * split; [done|]. rewrite app_nil_r.
        change (read_chunks []) with (@nil string).
        change (join_chunks []) with "". rewrite string_app_nil_r.
        rewrite (complete_lines_none _ (split_on_last is_newline _)), app_nil_r.
        intros [[e He]|(raw & Hin & Hraw)].
        -- by apply Hnr in He.
        -- rewrite Forall_forall in Ho. specialize (Ho raw Hin). congruence.
    + rewrite read_loop_cons by done. cbn [iteration].
      exists (read_error str_of_exn st1 e), true. split; [done|].
      cbn [read_error ls_self ls_signals].
      split; [congruence|]. split; [congruence|]. split.
      * eexists. rewrite Hsig1, Hm, <- app_assoc. split; [done|].
        apply Forall_app. split; [done|]. by repeat constructor.
      * split; [|done]. intros _. left. exists e.
        apply elem_of_app. right. by left.
Qed.

Lemma cleanup_closes (self : SerialWorker F) (port : Serial) (w : World) :
  _serial self = Some port →
  ∃ self', _cleanup self w = (mkWorld (close_log w ++ [ser_port port]), Ok self') ∧
           _serial self' = None.
Proof.
  intros Hs. unfold _cleanup, io_bind, io_try, io_ret, serial_close.
  rewrite Hs. destruct (ser_close_raises port); by eexists.
Qed.

(** X13: how [start] ends.  It never raises.  When it returns, [finished]
    is its last signal and is sent once; while it still waits for a read,
    [finished] has not been sent.  If the port cannot be opened nothing is
    closed.  Once the port is open and reset, [start] returns exactly when
    a read raises or a completed line of the text read has a sensor number
    too long for [int], the parser's [ValueError] being caught by the
    handler of the read errors; it has then called [close] exactly once
    and dropped the port; otherwise it has closed nothing and still holds
    the port. *)
Theorem start_lifecycle (self : SerialWorker F) (opened : Exc Serial)
    (reset : Exc unit) (reads : list (Exc string)) (w : World) :
  ∃ out w',
    start fadd fmul fsqrt fs str_of_exn clock self opened reset reads w
      = (w', Ok out) ∧
    (if out_returned out
     then ∃ before, out_signals out = before ++ [finished] ∧ finished ∉ before
     else finished ∉ out_signals out) ∧
    match opened, reset with
    | Ok port, Ok _ =>
        (out_returned out = true ↔
           (∃ e, Raise e ∈ reads) ∨
           (∃ raw, raw ∈ complete_lines (join_chunks (read_chunks reads)) ∧
                   has_long_number (strip raw) = true)) ∧
        (if out_returned out
         then close_log w' = close_log w ++ [ser_port port] ∧
              _serial (out_self out) = None
         else w' = w ∧ _serial (out_self out) = Some port)
    | Ok port, Raise _ =>
        out_returned out = true ∧ w' = w ∧
        _serial (out_self out) = Some port ∧ _running (out_self out) = false
    | Raise _, _ =>
        out_returned out = true ∧ w' = w ∧
        _serial (out_self out) = _serial self ∧ _running (out_self out) = false
    end.
Proof.
  unfold start. destruct opened as [port|e].
  - destruct reset as [[]|e].
    + destruct (read_loop_facts
                  (set_serial (set_running self true) (Some port)) "" 0
                  [statusChanged
                     ("Connected to " ++
                      _port_name (set_serial (set_running self true) (Some port)))]
                  reads eq_refl eq_refl)
        as (st' & exited & -> & Hs & _ & (more & Hm & Hf) & Hex).
      cbn [set_serial set_running _serial] in Hs.
      change ("" +:+ join_chunks (read_chunks reads))
        with (join_chunks (read_chunks reads)) in Hex.
      assert (Hnf : finished ∉ ls_signals st').
      { rewrite Hm. intros [Hin|Hin]%elem_of_app.
        - by apply list_elem_of_singleton in Hin.
        - rewrite Forall_forall in Hf. by apply (Hf _ Hin). }
      destruct exited.
      * destruct (cleanup_closes (ls_self st') port w Hs) as (self' & Hc & Hn).
        unfold io_bind. rewrite Hc. unfold io_ret.
        eexists _, _. split; [done|]. cbn [out_returned out_signals out_self close_log].
        split; [by exists (ls_signals st')|]. split; [done|done].
      * unfold io_ret. eexists _, _. split; [done|].
        cbn [out_returned out_signals out_self]. split; [done|]. split; [done|done].
    + unfold io_ret. eexists _, _. split; [done|].
      cbn [out_returned out_signals out_self]. split.
      * eexists [_]. split; [done|]. by intros ?%list_elem_of_singleton.
      * done.
  - unfold io_ret. eexists _, _. split; [done|].
    cbn [out_returned out_signals out_self]. split.
    + eexists [_]. split; [done|]. by intros ?%list_elem_of_singleton.
    + done.
Qed.

(** X14: when the port opens but [reset_input_buffer] raises, [start]
    reports the error and returns without closing the port: the worker
    still holds it, and it is the next [stop] that closes it, once. *)
Theorem reset_failure_leaves_port_open (self : SerialWorker F) (port : Serial)
    (e : exn) (reads : list (Exc string)) (w : World) :
  ∃ out self',
    start fadd fmul fsqrt fs str_of_exn clock self (Ok port) (Raise e) reads w
      = (w, Ok out) ∧
    _serial (out_self out) = Some port ∧
    out_signals out =
      [statusChanged ("ERROR: Could not open " ++ _port_name self ++ ": "
                        ++ str_of_exn e);
       finished] ∧
    stop (out_self out) w = (mkWorld (close_log w ++ [ser_port port]), Ok self') ∧
    _serial self' = None.
Proof.
  unfold start, io_ret. eexists _, _. split; [done|].
  cbn [out_self out_signals]. split; [done|]. split; [done|].
  unfold stop, _cleanup, io_bind, io_try, io_ret, serial_close.
  cbn [set_running set_serial _serial _port_name _baudrate _running _last_update
       _update_interval _last_by_sensor].
  destruct (ser_close_raises port); by split.
Qed.

End StartFacts.

(** ** The main window *)

Section WidgetFacts.
Context {F : Type} (f0 : F).

Lemma py_index_5 {A} (l : list A) (i : Z) :
  length l = 5 →
  py_index l i =
    if (0 <=? i)%Z && (i <? 5)%Z then Ok (Z.to_nat i)
    else if (-5 <=? i)%Z && (i <? 0)%Z then Ok (Z.to_nat (i + 5))
    else Raise IndexError.
Proof.
  intros Hl. unfold py_index. rewrite Hl. cbv zeta.
  destruct (Z.ltb_spec i 0), (Z.leb_spec 0 i), (Z.ltb_spec i 5),
    (Z.leb_spec (-5) i); simpl; try lia;
  repeat match goal with
  | |- context [(?a <=? ?b)%Z] => destruct (Z.leb_spec a b); try lia
  | |- context [(?a <? ?b)%Z] => destruct (Z.ltb_spec a b); try lia
  end; simpl; try done.
Qed.

Lemma onSamples_snoc (w : MainWindow) updates (u : Z * SensorSample F) :
  onSamples w (updates ++ [u]) = (w' ← onSamples w updates; _onSample w' u.1 u.2).
Proof.
  revert w. induction updates as [|[i s] updates IH]; intros w; simpl.
  - destruct u as [i s]. simpl. by destruct (_onSample w i s).
  - destruct (_onSample w i s) as [w'|e]; simpl; [apply IH|done].
Qed.

(** What the window holds after a run of signals with valid indices. *)
Lemma onSamples_inv (h : list (Z * SensorSample F)) :
  Forall (λ c, valid_index c.1 = true) h →
  ∃ w, onSamples (MainWindow_init f0) h = Ok w ∧
    length (_finger_states (_hand w)) = 5 ∧ length (_panels w) = 5 ∧
    addSamples (TimeSeriesTab_init f0) h = Ok (_timeSeries w) ∧
    tab_wf (_timeSeries w) ∧
    (∀ t : nat, _state <$> _panels w !! t = _finger_states (_hand w) !! t) ∧
    (∀ t : nat, t < 5 → (∀ (k : nat) s, h !! k ≠ Some (Z.of_nat t, s)) →
       _finger_states (_hand w) !! t = Some (mkSample f0 f0 f0 f0)) ∧
    (∀ (t k : nat) s, h !! k = Some (Z.of_nat t, s) →
       (∀ (k' : nat) s', k < k' → h !! k' ≠ Some (Z.of_nat t, s')) →
       _finger_states (_hand w) !! t = Some s).
Proof.
  induction h as [|[i s] h IH] using rev_ind; intros Hall.
  - exists (MainWindow_init f0). split; [done|].
    unfold MainWindow_init, HandOverlayWidget_init.
    cbn [_hand _panels _timeSeries _finger_states].
    split; [by rewrite length_replicate|]. split; [by rewrite length_replicate|].
    split; [done|]. split; [apply tab_wf_init|]. split; [|split].
    + intros t. destruct (decide (t < 5)) as [Ht|Ht].
      * by rewrite !lookup_replicate_2 by done.
      * by rewrite !lookup_ge_None_2 by (rewrite length_replicate; lia).
    + intros t Ht _. by apply lookup_replicate_2.
    + intros t k s' Hk. by rewrite lookup_nil in Hk.
  - apply Forall_app in Hall as [Hh Hc]. rewrite Forall_singleton in Hc.
    simpl in Hc.
    destruct (IH Hh) as (w & Hrun & Hlf & Hlp & Hts & Hwf & Hagree & Hzero & Hlast).
    destruct (valid_index_nat i Hc) as [Hi Hlt].
    assert (is_Some (_buffers (_timeSeries w) !! Z.to_nat i)) as [b Hb].
    { apply lookup_lt_is_Some. by rewrite (wf_buffers _ Hwf). }
    assert (is_Some (_panels w !! Z.to_nat i)) as [panel Hpanel].
    { apply lookup_lt_is_Some. by rewrite Hlp. }
    pose proof (addSample_valid (_timeSeries w) i s b Hwf Hc Hb) as Hadd.
    assert (Hstep : _onSample w i s =
      Ok (mkWindow (mkHand (<[Z.to_nat i := s]> (_finger_states (_hand w))))
            (<[Z.to_nat i := mkPanel s]> (_panels w))
            (mkTab (_window (_timeSeries w))
               (<[Z.to_nat i := written (_timeSeries w) s b]>
                  (_buffers (_timeSeries w)))
               (S (_index (_timeSeries w))) (_x_axis (_timeSeries w))
               (<[Z.to_nat i := plotted (_timeSeries w)
                                  (written (_timeSeries w) s b)]>
                  (_plots (_timeSeries w)))))).
    { unfold _onSample, setFingerSample. unfold valid_index in Hc. rewrite Hc.
      unfold py_setitem. rewrite decide_True by lia. rewrite !bind_Ok.
      rewrite (py_index_5 _ i Hlp), Hc, bind_Ok.
      unfold py_getitem. rewrite Hpanel, bind_Ok, Hadd, bind_Ok. done. }
    eexists. split.
    { rewrite onSamples_snoc, Hrun, bind_Ok. exact Hstep. }
    cbn [_hand _panels _timeSeries _finger_states].
    split; [by rewrite length_insert|]. split; [by rewrite length_insert|].
    split; [by rewrite addSamples_snoc, Hts, bind_Ok|].
    split.
    { destruct (addSamples_inv f0 (h ++ [(i, s)])) as (st & Hst & Hinv).
      - apply Forall_app. split; [done|]. by apply Forall_singleton.
      - rewrite addSamples_snoc, Hts, bind_Ok in Hst. simpl in Hst.
        rewrite Hadd in Hst. injection Hst as <-. apply Hinv. }
    split; [|split].
    + intros t. destruct (decide (t = Z.to_nat i)) as [->|Hne].
      * by rewrite !list_lookup_insert_eq by lia.
      * by rewrite !list_lookup_insert_ne by done.
    + intros t Ht Hno. rewrite list_lookup_insert_ne.
      * apply Hzero; [done|]. intros k s' Hk. apply (Hno k s').
        by rewrite lookup_app_l by (by eapply lookup_lt_Some).
      * intros <-. apply (Hno (length h) s).
        by rewrite Hi, lookup_app_r, Nat.sub_diag by lia.
    + intros t k s' Hk Hlater.
      destruct (decide (k = length h)) as [->|Hk'].
      * rewrite lookup_app_r, Nat.sub_diag in Hk by lia. simpl in Hk.
        injection Hk as Ei ->. subst i. rewrite Nat2Z.id.
        apply list_lookup_insert_eq. rewrite Nat2Z.id in Hlt. lia.
      * assert (k < length h).
        { apply lookup_lt_Some in Hk. rewrite length_app in Hk. simpl in Hk. lia. }
        rewrite lookup_app_l in Hk by done.
        rewrite list_lookup_insert_ne.
        -- apply (Hlast t k s' Hk). intros k' s'' Hlt' Hk''.
           apply (Hlater k' s'' Hlt').
           by rewrite lookup_app_l by (by eapply lookup_lt_Some).
        -- intros <-. apply (Hlater (length h) s); [done|].
           by rewrite Hi, lookup_app_r, Nat.sub_diag by lia.
Qed.

(** X15: the window as a store of the latest sample.  Signals with
    indices 0 to 4 never make [_onSample] raise; afterwards the hand and
    the panel of each sensor both hold the sample of the last signal for
    that sensor, or the zero sample if there was none, and the time-series
    tab has received every signal in order. *)
Theorem window_holds_latest (h : list (Z * SensorSample F)) :
  Forall (λ c, valid_index c.1 = true) h →
  ∃ w,
    onSamples (MainWindow_init f0) h = Ok w ∧
    addSamples (TimeSeriesTab_init f0) h = Ok (_timeSeries w) ∧
    (∀ t : nat, t < 5 → (∀ (k : nat) s, h !! k ≠ Some (Z.of_nat t, s)) →
       _finger_states (_hand w) !! t = Some (mkSample f0 f0 f0 f0) ∧
       _panels w !! t = Some (mkPanel (mkSample f0 f0 f0 f0))) ∧
    (∀ (t k : nat) s, h !! k = Some (Z.of_nat t, s) →
       (∀ (k' : nat) s', k < k' → h !! k' ≠ Some (Z.of_nat t, s')) →
       _finger_states (_hand w) !! t = Some s ∧
       _panels w !! t = Some (mkPanel s)).
Proof.
  intros Hall.
  destruct (onSamples_inv h Hall)
    as (w & Hrun & _ & _ & Hts & _ & Hagree & Hzero & Hlast).
  assert (Hpanel : ∀ (t : nat) v, _finger_states (_hand w) !! t = Some v →
            _panels w !! t = Some (mkPanel v)).
  { intros t v Hv. specialize (Hagree t). rewrite Hv in Hagree.
    destruct (_panels w !! t) as [[v']|]; [|done]. simpl in Hagree. congruence. }
  exists w. split; [done|]. split; [done|]. split.
  - intros t Ht Hno. split; [by apply Hzero|]. by apply Hpanel, Hzero.
  - intros t k s Hk Hlater. split; [by eapply Hlast|]. by eapply Hpanel, Hlast.
Qed.

(** X17: outside 0..4 the three parts of [_onSample] disagree.  An index
    from -5 to -1 passes the guards of the hand and of the tab untouched,
    but the list of panels counts it from the end, so the panel [i + 5]
    alone takes the sample; any other index raises [IndexError]. *)
Theorem onSample_out_of_range (h : list (Z * SensorSample F)) (i : Z)
    (s : SensorSample F) :
  Forall (λ c, valid_index c.1 = true) h →
  ∃ w,
    onSamples (MainWindow_init f0) h = Ok w ∧
    ((-5 ≤ i < 0)%Z →
     _onSample w i s =
       Ok (mkWindow (_hand w) (<[Z.to_nat (i + 5) := mkPanel s]> (_panels w))
             (_timeSeries w))) ∧
    ((i < -5 ∨ 5 ≤ i)%Z → _onSample w i s = Raise IndexError).
Proof.
  intros Hall.
  destruct (onSamples_inv h Hall) as (w & Hrun & _ & Hlp & _).
  exists w. split; [done|]. split.
  - intros Hi. unfold _onSample, setFingerSample.
    assert (H1 : (0 <=? i)%Z && (i <? 5)%Z = false).
    { apply andb_false_intro1. apply Z.leb_gt. lia. }
    rewrite H1, bind_Ok, (py_index_5 _ i Hlp), H1.
    assert (H2 : (-5 <=? i)%Z && (i <? 0)%Z = true).
    { apply andb_true_intro. split; [apply Z.leb_le|apply Z.ltb_lt]; lia. }
    rewrite H2, bind_Ok.
    assert (is_Some (_panels w !! Z.to_nat (i + 5))) as [panel Hpanel].
    { apply lookup_lt_is_Some. rewrite Hlp. lia. }
    unfold py_getitem. rewrite Hpanel, bind_Ok.
    rewrite addSample_invalid by exact H1. by rewrite bind_Ok.
  - intros Hi. unfold _onSample, setFingerSample.
    assert (H1 : (0 <=? i)%Z && (i <? 5)%Z = false).
    { destruct Hi; [apply andb_false_intro1; apply Z.leb_gt
                   |apply andb_false_intro2; apply Z.ltb_ge]; lia. }
    rewrite H1, bind_Ok, (py_index_5 _ i Hlp), H1.
    assert (H2 : (-5 <=? i)%Z && (i <? 0)%Z = false).
    { destruct Hi; [apply andb_false_intro1; apply Z.leb_gt
                   |apply andb_false_intro2; apply Z.ltb_ge]; lia. }
    by rewrite H2.
Qed.

End WidgetFacts.

Section EndToEnd.
Context {F : Type} (f0 : F) (fadd fmul : F → F → F) (fsqrt : F → F).
Context (fs : string → option F).

(** X16: whatever lines arrive, delivering every update the parser
    returns for them, in order, never makes [_onSample] raise: the parser
    only ever produces the indices the window has room for. *)
Theorem parsed_updates_fit_window (texts : list string)
    (parsed : list (list (Z * SensorSample F))) :
  Forall2 (λ text updates,
             _parse_line_multi fadd fmul fsqrt fs text = Ok updates)
          texts parsed →
  ∃ w, onSamples (MainWindow_init f0) (concat parsed) = Ok w.
Proof.
  intros Hall.
  destruct (onSamples_inv f0 (concat parsed)) as (w & Hrun & _); [|by exists w].
  apply Forall_concat. induction Hall as [|text updates texts parsed Hp _ IH].
  - constructor.
  - constructor; [|done].
    destruct (parse_ok_inv fadd fmul fsqrt fs text updates Hp) as [_ Hidx].
    eapply Forall_impl; [exact Hidx|]. intros [i s]. unfold index_in_range, valid_index.
    simpl. intros Hi. apply andb_true_intro.
    split; [apply Z.leb_le|apply Z.ltb_lt]; lia.
Qed.

End EndToEnd.

(** ** The graphics helper [clamp] on binary64 *)

Lemma SFcompare_refl (x : spec_float) :
  x ≠ S754_nan → SFcompare x x = Some Eq.
Proof.
  destruct x as [s|s| |s m e]; try done; intros _; simpl.
  - by destruct s.
  - rewrite Z.compare_refl, Pos.compare_cont_refl. by destruct s.
Qed.

Lemma SFcompare_antisym (x y : spec_float) :
  SFcompare y x = CompOpp <$> SFcompare x y.
Proof.
  destruct x as [sx|sx| |sx mx ex], y as [sy|sy| |sy my ey]; cbn;
    try (repeat match goal with s : bool |- _ => destruct s end; reflexivity).
  rewrite (Z.compare_antisym ex ey).
  rewrite !Pos.compare_cont_spec. cbn [Pos.switch_Eq].
  rewrite (Pos.compare_antisym mx my).
  destruct sx, sy, (ex ?= ey)%Z, (mx ?= my)%positive; done.
Qed.

(** Floats that compare equal compare alike with any third one. *)
Lemma SFcompare_eq_r (x y z : spec_float) :
  SFcompare x y = Some Eq → SFcompare z x = SFcompare z y.
Proof.
  destruct x as [sx|sx| |sx mx ex], y as [sy|sy| |sy my ey]; cbn.
  all: try discriminate.
  all: try (repeat match goal with s : bool |- _ => destruct s end; discriminate).
  - intros _. by destruct z.
  - destruct sx, sy; try discriminate; reflexivity.
  - rewrite !Pos.compare_cont_spec. cbn [Pos.switch_Eq].
    destruct sx, sy; try discriminate;
      destruct (Z.compare_spec ex ey); try discriminate;
      destruct (Pos.compare_spec mx my); try discriminate;
      intros _; subst; reflexivity.
Qed.

Lemma is_nan_spec (x : float) :
  PrimFloat.is_nan x = false ↔ Prim2SF x ≠ S754_nan.
Proof.
  unfold PrimFloat.is_nan. rewrite FloatAxioms.eqb_spec. unfold SFeqb. split.
  - intros H E. rewrite E in H. done.
  - intros H. by rewrite (SFcompare_refl _ H).
Qed.

Lemma float_ltb_leb (x y : float) :
  PrimFloat.ltb x y = true → PrimFloat.leb x y = true.
Proof.
  rewrite FloatAxioms.ltb_spec, FloatAxioms.leb_spec. unfold SFltb, SFleb.
  by destruct (SFcompare _ _) as [[]|].
Qed.

Lemma float_leb_refl (x : float) :
  PrimFloat.is_nan x = false → PrimFloat.leb x x = true.
Proof.
  intros H%is_nan_spec. rewrite FloatAxioms.leb_spec. unfold SFleb.
  by rewrite (SFcompare_refl _ H).
Qed.

Lemma float_eqb_refl (x : float) :
  PrimFloat.is_nan x = false → PrimFloat.eqb x x = true.
Proof. unfold PrimFloat.is_nan. by destruct (PrimFloat.eqb x x). Qed.

Lemma float_ltb_not_nan (x y : float) :
  PrimFloat.ltb x y = true → PrimFloat.is_nan x = false.
Proof.
  rewrite FloatAxioms.ltb_spec. unfold SFltb. intros H. apply is_nan_spec. intros E.
  rewrite E in H. done.
Qed.

Lemma float_leb_not_nan (x y : float) :
  PrimFloat.leb x y = true →
  PrimFloat.is_nan x = false ∧ PrimFloat.is_nan y = false.
Proof.
  rewrite FloatAxioms.leb_spec. unfold SFleb. intros H. split; apply is_nan_spec; intros E;
    rewrite E in H; [done|]. by destruct (Prim2SF x).
Qed.

Lemma float_leb_not_ltb (x y : float) :
  PrimFloat.leb x y = true → PrimFloat.ltb x y = false →
  PrimFloat.eqb x y = true.
Proof.
  rewrite FloatAxioms.leb_spec, FloatAxioms.ltb_spec, FloatAxioms.eqb_spec.
  unfold SFleb, SFltb, SFeqb.
  by destruct (SFcompare _ _) as [[]|].
Qed.

Lemma float_eqb_sym (x y : float) :
  PrimFloat.eqb x y = true → PrimFloat.eqb y x = true.
Proof.
  rewrite !FloatAxioms.eqb_spec. unfold SFeqb. rewrite (SFcompare_antisym (Prim2SF x)).
  by destruct (SFcompare _ _) as [[]|].
Qed.

Lemma float_nan_ltb (x y : float) :
  PrimFloat.is_nan x = true → PrimFloat.ltb x y = false.
Proof.
  intros H. destruct (PrimFloat.ltb x y) eqn:E; [|done].
  apply float_ltb_not_nan in E. congruence.
Qed.

Lemma float_eqb_ltb_r (l v h : float) :
  PrimFloat.eqb v h = true → PrimFloat.ltb l v = PrimFloat.ltb l h.
Proof.
  rewrite FloatAxioms.eqb_spec, !FloatAxioms.ltb_spec. unfold SFeqb, SFltb. intros H.
  destruct (SFcompare (Prim2SF v) (Prim2SF h)) as [[]|] eqn:E; try done.
  by rewrite (SFcompare_eq_r _ _ (Prim2SF l) E).
Qed.

(** X18: [clamp] with bounds that are numbers, the lower not above the
    upper, returns a number between the bounds for every value, infinite
    or not a number included; a value within the bounds comes back equal;
    a value that is not a number comes back as the upper bound. *)
Theorem clamp_within_bounds (value lo hi : float) :
  PrimFloat.leb lo hi = true →
  (PrimFloat.leb lo (clamp value lo hi) = true ∧
   PrimFloat.leb (clamp value lo hi) hi = true ∧
   PrimFloat.is_nan (clamp value lo hi) = false) ∧
  (PrimFloat.leb lo value = true → PrimFloat.leb value hi = true →
   PrimFloat.eqb (clamp value lo hi) value = true) ∧
  (PrimFloat.is_nan value = true →
   PrimFloat.eqb (clamp value lo hi) hi = true).
Proof.
  intros Hle. destruct (float_leb_not_nan lo hi Hle) as [Hlo Hhi].
  unfold clamp, py_max2, py_min2. split; [|split].
  - destruct (PrimFloat.ltb value hi) eqn:Hvh.
    + destruct (PrimFloat.ltb lo value) eqn:Hlv.
      * split; [by apply float_ltb_leb|]. split; [by apply float_ltb_leb|].
        by eapply float_ltb_not_nan.
      * split; [by apply float_leb_refl|]. by split.
    + destruct (PrimFloat.ltb lo hi) eqn:Hlh.
      * split; [done|]. split; [by apply float_leb_refl|done].
      * split; [by apply float_leb_refl|]. by split.
  - intros Hlv Hvh. destruct (float_leb_not_nan lo value Hlv) as [_ Hv].
    destruct (PrimFloat.ltb value hi) eqn:Hlt.
    + destruct (PrimFloat.ltb lo value) eqn:Hlt2.
      * by apply float_eqb_refl.
      * by apply float_leb_not_ltb.
    + pose proof (float_leb_not_ltb value hi Hvh Hlt) as Heq.
      rewrite <- (float_eqb_ltb_r lo value hi Heq).
      destruct (PrimFloat.ltb lo value) eqn:Hlt2.
      * by apply float_eqb_sym.
      * by apply float_leb_not_ltb.
  - intros Hnan. rewrite (float_nan_ltb value hi Hnan).
    destruct (PrimFloat.ltb lo hi) eqn:Hlh.
    + by apply float_eqb_refl.
    + by apply float_leb_not_ltb.
Qed.
(** ** The further properties at concrete inputs, in binary64 *)

Lemma addSample_leaves_others_witness :
  valid_index 1 = true ∧ 0 ≠ Z.to_nat 1 ∧
  ∃ st st',
    addSamples (TimeSeriesTab_init 0%float) [(0%Z, PF_sample 1); (1%Z, PF_sample 2)]
      = Ok st ∧
    addSample st 1 (PF_sample 3) = Ok st' ∧
    _buffers st' !! 0 = _buffers st !! 0 ∧
    _plots st' !! 0 = _plots st !! 0 ∧
    _index st' = S (_index st).
Proof.
  split; [reflexivity|]. split; [discriminate|].
  exact (addSample_leaves_others 0%float [(0%Z, PF_sample 1); (1%Z, PF_sample 2)]
           1%Z (PF_sample 3) 0 eq_refl ltac:(discriminate)).
Defined.

Lemma rounds_leave_gaps_witness :
  Forall (λ r : list (SensorSample float), length r = 5)
    [PF_sample <$> seq 0 5; PF_sample <$> seq 5 5] ∧
  ∃ st,
    addSamples (TimeSeriesTab_init 0%float)
      (round_calls [PF_sample <$> seq 0 5; PF_sample <$> seq 5 5]) = Ok st ∧
    ∀ (t : nat) b cv ax,
      _buffers st !! t = Some b → _plots st !! t = Some cv →
      (∀ p : nat, p < 800 → p mod 5 ≠ t → axis_buf ax b !! p = Some 0%float) ∧
      ([PF_sample <$> seq 0 5; PF_sample <$> seq 5 5] ≠ [] →
       ∀ j : nat, j < 800 → j mod 5 ≠ 4 → axis_curve ax cv !! j = Some 0%float).
Proof.
  assert (H : Forall (λ r : list (SensorSample float), length r = 5)
                [PF_sample <$> seq 0 5; PF_sample <$> seq 5 5]).
  { repeat constructor. }
  split; [exact H|].
  exact (rounds_leave_gaps 0%float _ H).
Defined.

Lemma tokens_are_trimmed_witness :
  "1.5" ∈ comma_parts " 1.5 , ,2 " ∧
  is_empty "1.5" = false ∧ has_char is_comma "1.5" = false ∧ strip "1.5" = "1.5".
Proof.
  assert (H : "1.5" ∈ comma_parts " 1.5 , ,2 ").
  { change (comma_parts " 1.5 , ,2 ") with ["1.5"; "2"]. left. }
  split; [exact H|].
  exact (tokens_are_trimmed " 1.5 , ,2 " "1.5" H).
Defined.

Lemma blanks_do_not_matter_witness :
  all_space "  " = true ∧ all_space (carriage_return ++ " ") = true ∧
  PF_parse ("  " ++ "Sensor 2: 1,2,3" ++ carriage_return ++ " ")
    = PF_parse "Sensor 2: 1,2,3".
Proof.
  split; [reflexivity|]. split; [reflexivity|].
  exact (blanks_do_not_matter PrimFloat.add PrimFloat.mul PrimFloat.sqrt
           PF_float_of_str "  " "Sensor 2: 1,2,3" (carriage_return ++ " ")
           eq_refl eq_refl).
Defined.

Lemma label_is_matched_witness :
  all_space " " = true ∧ lower "SeNsOr" = "sensor" ∧
  all_space "" = true ∧ all_digits "12" = true ∧ is_empty "12" = false ∧
  all_space " " = true ∧ all_space "  " = true ∧
  has_newline "1,2,3" = false ∧ lstrip "1,2,3" = "1,2,3" ∧
  re_match_sensor (" " ++ "SeNsOr" ++ "" ++ "12" ++ " " ++ ":" ++ "  " ++ "1,2,3")
    = Some ("12", "1,2,3").
Proof.
  repeat (split; [reflexivity|]).
  exact (label_is_matched " " "SeNsOr" "" "12" " " "  " "1,2,3"
           eq_refl eq_refl eq_refl eq_refl eq_refl eq_refl eq_refl eq_refl eq_refl).
Defined.

Lemma chunking_does_not_matter_witness :
  _running PF_running_worker = true ∧
  ∃ st1 st2 exited,
    PF_read_loop (mkLoop PF_running_worker "" 0 [])
      (Ok <$> ["1,2"; ",3" +:+ line_feed +:+ "4,"; "5,6" +:+ line_feed +:+ "7"])
      = (st1, exited) ∧
    PF_read_loop (mkLoop PF_running_worker "" 0 [])
      [Ok (join_chunks ["1,2"; ",3" +:+ line_feed +:+ "4,"; "5,6" +:+ line_feed +:+ "7"])]
      = (st2, exited) ∧
    ls_self st1 = ls_self st2 ∧ ls_signals st1 = ls_signals st2 ∧
    ls_ticks st1 = ls_ticks st2 ∧
    (exited = false → st1 = st2).
Proof.
  split; [reflexivity|].
  destruct (chunking_does_not_matter PrimFloat.add PrimFloat.mul PrimFloat.sqrt
              PF_float_of_str PF_str_of_exn PF_clock PF_running_worker 0 []
              ["1,2"; ",3" +:+ line_feed +:+ "4,"; "5,6" +:+ line_feed +:+ "7"] eq_refl)
    as (st1 & st2 & exited & H1 & H2 & H3 & H4 & H5 & _ & H7).
  exists st1, st2, exited.
  split; [exact H1|]. split; [exact H2|]. split; [exact H3|].
  split; [exact H4|]. split; [exact H5|].
  intros He. exact (proj1 (H7 He)).
Defined.

(** The same run evaluated: both lines are dispatched, one second apart on
    the clock, and the 7 waits in the buffer. *)
Example chunked_run :
  ∃ st' s1 s2,
    PF_read_loop (mkLoop PF_running_worker "" 0 [])
      (Ok <$> ["1,2"; ",3" +:+ line_feed +:+ "4,"; "5,6" +:+ line_feed +:+ "7"])
      = (st', false) ∧
    ls_signals st' = [sampleReceived 0 s1; sampleReceived 0 s2] ∧
    ls_ticks st' = 2 ∧ ls_buffer st' = "7".
Proof. eexists _, _, _. repeat split; vm_compute; reflexivity. Qed.

(** A line with a sensor number of 4301 digits ends the loop: the line
    before it is dispatched, the line after it never is, whether the text
    comes in one chunk or in two. *)
Example long_number_ends_loop :
  ∃ st1 st2 s1,
    PF_read_loop (mkLoop PF_running_worker "" 0 [])
      [Ok ("1,2,3" +:+ line_feed +:+ long_number_line 4301 +:+ line_feed
             +:+ "4,5,6" +:+ line_feed)]
      = (st1, true) ∧
    PF_read_loop (mkLoop PF_running_worker "" 0 [])
      [Ok ("1,2,3" +:+ line_feed +:+ "Sensor 1");
       Ok (repeat_char "1" 4300 +:+ ": 1,2,3" +:+ line_feed +:+ "4,5,6" +:+ line_feed)]
      = (st2, true) ∧
    ls_signals st1 =
      [sampleReceived 0 s1; statusChanged "Serial read error: error"] ∧
    ls_signals st2 = ls_signals st1 ∧ ls_self st2 = ls_self st1.
Proof. eexists _, _, _. repeat split; vm_compute; reflexivity. Qed.

Lemma window_holds_latest_witness :
  Forall (λ c : Z * SensorSample float, valid_index c.1 = true)
    [(0%Z, PF_sample 1); (3%Z, PF_sample 2); (0%Z, PF_sample 3)] ∧
  ∃ w,
    onSamples (MainWindow_init 0%float)
      [(0%Z, PF_sample 1); (3%Z, PF_sample 2); (0%Z, PF_sample 3)] = Ok w ∧
    _finger_states (_hand w) !! 0 = Some (PF_sample 3) ∧
    _panels w !! 0 = Some (mkPanel (PF_sample 3)) ∧
    _finger_states (_hand w) !! 1 = Some (mkSample 0 0 0 0)%float.
Proof.
  assert (H : Forall (λ c : Z * SensorSample float, valid_index c.1 = true)
                [(0%Z, PF_sample 1); (3%Z, PF_sample 2); (0%Z, PF_sample 3)]).
  { repeat constructor. }
  split; [exact H|].
  destruct (window_holds_latest 0%float _ H) as (w & Hw & _ & Hnone & Hlast).
  exists w. split; [exact Hw|].
  destruct (Hlast 0 2 (PF_sample 3) eq_refl) as [Hh Hp].
  { intros [|[|[|k']]] s' Hk; try lia; discriminate. }
  split; [exact Hh|]. split; [exact Hp|].
  refine (proj1 (Hnone 1 _ _)); [lia|].
  intros [|[|[|k]]] s; discriminate.
Defined.

Lemma parsed_updates_fit_window_witness :
  Forall2 (λ text updates, PF_parse text = Ok updates)
    ["1,2,3"; "Sensor 7: 1,2,3"; "hello"]
    [[(0%Z, mkSample 1 2 0x1.deeea11683f49p+1 3)];
     [(4%Z, mkSample 1 2 0x1.deeea11683f49p+1 3)]; []]%float ∧
  ∃ w,
    onSamples (MainWindow_init 0%float)
      (concat [[(0%Z, mkSample 1 2 0x1.deeea11683f49p+1 3)];
               [(4%Z, mkSample 1 2 0x1.deeea11683f49p+1 3)]; []]%float) = Ok w.
Proof.
  assert (H : Forall2 (λ text updates, PF_parse text = Ok updates)
                ["1,2,3"; "Sensor 7: 1,2,3"; "hello"]
                [[(0%Z, mkSample 1 2 0x1.deeea11683f49p+1 3)];
                 [(4%Z, mkSample 1 2 0x1.deeea11683f49p+1 3)]; []]%float).
  { repeat (constructor; [reflexivity|]). constructor. }
  split; [exact H|].
  exact (parsed_updates_fit_window 0%float PrimFloat.add PrimFloat.mul
           PrimFloat.sqrt PF_float_of_str _ _ H).
Defined.

Lemma onSample_out_of_range_witness :
  Forall (λ c : Z * SensorSample float, valid_index c.1 = true)
    [(2%Z, PF_sample 1)] ∧
  ∃ w,
    onSamples (MainWindow_init 0%float) [(2%Z, PF_sample 1)] = Ok w ∧
    _onSample w (-1) (PF_sample 2) =
      Ok (mkWindow (_hand w) (<[4 := mkPanel (PF_sample 2)]> (_panels w))
            (_timeSeries w)) ∧
    _onSample w 5 (PF_sample 2) = Raise IndexError.
Proof.
  assert (H : Forall (λ c : Z * SensorSample float, valid_index c.1 = true)
                [(2%Z, PF_sample 1)]).
  { repeat constructor. }
  split; [exact H|].
  destruct (onSample_out_of_range 0%float _ (-1)%Z (PF_sample 2) H)
    as (w & Hw & Hneg & _).
  destruct (onSample_out_of_range 0%float _ 5%Z (PF_sample 2) H)
    as (w' & Hw' & _ & Hbig).
  exists w. split; [exact Hw|]. split; [apply Hneg; lia|].
  assert (w' = w) as <- by congruence. apply Hbig. lia.
Defined.

Lemma clamp_within_bounds_witness :
  PrimFloat.leb 0 1 = true ∧
  clamp 1.5 0 1 = 1%float ∧ clamp nan 0 1 = 1%float ∧
  clamp (-0.5) 0 1 = 0%float ∧
  PrimFloat.leb 0 (clamp 1.5 0 1) = true ∧
  PrimFloat.leb (clamp 1.5 0 1) 1 = true.
Proof.
  split; [reflexivity|]. split; [reflexivity|]. split; [reflexivity|].
  split; [reflexivity|].
  destruct (clamp_within_bounds 1.5 0 1 eq_refl) as [(H1 & H2 & _) _].
  split; [exact H1 | exact H2].
Defined.
